(** * Epoch processing of the beacon state transition

    A shallow embedding of the epoch-transition code of
    [packages/beacon-state-transition/src/allForks]:

    - [util/epochProcess.ts]             ([beforeProcessEpoch] and, as its
                                         second module,
                                         [processEffectiveBalanceUpdates])
    - [epoch/processSlashings.ts]        ([processSlashingsAllForks])
    - [epoch/processRegistryUpdates.ts]  ([processRegistryUpdates])

    and of the JSON RPC client of the eth1 provider,
    [packages/lodestar/src/eth1/provider/jsonRpcHttpClient.ts].  The
    orchestrator of the epoch transition and the sub-phases that are not
    part of the sources are modelled from the specification.

    [Gwei] values are JavaScript [bigint]s and are modelled by [Z]; epochs,
    slots and flag words are JavaScript integers and are modelled by [Z] as
    well; validator indices are array positions and are modelled by [nat].
    A thrown exception is the [None] of the [option] monad. *)

From Stdlib Require Import ZArith Lia Sorted Permutation.
From stdpp Require Import base option list strings pretty.

Local Open Scope Z_scope.

(** ** Primitive types *)

Abbreviation Gwei := Z (only parsing).
Abbreviation Epoch := Z (only parsing).
Abbreviation Slot := Z (only parsing).
Abbreviation ValidatorIndex := nat (only parsing).

Inductive ForkName := phase0 | altair.

(** ** Constants of [@chainsafe/lodestar-params]

    The package is a preset selected at build time (mainnet, minimal); its
    constants are parameters of the development.  [FAR_FUTURE_EPOCH] is the
    largest epoch value; the code only compares with it. *)

Class Params := {
  EFFECTIVE_BALANCE_INCREMENT : Gwei;
  MAX_EFFECTIVE_BALANCE : Gwei;
  EPOCHS_PER_SLASHINGS_VECTOR : Z;
  FAR_FUTURE_EPOCH : Epoch;
  HYSTERESIS_QUOTIENT : Z;
  HYSTERESIS_DOWNWARD_MULTIPLIER : Z;
  HYSTERESIS_UPWARD_MULTIPLIER : Z;
  PROPORTIONAL_SLASHING_MULTIPLIER : Z;
  PROPORTIONAL_SLASHING_MULTIPLIER_ALTAIR : Z;
}.

(** The flag words of [./attesterStatus]: machine integers combined with
    [|] and tested with [hasMarkers]. *)

Class AttesterFlags := {
  FLAG_UNSLASHED : Z;
  FLAG_ELIGIBLE_ATTESTER : Z;
  FLAG_PREV_SOURCE_ATTESTER : Z;
  FLAG_PREV_TARGET_ATTESTER : Z;
  FLAG_PREV_HEAD_ATTESTER : Z;
  FLAG_CURR_SOURCE_ATTESTER : Z;
  FLAG_CURR_TARGET_ATTESTER : Z;
  FLAG_CURR_HEAD_ATTESTER : Z;
}.

(** The pending attestations of phase 0 are only handed on to
    [statusProcessEpoch]; their type stays abstract. *)

Class SszTypes := {
  PendingAttestation : Type;
}.

(** ** [bigint] and integer arithmetic

    [a / b] and [a % b] on [bigint] truncate towards zero and throw a
    [RangeError] when [b] is zero. *)

Definition bigint_div (a b : Z) : option Z :=
  if b =? 0 then None else Some (Z.quot a b).

Definition bigint_mod (a b : Z) : option Z :=
  if b =? 0 then None else Some (Z.rem a b).

(** Modelled from the spec: [bigIntMin] of [@chainsafe/lodestar-utils] is
    not part of the sources; it is the [min] of the slashing and of the
    effective balance formulas. *)
Definition bigIntMin (a b : Z) : Z := if a <? b then a else b.

(** Modelled from the spec: [intDiv] of [@chainsafe/lodestar-utils] is not
    part of the sources; divisions are floor divisions. *)
Definition intDiv (a b : Z) : Z := a / b.

(** ** Data model *)

Record Validator := mkValidator {
  effectiveBalance : Gwei;
  slashed : bool;
  activationEligibilityEpoch : Epoch;
  activationEpoch : Epoch;
  exitEpoch : Epoch;
  withdrawableEpoch : Epoch;
}.

(** One entry of the Altair participation lists, as [forEachStatus] hands
    it to its callback. *)
Record ParticipationStatus := mkParticipation {
  timelySource : bool;
  timelyTarget : bool;
  timelyHead : bool;
}.

Record IAttesterStatus := mkStatus {
  flags : Z;
  active : bool;
}.

Record Config := mkConfig {
  EJECTION_BALANCE : Gwei;
  getForkName : Slot -> ForkName;
}.

(** The parts of [state.epochCtx] the epoch processors read:
    [currentShuffling.epoch], [previousShuffling.epoch], the effective
    balance vector and the churn limit. *)
Record EpochContext := mkEpochCtx {
  currentShuffling_epoch : Epoch;
  previousShuffling_epoch : Epoch;
  effectiveBalances : list Gwei;
  churnLimit : nat;
}.

Section DataModel.
Context `{SszTypes}.

Record BeaconState := mkState {
  config : Config;
  epochCtx : EpochContext;
  slot : Slot;
  validators : list Validator;
  balances : list Gwei;
  slashings : list Gwei;
  finalizedCheckpoint_epoch : Epoch;
  previousEpochAttestations : list PendingAttestation;
  currentEpochAttestations : list PendingAttestation;
  previousEpochParticipation : list ParticipationStatus;
  currentEpochParticipation : list ParticipationStatus;
}.

Definition set_validators (s : BeaconState) (vs : list Validator) : BeaconState :=
  mkState (config s) (epochCtx s) (slot s) vs (balances s) (slashings s)
          (finalizedCheckpoint_epoch s)
          (previousEpochAttestations s) (currentEpochAttestations s)
          (previousEpochParticipation s) (currentEpochParticipation s).

Definition set_balances (s : BeaconState) (bs : list Gwei) : BeaconState :=
  mkState (config s) (epochCtx s) (slot s) (validators s) bs (slashings s)
          (finalizedCheckpoint_epoch s)
          (previousEpochAttestations s) (currentEpochAttestations s)
          (previousEpochParticipation s) (currentEpochParticipation s).
End DataModel.

(** [IEpochProcess].  The record of [epochProcess.ts] extended with the two
    properties that [processRegistryUpdates] and
    [processEffectiveBalanceUpdates] read from it, [validators] and
    [balances]; a property that is not set is [None]. *)
Record IEpochProcess := mkEpochProcess {
  prevEpoch : Epoch;
  currentEpoch : Epoch;
  totalActiveStake : Gwei;
  baseRewardPerIncrement : Gwei;
  prevEpochUnslashedStake_sourceStake : Gwei;
  prevEpochUnslashedStake_targetStake : Gwei;
  prevEpochUnslashedStake_headStake : Gwei;
  currEpochUnslashedTargetStake : Gwei;
  indicesToSlash : list ValidatorIndex;
  indicesEligibleForActivationQueue : list ValidatorIndex;
  indicesEligibleForActivation : list ValidatorIndex;
  indicesToEject : list ValidatorIndex;
  nextEpochActiveValidatorIndices : list ValidatorIndex;
  statusesFlat : list IAttesterStatus;
  balancesFlat : list Gwei;
  ep_validators : option (list Validator);
  ep_balances : option (list Gwei);
}.

(** ** Updating one slot of a tree-backed list

    [list.update(index, changes)] and [list[index] = value] address an
    existing element; an index outside the list throws. *)

Definition list_update {A : Type} (l : list A) (i : nat) (f : A -> A) : option (list A) :=
  x ← l !! i; Some (<[i := f x]> l).

(** ** Slashings ([epoch/processSlashings.ts]) *)

Section Slashings.
Context `{Params} `{SszTypes}.

(** Modelled from the spec: [decreaseBalance] of [../../util] is not part
    of the sources.  Balance decreases saturate at zero; the balance slot
    of [index] is the only thing written. *)
Definition decreaseBalance (state : BeaconState) (index : ValidatorIndex) (delta : Gwei)
  : option BeaconState :=
  bs ← list_update (balances state) index
         (fun balance => if balance <? delta then 0 else balance - delta);
  Some (set_balances state bs).

(** What a run of [processSlashingsAllForks] does to its environment, in
    program order: the pass over [state.slashings] and the calls of
    [decreaseBalance]. *)
Inductive Effect :=
  | ReadSlashings
  | DecreaseBalance (index : ValidatorIndex) (delta : Gwei).

(** [for (const slashing of readonlyValues(state.slashings)) totalSlashings += slashing] *)
Definition sumSlashings (l : list Gwei) : Gwei :=
  fold_left Z.add l 0.

(** The body of the loop over [indicesToSlash]: the penalty and the state
    after [decreaseBalance]. *)
Definition slashIndex (adjustedTotalSlashingBalance totalBalance increment : Gwei)
    (state : BeaconState) (index : ValidatorIndex) : option (BeaconState * Gwei) :=
  effectiveBalance ← effectiveBalances (epochCtx state) !! index;
  q ← bigint_div effectiveBalance increment;
  let penaltyNumerator := q * adjustedTotalSlashingBalance in
  r ← bigint_div penaltyNumerator totalBalance;
  let penalty := r * increment in
  state' ← decreaseBalance state index penalty;
  Some (state', penalty).

Fixpoint slashLoop (adjustedTotalSlashingBalance totalBalance increment : Gwei)
    (indices : list ValidatorIndex) (state : BeaconState) (trace : list Effect)
  : option (BeaconState * list Effect) :=
  match indices with
  | [] => Some (state, trace)
  | index :: rest =>
      '(state', penalty) ← slashIndex adjustedTotalSlashingBalance totalBalance increment state index;
      slashLoop adjustedTotalSlashingBalance totalBalance increment rest state'
                (trace ++ [DecreaseBalance index penalty])
  end.

Definition processSlashingsAllForks (fork : ForkName) (state : BeaconState)
    (epochProcess : IEpochProcess) : option (BeaconState * list Effect) :=
  if (length (indicesToSlash epochProcess) =? 0)%nat then Some (state, [])
  else
    let totalBalance := totalActiveStake epochProcess in
    let totalSlashings := sumSlashings (slashings state) in
    let proportionalSlashingMultiplier :=
      match fork with
      | phase0 => PROPORTIONAL_SLASHING_MULTIPLIER
      | altair => PROPORTIONAL_SLASHING_MULTIPLIER_ALTAIR
      end in
    let adjustedTotalSlashingBalance :=
      bigIntMin (totalSlashings * proportionalSlashingMultiplier) totalBalance in
    let increment := EFFECTIVE_BALANCE_INCREMENT in
    slashLoop adjustedTotalSlashingBalance totalBalance increment
              (indicesToSlash epochProcess) state [ReadSlashings].

End Slashings.

(** ** Functions imported from modules that are not part of the sources

    [isActiveValidator] and [computeActivationExitEpoch] ([../../util]),
    [computeBaseRewardPerIncrement] ([../../altair/util/misc]),
    [statusProcessEpoch] ([../../phase0/epoch/processPendingAttestations],
    which rewrites the flags of the statuses it is given) and
    [initiateValidatorExit] ([../block]) are parameters. *)

Class Util `{SszTypes} := {
  isActiveValidator : Validator -> Epoch -> bool;
  computeActivationExitEpoch : Epoch -> Epoch;
  computeBaseRewardPerIncrement : Gwei -> option Gwei;
  statusProcessEpoch :
    BeaconState -> list IAttesterStatus -> list PendingAttestation -> Epoch ->
    Z -> Z -> Z -> option (list IAttesterStatus);
  initiateValidatorExit : BeaconState -> ValidatorIndex -> option BeaconState;
}.

(** Modelled from the spec: [createIAttesterStatus] and [hasMarkers] of
    [./attesterStatus] are not part of the sources.  A fresh status has no
    flag and is not active; [hasMarkers] applies the bit mask. *)
Definition createIAttesterStatus : IAttesterStatus := mkStatus 0 false.

Definition hasMarkers (flags markers : Z) : bool :=
  Z.land flags markers =? markers.

(** [status.flags |= mask] *)
Definition orFlags (status : IAttesterStatus) (mask : Z) : IAttesterStatus :=
  mkStatus (Z.lor (flags status) mask) (active status).

(** ** [Array.prototype.sort]

    The sort is stable and orders by the sign of the comparator; it is
    modelled by a stable insertion sort. *)

Fixpoint insertBy {A : Type} (cmp : A -> A -> Z) (x : A) (l : list A) : list A :=
  match l with
  | [] => [x]
  | y :: l' => if cmp x y <=? 0 then x :: l else y :: insertBy cmp x l'
  end.

Definition sortBy {A : Type} (cmp : A -> A -> Z) (l : list A) : list A :=
  foldr (insertBy cmp) [] l.

(** ** The epoch summary ([util/epochProcess.ts]) *)

(** The arrays and the counter that the loop over the validators fills. *)
Record Scan := mkScan {
  sc_indicesToSlash : list ValidatorIndex;
  sc_indicesEligibleForActivationQueue : list ValidatorIndex;
  sc_indicesEligibleForActivation : list ValidatorIndex;
  sc_indicesToEject : list ValidatorIndex;
  sc_nextEpochActiveValidatorIndices : list ValidatorIndex;
  sc_statuses : list IAttesterStatus;
  sc_totalActiveStake : Gwei;
}.

Definition emptyScan : Scan := mkScan [] [] [] [] [] [] 0.

(** [arr.push(i)] when [c] holds. *)
Definition pushIf (c : bool) (arr : list ValidatorIndex) (i : ValidatorIndex) :=
  if c then arr ++ [i] else arr.

Section EpochProcess.
Context `{Params} `{AttesterFlags} `{SszTypes} `{!Util}.

(** The three tests of the [if / else if / else if] chain of the loop body. *)
Definition isEligibleForActivationQueue (validator : Validator) : bool :=
  (activationEligibilityEpoch validator =? FAR_FUTURE_EPOCH) &&
  (effectiveBalance validator =? MAX_EFFECTIVE_BALANCE).

Definition isEligibleForActivation (currentEpoch : Epoch) (validator : Validator) : bool :=
  (activationEpoch validator =? FAR_FUTURE_EPOCH) &&
  (activationEligibilityEpoch validator <=? currentEpoch).

Definition isToEject (cfg : Config) (active : bool) (validator : Validator) : bool :=
  active && (exitEpoch validator =? FAR_FUTURE_EPOCH) &&
  (effectiveBalance validator <=? EJECTION_BALANCE cfg).

(** One iteration of [for (let i = 0; i < validatorCount; i++)]. *)
Definition scanStep (cfg : Config) (prevEpoch currentEpoch nextEpoch slashingsEpoch : Epoch)
    (acc : Scan) (i : ValidatorIndex) (validator : Validator) : Scan :=
  let status := createIAttesterStatus in
  let '(indicesToSlash, status) :=
    if slashed validator then
      (if slashingsEpoch =? withdrawableEpoch validator
       then sc_indicesToSlash acc ++ [i] else sc_indicesToSlash acc,
       status)
    else (sc_indicesToSlash acc, orFlags status FLAG_UNSLASHED) in
  let status :=
    if isActiveValidator validator prevEpoch
       || (slashed validator && (prevEpoch + 1 <? withdrawableEpoch validator))
    then orFlags status FLAG_ELIGIBLE_ATTESTER else status in
  let active := isActiveValidator validator currentEpoch in
  let '(status, totalActiveStake) :=
    if active
    then (mkStatus (flags status) true, sc_totalActiveStake acc + effectiveBalance validator)
    else (status, sc_totalActiveStake acc) in
  let '(queue, activation, eject) :=
    if isEligibleForActivationQueue validator then
      (sc_indicesEligibleForActivationQueue acc ++ [i],
       sc_indicesEligibleForActivation acc, sc_indicesToEject acc)
    else if isEligibleForActivation currentEpoch validator then
      (sc_indicesEligibleForActivationQueue acc,
       sc_indicesEligibleForActivation acc ++ [i], sc_indicesToEject acc)
    else if isToEject cfg active validator then
      (sc_indicesEligibleForActivationQueue acc,
       sc_indicesEligibleForActivation acc, sc_indicesToEject acc ++ [i])
    else
      (sc_indicesEligibleForActivationQueue acc,
       sc_indicesEligibleForActivation acc, sc_indicesToEject acc) in
  let statuses := sc_statuses acc ++ [status] in
  let nextActive :=
    pushIf (isActiveValidator validator nextEpoch)
           (sc_nextEpochActiveValidatorIndices acc) i in
  mkScan indicesToSlash queue activation eject nextActive statuses totalActiveStake.

Fixpoint scanLoop (cfg : Config) (prevEpoch currentEpoch nextEpoch slashingsEpoch : Epoch)
    (i : ValidatorIndex) (validators : list Validator) (acc : Scan) : Scan :=
  match validators with
  | [] => acc
  | validator :: rest =>
      scanLoop cfg prevEpoch currentEpoch nextEpoch slashingsEpoch (S i) rest
               (scanStep cfg prevEpoch currentEpoch nextEpoch slashingsEpoch acc i validator)
  end.

(** The loop over the validators, from the empty arrays. *)
Definition scanValidators (state : BeaconState) : Scan :=
  let currentEpoch := currentShuffling_epoch (epochCtx state) in
  let prevEpoch := previousShuffling_epoch (epochCtx state) in
  let nextEpoch := currentEpoch + 1 in
  let slashingsEpoch := currentEpoch + intDiv EPOCHS_PER_SLASHINGS_VECTOR 2 in
  scanLoop (config state) prevEpoch currentEpoch nextEpoch slashingsEpoch
           0%nat (validators state) emptyScan.

(** [validators[a].activationEligibilityEpoch]; the indices that are sorted
    were pushed by the loop and address an element. *)
Definition eligibilityEpochAt (validators : list Validator) (a : ValidatorIndex) : Epoch :=
  default 0 (activationEligibilityEpoch <$> validators !! a).

(** [(a, b) => validators[a].activationEligibilityEpoch -
               validators[b].activationEligibilityEpoch || a - b] *)
Definition compareActivation (validators : list Validator) (a b : ValidatorIndex) : Z :=
  let d := eligibilityEpochAt validators a - eligibilityEpochAt validators b in
  if d =? 0 then Z.of_nat a - Z.of_nat b else d.

(** The flags that the callback of [forEachStatus] adds for one entry:
    [(status.timelySource && F) | (status.timelyTarget && F) |
     (status.timelyHead && F)]. *)
Definition participationMask (fSource fTarget fHead : Z) (status : ParticipationStatus) : Z :=
  Z.lor (Z.lor (if timelySource status then fSource else 0)
               (if timelyTarget status then fTarget else 0))
        (if timelyHead status then fHead else 0).

(** Modelled from the spec: [forEachStatus] of the participation lists is
    not part of the sources; it hands every entry and its position to the
    callback, here [statuses[i].flags |= mask], which throws when
    [statuses] has no element [i]. *)
Fixpoint forEachStatus (fSource fTarget fHead : Z) (i : nat)
    (participation : list ParticipationStatus) (statuses : list IAttesterStatus)
  : option (list IAttesterStatus) :=
  match participation with
  | [] => Some statuses
  | status :: rest =>
      statuses' ← list_update statuses i
                    (fun st => orFlags st (participationMask fSource fTarget fHead status));
      forEachStatus fSource fTarget fHead (S i) rest statuses'
  end.

(** The four sums of the second loop. *)
Record UnslashedStake := mkStake {
  prevSourceUnslStake : Gwei;
  prevTargetUnslStake : Gwei;
  prevHeadUnslStake : Gwei;
  currTargetUnslStake : Gwei;
}.

(** [if (hasMarkers(status.flags, mask)) sum += effectiveBalance], where
    [effectiveBalance] is [undefined] when the vector has no entry. *)
Definition addStake (statusFlags mask : Z) (sum : Gwei) (effectiveBalance : option Gwei)
  : option Gwei :=
  if hasMarkers statusFlags mask then e ← effectiveBalance; Some (sum + e)
  else Some sum.

Fixpoint stakeLoop (effectiveBalances : list Gwei) (i : nat)
    (statuses : list IAttesterStatus) (acc : UnslashedStake) : option UnslashedStake :=
  match statuses with
  | [] => Some acc
  | status :: rest =>
      let effectiveBalance := effectiveBalances !! i in
      ps ← addStake (flags status) (Z.lor FLAG_PREV_SOURCE_ATTESTER FLAG_UNSLASHED)
                    (prevSourceUnslStake acc) effectiveBalance;
      pt ← addStake (flags status) (Z.lor FLAG_PREV_TARGET_ATTESTER FLAG_UNSLASHED)
                    (prevTargetUnslStake acc) effectiveBalance;
      ph ← addStake (flags status) (Z.lor FLAG_PREV_HEAD_ATTESTER FLAG_UNSLASHED)
                    (prevHeadUnslStake acc) effectiveBalance;
      ct ← addStake (flags status) (Z.lor FLAG_CURR_TARGET_ATTESTER FLAG_UNSLASHED)
                    (currTargetUnslStake acc) effectiveBalance;
      stakeLoop effectiveBalances (S i) rest (mkStake ps pt ph ct)
  end.

(** [if (x < increment) x = increment] *)
Definition floorAt (increment x : Gwei) : Gwei :=
  if x <? increment then increment else x.

Definition beforeProcessEpoch (state : BeaconState) : option IEpochProcess :=
  let forkName := getForkName (config state) (slot state) in
  let currentEpoch := currentShuffling_epoch (epochCtx state) in
  let prevEpoch := previousShuffling_epoch (epochCtx state) in
  let balancesFlat := balances state in
  let validators := validators state in
  let scan := scanValidators state in
  let totalActiveStake := floorAt EFFECTIVE_BALANCE_INCREMENT (sc_totalActiveStake scan) in
  baseRewardPerIncrement ← computeBaseRewardPerIncrement totalActiveStake;
  let indicesEligibleForActivation :=
    sortBy (compareActivation validators) (sc_indicesEligibleForActivation scan) in
  statuses ←
    match forkName with
    | phase0 =>
        st ← statusProcessEpoch state (sc_statuses scan) (previousEpochAttestations state)
               prevEpoch FLAG_PREV_SOURCE_ATTESTER FLAG_PREV_TARGET_ATTESTER
               FLAG_PREV_HEAD_ATTESTER;
        statusProcessEpoch state st (currentEpochAttestations state)
          currentEpoch FLAG_CURR_SOURCE_ATTESTER FLAG_CURR_TARGET_ATTESTER
          FLAG_CURR_HEAD_ATTESTER
    | altair =>
        st ← forEachStatus FLAG_PREV_SOURCE_ATTESTER FLAG_PREV_TARGET_ATTESTER
               FLAG_PREV_HEAD_ATTESTER 0%nat (previousEpochParticipation state)
               (sc_statuses scan);
        forEachStatus FLAG_CURR_SOURCE_ATTESTER FLAG_CURR_TARGET_ATTESTER
          FLAG_CURR_HEAD_ATTESTER 0%nat (currentEpochParticipation state) st
    end;
  stake ← stakeLoop (effectiveBalances (epochCtx state)) 0%nat statuses (mkStake 0 0 0 0);
  let increment := EFFECTIVE_BALANCE_INCREMENT in
  Some (mkEpochProcess
          prevEpoch currentEpoch totalActiveStake baseRewardPerIncrement
          (floorAt increment (prevSourceUnslStake stake))
          (floorAt increment (prevTargetUnslStake stake))
          (floorAt increment (prevHeadUnslStake stake))
          (floorAt increment (currTargetUnslStake stake))
          (sc_indicesToSlash scan)
          (sc_indicesEligibleForActivationQueue scan)
          indicesEligibleForActivation
          (sc_indicesToEject scan)
          (sc_nextEpochActiveValidatorIndices scan)
          statuses balancesFlat None None).

End EpochProcess.

(** ** [validators.update(index, {field: value})] *)

Definition with_activationEligibilityEpoch (e : Epoch) (v : Validator) : Validator :=
  mkValidator (effectiveBalance v) (slashed v) e (activationEpoch v)
              (exitEpoch v) (withdrawableEpoch v).

Definition with_activationEpoch (e : Epoch) (v : Validator) : Validator :=
  mkValidator (effectiveBalance v) (slashed v) (activationEligibilityEpoch v) e
              (exitEpoch v) (withdrawableEpoch v).

Definition with_effectiveBalance (b : Gwei) (v : Validator) : Validator :=
  mkValidator b (slashed v) (activationEligibilityEpoch v) (activationEpoch v)
              (exitEpoch v) (withdrawableEpoch v).

(** ** Registry updates ([epoch/processRegistryUpdates.ts]) *)

Section RegistryUpdates.
Context `{SszTypes} `{!Util}.

(** [for (const index of epochProcess.indicesToEject) initiateValidatorExit(state, index)] *)
Fixpoint ejectLoop (indices : list ValidatorIndex) (state : BeaconState)
  : option BeaconState :=
  match indices with
  | [] => Some state
  | index :: rest => state' ← initiateValidatorExit state index; ejectLoop rest state'
  end.

(** [for (const index of epochProcess.indicesEligibleForActivationQueue) ...] *)
Fixpoint eligibilityLoop (epoch : Epoch) (indices : list ValidatorIndex)
    (validators : list Validator) : option (list Validator) :=
  match indices with
  | [] => Some validators
  | index :: rest =>
      validators' ← list_update validators index (with_activationEligibilityEpoch (epoch + 1));
      eligibilityLoop epoch rest validators'
  end.

(** The loop over [indicesEligibleForActivation.slice(0, churnLimit)], with
    its [break]; [snapshot] is [epochProcess.validators]. *)
Fixpoint activationLoop (snapshot : option (list Validator)) (finalityEpoch current : Epoch)
    (indices : list ValidatorIndex) (validators : list Validator)
  : option (list Validator) :=
  match indices with
  | [] => Some validators
  | index :: rest =>
      snap ← snapshot;
      v ← snap !! index;
      if activationEligibilityEpoch v >? finalityEpoch then Some validators
      else
        validators' ← list_update validators index
                        (with_activationEpoch (computeActivationExitEpoch current));
        activationLoop snapshot finalityEpoch current rest validators'
  end.

Definition processRegistryUpdates (state : BeaconState) (epochProcess : IEpochProcess)
  : option BeaconState :=
  state1 ← ejectLoop (indicesToEject epochProcess) state;
  validators1 ← eligibilityLoop (currentShuffling_epoch (epochCtx state1))
                  (indicesEligibleForActivationQueue epochProcess) (validators state1);
  let finalityEpoch := finalizedCheckpoint_epoch state1 in
  validators2 ← activationLoop (ep_validators epochProcess) finalityEpoch
                  (currentEpoch epochProcess)
                  (take (churnLimit (epochCtx state1)) (indicesEligibleForActivation epochProcess))
                  validators1;
  Some (set_validators state1 validators2).

End RegistryUpdates.

(** ** Effective balance updates ([epoch/processEffectiveBalanceUpdates.ts]) *)

Section EffectiveBalanceUpdates.
Context `{Params} `{SszTypes}.

(** The test of the [if] in the callback. *)
Definition needsUpdate (DOWNWARD_THRESHOLD UPWARD_THRESHOLD effectiveBalance balance : Gwei)
  : bool :=
  (effectiveBalance >? balance + DOWNWARD_THRESHOLD)
  || ((effectiveBalance <? MAX_EFFECTIVE_BALANCE)
      && (effectiveBalance <? balance - UPWARD_THRESHOLD)).

(** [balances.forEach((balance, i) => ...)]; [snapshot] is
    [epochProcess.validators]. *)
Fixpoint effectiveBalanceLoop (DOWNWARD_THRESHOLD UPWARD_THRESHOLD : Gwei)
    (snapshot : option (list Validator)) (i : nat) (balances : list Gwei)
    (validators : list Validator) : option (list Validator) :=
  match balances with
  | [] => Some validators
  | balance :: rest =>
      snap ← snapshot;
      v ← snap !! i;
      let effectiveBalance := effectiveBalance v in
      validators' ←
        (if needsUpdate DOWNWARD_THRESHOLD UPWARD_THRESHOLD effectiveBalance balance then
           m ← bigint_mod balance EFFECTIVE_BALANCE_INCREMENT;
           list_update validators i
             (with_effectiveBalance (bigIntMin (balance - m) MAX_EFFECTIVE_BALANCE))
         else Some validators);
      effectiveBalanceLoop DOWNWARD_THRESHOLD UPWARD_THRESHOLD snapshot (S i) rest validators'
  end.

Definition processEffectiveBalanceUpdates (state : BeaconState) (epochProcess : IEpochProcess)
  : option BeaconState :=
  HYSTERESIS_INCREMENT ← bigint_div EFFECTIVE_BALANCE_INCREMENT HYSTERESIS_QUOTIENT;
  let DOWNWARD_THRESHOLD := HYSTERESIS_INCREMENT * HYSTERESIS_DOWNWARD_MULTIPLIER in
  let UPWARD_THRESHOLD := HYSTERESIS_INCREMENT * HYSTERESIS_UPWARD_MULTIPLIER in
  validators' ← effectiveBalanceLoop DOWNWARD_THRESHOLD UPWARD_THRESHOLD
                  (ep_validators epochProcess) 0%nat
                  (default (balances state) (ep_balances epochProcess))
                  (validators state);
  Some (set_validators state validators').

End EffectiveBalanceUpdates.

(** ** The state-transition facade

    [processSlots] is called by the tests under [spec-test-runner] but its
    module is not part of the sources. *)

Inductive TransitionError :=
  | InvariantViolation
  | SlotBehind
  | ForkMismatch
  | ArithmeticOverflow.

Section Facade.
(** Everything of the state but its slot counter. *)
Variable Body : Type.
Variable SLOTS_PER_EPOCH : Z.
(** The epoch orchestrator and the per-slot caching steps. *)
Variable process_epoch : Slot -> Body -> TransitionError + Body.
Variable cache_state_root : Slot -> Body -> Body.
Variable cache_randao_mix : Slot -> Body -> Body.

Record SlotState := mkSlotState {
  ss_slot : Slot;
  ss_body : Body;
}.

(** Modelled from the spec: one round of the loop of [process_slots],
    steps 1 to 4 of section 4.6.  The outcome is the state as the round
    left it and the error, if one was raised. *)
Definition process_slot (s : SlotState) : SlotState * option TransitionError :=
  let r :=
    if (ss_slot s + 1) mod SLOTS_PER_EPOCH =? 0
    then process_epoch (ss_slot s) (ss_body s) else inr (ss_body s) in
  match r with
  | inl e => (s, Some e)
  | inr body =>
      let body := cache_state_root (ss_slot s) body in
      let slot := ss_slot s + 1 in
      (mkSlotState slot (cache_randao_mix slot body), None)
  end.

Fixpoint advance (rounds : nat) (s : SlotState) : SlotState * option TransitionError :=
  match rounds with
  | O => (s, None)
  | S rounds' =>
      match process_slot s with
      | (s', None) => advance rounds' s'
      | failed => failed
      end
  end.

(** Modelled from the spec: [process_slots(state, target_slot)] of section
    4.6, which fails with [SlotBehind] if [target_slot <= state.slot] and
    otherwise repeats the round until the state is at [target_slot]. *)
Definition process_slots (s : SlotState) (target_slot : Slot)
  : SlotState * option TransitionError :=
  if target_slot <=? ss_slot s then (s, Some SlotBehind)
  else advance (Z.to_nat (target_slot - ss_slot s)) s.

End Facade.

Arguments mkSlotState {Body} _ _.
Arguments ss_slot {Body} _.
Arguments ss_body {Body} _.
Arguments process_slot {Body} _ _ _ _ _.
Arguments advance {Body} _ _ _ _ _ _.
Arguments process_slots {Body} _ _ _ _ _ _.

(** ** A concrete environment

    The constants with the values of the scenarios of the specification:
    an increment of 1 ETH, a maximum of 32 ETH, hysteresis 4 / 1 / 5 and
    the slashing multipliers 3 (phase 0) and 2 (Altair). *)

Definition ETH : Gwei := 1000000000.

Definition scenario_params : Params := {|
  EFFECTIVE_BALANCE_INCREMENT := ETH;
  MAX_EFFECTIVE_BALANCE := 32 * ETH;
  EPOCHS_PER_SLASHINGS_VECTOR := 8192;
  FAR_FUTURE_EPOCH := 2 ^ 64 - 1;
  HYSTERESIS_QUOTIENT := 4;
  HYSTERESIS_DOWNWARD_MULTIPLIER := 1;
  HYSTERESIS_UPWARD_MULTIPLIER := 5;
  PROPORTIONAL_SLASHING_MULTIPLIER := 3;
  PROPORTIONAL_SLASHING_MULTIPLIER_ALTAIR := 2;
|}.

Definition scenario_flags : AttesterFlags := {|
  FLAG_PREV_SOURCE_ATTESTER := 1;
  FLAG_PREV_TARGET_ATTESTER := 2;
  FLAG_PREV_HEAD_ATTESTER := 4;
  FLAG_CURR_SOURCE_ATTESTER := 8;
  FLAG_CURR_TARGET_ATTESTER := 16;
  FLAG_CURR_HEAD_ATTESTER := 32;
  FLAG_UNSLASHED := 64;
  FLAG_ELIGIBLE_ATTESTER := 128;
|}.

Definition scenario_types : SszTypes := {| PendingAttestation := unit |}.

Section Scenarios.
#[local] Existing Instance scenario_params.
#[local] Existing Instance scenario_flags.
#[local] Existing Instance scenario_types.

(** The helper functions of the scenarios: a validator is active from its
    activation epoch up to its exit epoch, activations and exits take
    effect five epochs later, and an exit is initiated by writing the exit
    epoch of a validator that has none.  The scenarios are Altair states
    and carry no pending attestations. *)
Definition scenario_util : Util := {|
  isActiveValidator v epoch := (activationEpoch v <=? epoch) && (epoch <? exitEpoch v);
  computeActivationExitEpoch epoch := epoch + 1 + 4;
  computeBaseRewardPerIncrement total :=
    bigint_div (EFFECTIVE_BALANCE_INCREMENT * 64) (Z.sqrt total);
  statusProcessEpoch _ statuses _ _ _ _ _ := Some statuses;
  initiateValidatorExit state index :=
    vs ← list_update (validators state) index
            (fun v =>
               if exitEpoch v =? FAR_FUTURE_EPOCH
               then mkValidator (effectiveBalance v) (slashed v)
                      (activationEligibilityEpoch v) (activationEpoch v)
                      (currentShuffling_epoch (epochCtx state) + 1 + 4)
                      (currentShuffling_epoch (epochCtx state) + 1 + 4 + 256)
               else v);
    Some (set_validators state vs);
|}.

#[local] Existing Instance scenario_util.

Definition scenario_config : Config := mkConfig (16 * ETH) (fun _ => altair).

(** Scenario 5: one validator with 32 ETH slashed, 32 ETH in the slashings
    vector and 3200 ETH of active stake, in phase 0. *)
Definition slashing_state : BeaconState :=
  mkState scenario_config (mkEpochCtx 5 4 [32 * ETH] 4%nat) 191
          [mkValidator (32 * ETH) true 0 0 1 4101] [32 * ETH] [32 * ETH] 3
          [] [] [] [].

Definition slashing_summary : IEpochProcess :=
  mkEpochProcess 4 5 (3200 * ETH) 0 ETH ETH ETH ETH
                 [0%nat] [] [] [] [] [mkStatus 0 false] [32 * ETH] None None.

(** A summary with nobody to slash. *)
Definition quiet_summary : IEpochProcess :=
  mkEpochProcess 4 5 (3200 * ETH) 0 ETH ETH ETH ETH
                 [] [] [] [] [] [mkStatus 0 false] [32 * ETH] None None.

(** [epochProcess.validators = validators], as the caller of the two
    processors that read the snapshot sets it. *)
Definition withSnapshot (ep : IEpochProcess) (snapshot : list Validator) : IEpochProcess :=
  mkEpochProcess (prevEpoch ep) (currentEpoch ep) (totalActiveStake ep)
    (baseRewardPerIncrement ep)
    (prevEpochUnslashedStake_sourceStake ep) (prevEpochUnslashedStake_targetStake ep)
    (prevEpochUnslashedStake_headStake ep) (currEpochUnslashedTargetStake ep)
    (indicesToSlash ep) (indicesEligibleForActivationQueue ep)
    (indicesEligibleForActivation ep) (indicesToEject ep)
    (nextEpochActiveValidatorIndices ep) (statusesFlat ep) (balancesFlat ep)
    (Some snapshot) (ep_balances ep).

Definition timely (source target head : bool) : ParticipationStatus :=
  mkParticipation source target head.

(** One validator of every kind, at epoch 5 with epoch 3 finalized: an
    active one, a fresh deposit, one waiting for activation, an active one
    at the ejection balance, one slashed 4096 epochs before its withdrawable
    epoch, and one slashed earlier. *)
Definition mixed_validators : list Validator :=
  [ mkValidator (32 * ETH) false 0 0 FAR_FUTURE_EPOCH FAR_FUTURE_EPOCH;
    mkValidator (32 * ETH) false FAR_FUTURE_EPOCH FAR_FUTURE_EPOCH
                FAR_FUTURE_EPOCH FAR_FUTURE_EPOCH;
    mkValidator (32 * ETH) false 2 FAR_FUTURE_EPOCH FAR_FUTURE_EPOCH FAR_FUTURE_EPOCH;
    mkValidator (16 * ETH) false 0 0 FAR_FUTURE_EPOCH FAR_FUTURE_EPOCH;
    mkValidator (32 * ETH) true 0 0 10 4101;
    mkValidator (32 * ETH) true 0 0 3 5000 ].

Definition mixed_state : BeaconState :=
  mkState scenario_config
          (mkEpochCtx 5 4 (effectiveBalance <$> mixed_validators) 4%nat) 191
          mixed_validators
          [32 * ETH; 32 * ETH; 32 * ETH; 16 * ETH; 31 * ETH; 30 * ETH]
          [32 * ETH] 3 [] []
          [timely true true true; timely false false false; timely false false false;
           timely true true false; timely true false false; timely true true true]
          [timely true true true; timely false false false; timely false false false;
           timely true false false; timely false false false; timely false true false].

(** No validators at all. *)
Definition empty_state : BeaconState :=
  mkState scenario_config (mkEpochCtx 5 4 [] 4%nat) 191 [] [] [] 3 [] [] [] [].

(** Scenario 4: ten validators wait for activation, all with an eligibility
    epoch that is finalized, and the churn limit is 4. *)
Definition queued (eligibility : Epoch) : Validator :=
  mkValidator (32 * ETH) false eligibility FAR_FUTURE_EPOCH
              FAR_FUTURE_EPOCH FAR_FUTURE_EPOCH.

Definition queue_validators : list Validator :=
  queued <$> [3; 1; 2; 1; 3; 2; 1; 3; 2; 2].

Definition queue_state : BeaconState :=
  mkState scenario_config
          (mkEpochCtx 5 4 (effectiveBalance <$> queue_validators) 4%nat) 191
          queue_validators (effectiveBalance <$> queue_validators)
          [] 3 [] []
          (replicate 10 (timely false false false))
          (replicate 10 (timely false false false)).

(** Scenario 6: two validators with an effective balance of 32 ETH whose
    balances drifted to 31.95 ETH and to 31.74 ETH. *)
Definition hysteresis_validators : list Validator :=
  [ mkValidator (32 * ETH) false 0 0 FAR_FUTURE_EPOCH FAR_FUTURE_EPOCH;
    mkValidator (32 * ETH) false 0 0 FAR_FUTURE_EPOCH FAR_FUTURE_EPOCH ].

Definition hysteresis_state : BeaconState :=
  mkState scenario_config
          (mkEpochCtx 5 4 (effectiveBalance <$> hysteresis_validators) 4%nat) 191
          hysteresis_validators [31950000000; 31740000000] [] 3 [] [] [] [].

Definition hysteresis_summary : IEpochProcess :=
  withSnapshot quiet_summary hysteresis_validators.

(** A facade over a state without content, whose epoch orchestrator
    succeeds. *)
Definition unit_process_slots (s : SlotState unit) (target_slot : Slot)
  : SlotState unit * option TransitionError :=
  process_slots 32 (fun _ body => inr body) (fun _ body => body) (fun _ body => body)
                s target_slot.

End Scenarios.

(** ** The slashing penalty in the words of the specification

    [adjusted = min(total_slashings * PROPORTIONAL_SLASHING_MULTIPLIER,
    total_active_stake)] and [penalty = (effective_balance / increment) *
    adjusted / total_active_stake * increment], every division a floor
    division, evaluated from left to right. *)

Definition spec_total_slashings (slashings : list Gwei) : Gwei :=
  foldr Z.add 0 slashings.

Definition spec_adjusted (total_slashings multiplier total_active_stake : Z) : Z :=
  Z.min (total_slashings * multiplier) total_active_stake.

Definition spec_penalty (increment adjusted total_active_stake effective_balance : Z) : Z :=
  effective_balance / increment * adjusted / total_active_stake * increment.

(** The multiplier of a fork, as the conditional expression of
    [processSlashingsAllForks] selects it. *)
Definition slashingMultiplier `{Params} (fork : ForkName) : Z :=
  match fork with
  | phase0 => PROPORTIONAL_SLASHING_MULTIPLIER
  | altair => PROPORTIONAL_SLASHING_MULTIPLIER_ALTAIR
  end.

(** What one iteration computes, read off the code. *)
Definition penaltyOf (adjusted totalBalance increment : Gwei)
    (ebs : list Gwei) (index : ValidatorIndex) (e : Effect) : Prop :=
  exists eb q r,
    ebs !! index = Some eb /\ bigint_div eb increment = Some q /\
    bigint_div (q * adjusted) totalBalance = Some r /\
    e = DecreaseBalance index (r * increment).

(** ** Auxiliary notions for the statements about the summary *)

(** The positions [i, i+1, ...] of the elements of [vs] that satisfy [P],
    in ascending order: what a loop that pushes [i] under the test [P]
    leaves in its array. *)
Fixpoint indicesWhere {A : Type} (P : A -> bool) (i : nat) (vs : list A) : list nat :=
  match vs with
  | [] => []
  | v :: rest => (if P v then [i] else []) ++ indicesWhere P (S i) rest
  end.

(** The order of the activation queue: ascending
    [(activationEligibilityEpoch, index)]. *)
Definition activationOrder (validators : list Validator) (a b : ValidatorIndex) : Prop :=
  eligibilityEpochAt validators a < eligibilityEpochAt validators b
  \/ (eligibilityEpochAt validators a = eligibilityEpochAt validators b /\ (a <= b)%nat).

(** The invariant of the effective balance of a validator. *)
Definition effectiveBalanceOk `{Params} (v : Validator) : Prop :=
  0 <= effectiveBalance v <= MAX_EFFECTIVE_BALANCE
  /\ effectiveBalance v mod EFFECTIVE_BALANCE_INCREMENT = 0.

(** ** Auxiliary notions for the further properties *)

Definition sumZ (l : list Z) : Z := foldr Z.add 0 l.

(** The stake of the validators that are active at an epoch. *)
Definition activeStake `{SszTypes} `{!Util} (epoch : Epoch) (vs : list Validator) : Gwei :=
  sumZ ((fun v => if isActiveValidator v epoch then effectiveBalance v else 0) <$> vs).

(** The test of the second [if] of the loop body of [beforeProcessEpoch]. *)
Definition isEligibleAttester `{SszTypes} `{!Util} (prevEpoch : Epoch) (v : Validator) : bool :=
  isActiveValidator v prevEpoch || (slashed v && (prevEpoch + 1 <? withdrawableEpoch v)).

(** The eight flag words, and what the code relies on: they are non-zero
    and no two of them share a bit. *)
Definition flagList `{AttesterFlags} : list Z :=
  [FLAG_UNSLASHED; FLAG_ELIGIBLE_ATTESTER;
   FLAG_PREV_SOURCE_ATTESTER; FLAG_PREV_TARGET_ATTESTER; FLAG_PREV_HEAD_ATTESTER;
   FLAG_CURR_SOURCE_ATTESTER; FLAG_CURR_TARGET_ATTESTER; FLAG_CURR_HEAD_ATTESTER].

Definition flagsIndependent `{AttesterFlags} : Prop :=
  Forall (fun f => f <> 0) flagList
  /\ forall i j f g,
       flagList !! i = Some f -> flagList !! j = Some g -> i <> j -> Z.land f g = 0.

(** The sum of [w i x] over the elements [x] of a list at the positions
    [i, i + 1, ...]. *)
Fixpoint sumAt {A : Type} (w : nat -> A -> Z) (i : nat) (l : list A) : Z :=
  match l with
  | [] => 0
  | x :: rest => w i x + sumAt w (S i) rest
  end.

(** ** The JSON RPC client ([lodestar/src/eth1/provider/jsonRpcHttpClient.ts])

    The HTTP request itself ([fetch], with its timeout and abort signal) and
    the JSON codec are the environment of the client: [request] stands for
    what [fetchJsonOneUrl] does once it has checked its URL, and returns the
    parsed response or the error that was thrown. *)

(** The error classes of the module, each with what its constructor is
    given; [ErrorJsonRpcResponse] keeps the message of its [super] call. *)
Inductive RpcError :=
  | Error (message : string)
  | HttpRpcError (status : Z) (message : string)
  | ErrorParseJson (message : string)
  | ErrorJsonRpcResponse (message : string).

(** An element of [urls]: a string, or [undefined]. *)
Definition showUrl (url : option string) : string :=
  match url with
  | None => "undefined"
  | Some s => s
  end.

(** [!url] *)
Definition urlMissing (url : option string) : bool :=
  match url with
  | None => true
  | Some s => bool_decide (s = "")
  end.

Record JsonRpcHttpClient := mkClient {
  urls : list (option string);
  shouldNotFallback : option (RpcError -> bool);
}.

(** The loop of the constructor. *)
Fixpoint checkUrls (i : nat) (urls : list (option string)) : option RpcError :=
  match urls with
  | [] => None
  | url :: rest =>
      if urlMissing url
      then Some (Error ("JsonRpcHttpClient.urls[" +:+ pretty i
                        +:+ "] is empty or undefined: " +:+ showUrl url))
      else checkUrls (S i) rest
  end.

(** [new JsonRpcHttpClient(urls, opts)] *)
Definition newJsonRpcHttpClient (urls : list (option string))
    (shouldNotFallback : option (RpcError -> bool)) : RpcError + JsonRpcHttpClient :=
  if (length urls =? 0)%nat then inl (Error "No urls provided to JsonRpcHttpClient")
  else
    match checkUrls 0 urls with
    | Some e => inl e
    | None => inr (mkClient urls shouldNotFallback)
    end.

(** [parseJsonRpcErrorCode] *)
Definition parseJsonRpcErrorCode (code : Z) : string :=
  if code =? -32700 then "Parse request error"
  else if code =? -32600 then "Invalid request object"
  else if code =? -32601 then "Method not found"
  else if code =? -32602 then "Invalid params"
  else if code =? -32603 then "Internal error"
  else if (code >=? -32000) && (code <=? -32099) then "Server error"
  else "Unknown error code " +:+ pretty code.

Section JsonRpcClient.
Context {Req Resp : Type}.
Variable request : string -> Req -> RpcError + Resp.

(** [fetchJsonOneUrl], up to the request. *)
Definition fetchJsonOneUrl (url : option string) (json : Req) : RpcError + Resp :=
  match url with
  | None => inl (Error ("Empty or undefined JSON RPC HTTP client url: " +:+ showUrl url))
  | Some s =>
      if bool_decide (s = "")
      then inl (Error ("Empty or undefined JSON RPC HTTP client url: " +:+ showUrl url))
      else request s json
  end.

(** How the [for] loop of [fetchJson] is left. *)
Inductive LoopExit :=
  | Returned (res : Resp)
  | Threw (e : RpcError)
  | Finished (lastError : option RpcError).

(** The loop over [this.urls]; [tried] are the URLs that were handed to
    [fetchJsonOneUrl] so far. *)
Fixpoint fetchJsonLoop (client : JsonRpcHttpClient) (json : Req)
    (remaining : list (option string)) (lastError : option RpcError)
    (tried : list (option string)) : list (option string) * LoopExit :=
  match remaining with
  | [] => (tried, Finished lastError)
  | url :: rest =>
      match fetchJsonOneUrl url json with
      | inr res => (tried ++ [url], Returned res)
      | inl e =>
          if from_option (fun f => f e) false (shouldNotFallback client)
          then (tried ++ [url], Threw e)
          else fetchJsonLoop client json rest (Some e) (tried ++ [url])
      end
  end.

(** [fetchJson]: the URLs that were tried, and the response or the error. *)
Definition fetchJson (client : JsonRpcHttpClient) (json : Req)
  : list (option string) * (RpcError + Resp) :=
  let '(tried, exit) := fetchJsonLoop client json (urls client) None [] in
  (tried,
   match exit with
   | Returned res => inr res
   | Threw e => inl e
   | Finished (Some lastError) => inl lastError
   | Finished None =>
       if (length (urls client) =? 0)%nat then inl (Error "No url provided")
       else inl (Error "Unknown error")
   end).

End JsonRpcClient.

(** A URL whose request fails with an error that lets [fetchJson] go on to
    the next one. *)
Definition fallsBack {Req Resp : Type} (request : string -> Req -> RpcError + Resp)
    (client : JsonRpcHttpClient) (json : Req) (url : option string) : Prop :=
  exists e, fetchJsonOneUrl request url json = inl e
            /\ from_option (fun f => f e) false (shouldNotFallback client) = false.

(** ** Further scenarios *)

(** The constants of mainnet: as [scenario_params], with the slashing
    multipliers 1 (phase 0) and 2 (Altair). *)
Definition mainnet_params : Params := {|
  EFFECTIVE_BALANCE_INCREMENT := ETH;
  MAX_EFFECTIVE_BALANCE := 32 * ETH;
  EPOCHS_PER_SLASHINGS_VECTOR := 8192;
  FAR_FUTURE_EPOCH := 2 ^ 64 - 1;
  HYSTERESIS_QUOTIENT := 4;
  HYSTERESIS_DOWNWARD_MULTIPLIER := 1;
  HYSTERESIS_UPWARD_MULTIPLIER := 5;
  PROPORTIONAL_SLASHING_MULTIPLIER := 1;
  PROPORTIONAL_SLASHING_MULTIPLIER_ALTAIR := 2;
|}.

(** [slashing_summary] with another total active stake. *)
Definition slashing_summary_of (total : Gwei) : IEpochProcess :=
  mkEpochProcess 4 5 total 0 ETH ETH ETH ETH
                 [0%nat] [] [] [] [] [mkStatus 0 false] [32 * ETH] None None.

Section FurtherScenarios.
#[local] Existing Instance scenario_params.
#[local] Existing Instance scenario_flags.
#[local] Existing Instance scenario_types.

(** [mixed_state] with one participation entry more than it has
    validators. *)
Definition overflow_state : BeaconState :=
  mkState (config mixed_state) (epochCtx mixed_state) (slot mixed_state)
          (validators mixed_state) (balances mixed_state) (slashings mixed_state)
          (finalizedCheckpoint_epoch mixed_state) [] []
          (previousEpochParticipation mixed_state ++ [timely true true true])
          (currentEpochParticipation mixed_state).

End FurtherScenarios.

(** An execution node that is down, one that limits the rate of requests,
    and nodes that answer a number with its successor. *)
Definition scenario_request (url : string) (json : Z) : RpcError + Z :=
  if bool_decide (url = "http://down.example")
  then inl (HttpRpcError 503 "Service Unavailable: ")
  else if bool_decide (url = "http://limited.example")
  then inl (HttpRpcError 429 "Too Many Requests: ")
  else inr (json + 1).

Definition isRateLimit (e : RpcError) : bool :=
  match e with
  | HttpRpcError status _ => status =? 429
  | _ => false
  end.

Definition fallback_client : JsonRpcHttpClient :=
  mkClient [Some "http://down.example"; Some "http://up.example"; Some "http://spare.example"]
           None.

Definition strict_client : JsonRpcHttpClient :=
  mkClient [Some "http://down.example"; Some "http://limited.example"; Some "http://up.example"]
           (Some isRateLimit).

Definition failing_client : JsonRpcHttpClient :=
  mkClient [Some "http://down.example"; Some "http://limited.example"] None.

(** ** The epoch transition (sections 4.4 and 4.5 of the specification)

    Of the orchestrator and its twelve sub-phases only three processors are
    part of the sources: [processRegistryUpdates], [processSlashingsAllForks]
    and [processEffectiveBalanceUpdates], besides [beforeProcessEpoch].  The
    orchestrator and the other sub-phases are modelled from the
    specification; they work on the fields of the beacon state that the
    three processors do not read, which [EpochState] adds to
    [BeaconState]. *)

(** The types of the entries of those fields. *)
Class EpochTypes := {
  Root : Type;
  Eth1Data : Type;
  SyncCommittee : Type;
}.

Section EpochStateModel.
Context `{SszTypes} `{EpochTypes}.

Definition Checkpoint : Type := Epoch * Root.

Record EpochState := mkEpochState {
  beacon : BeaconState;
  justification_bits : list bool;
  previous_justified_checkpoint : Checkpoint;
  current_justified_checkpoint : Checkpoint;
  finalized_checkpoint_root : Root;
  inactivity_scores : list Z;
  eth1_data_votes : list Eth1Data;
  randao_mixes : list Root;
  historical_roots : list Root;
  current_sync_committee : SyncCommittee;
  next_sync_committee : SyncCommittee;
}.

Definition with_beacon (s : EpochState) (b : BeaconState) : EpochState :=
  mkEpochState b (justification_bits s) (previous_justified_checkpoint s)
    (current_justified_checkpoint s) (finalized_checkpoint_root s) (inactivity_scores s)
    (eth1_data_votes s) (randao_mixes s) (historical_roots s)
    (current_sync_committee s) (next_sync_committee s).

Definition with_justification (s : EpochState) (bits : list bool)
    (previous current : Checkpoint) : EpochState :=
  mkEpochState (beacon s) bits previous current (finalized_checkpoint_root s)
    (inactivity_scores s) (eth1_data_votes s) (randao_mixes s) (historical_roots s)
    (current_sync_committee s) (next_sync_committee s).

Definition with_finalized_root (s : EpochState) (root : Root) : EpochState :=
  mkEpochState (beacon s) (justification_bits s) (previous_justified_checkpoint s)
    (current_justified_checkpoint s) root (inactivity_scores s)
    (eth1_data_votes s) (randao_mixes s) (historical_roots s)
    (current_sync_committee s) (next_sync_committee s).

Definition with_inactivity_scores (s : EpochState) (scores : list Z) : EpochState :=
  mkEpochState (beacon s) (justification_bits s) (previous_justified_checkpoint s)
    (current_justified_checkpoint s) (finalized_checkpoint_root s) scores
    (eth1_data_votes s) (randao_mixes s) (historical_roots s)
    (current_sync_committee s) (next_sync_committee s).

Definition with_eth1_data_votes (s : EpochState) (votes : list Eth1Data) : EpochState :=
  mkEpochState (beacon s) (justification_bits s) (previous_justified_checkpoint s)
    (current_justified_checkpoint s) (finalized_checkpoint_root s) (inactivity_scores s)
    votes (randao_mixes s) (historical_roots s)
    (current_sync_committee s) (next_sync_committee s).

Definition with_randao_mixes (s : EpochState) (mixes : list Root) : EpochState :=
  mkEpochState (beacon s) (justification_bits s) (previous_justified_checkpoint s)
    (current_justified_checkpoint s) (finalized_checkpoint_root s) (inactivity_scores s)
    (eth1_data_votes s) mixes (historical_roots s)
    (current_sync_committee s) (next_sync_committee s).

Definition with_historical_roots (s : EpochState) (roots : list Root) : EpochState :=
  mkEpochState (beacon s) (justification_bits s) (previous_justified_checkpoint s)
    (current_justified_checkpoint s) (finalized_checkpoint_root s) (inactivity_scores s)
    (eth1_data_votes s) (randao_mixes s) roots
    (current_sync_committee s) (next_sync_committee s).

Definition with_sync_committees (s : EpochState) (current next : SyncCommittee)
  : EpochState :=
  mkEpochState (beacon s) (justification_bits s) (previous_justified_checkpoint s)
    (current_justified_checkpoint s) (finalized_checkpoint_root s) (inactivity_scores s)
    (eth1_data_votes s) (randao_mixes s) (historical_roots s) current next.

(** Assignments to the fields of [BeaconState] that the three processors
    do not write. *)
Definition set_epochCtx (s : BeaconState) (ctx : EpochContext) : BeaconState :=
  mkState (config s) ctx (slot s) (validators s) (balances s) (slashings s)
          (finalizedCheckpoint_epoch s)
          (previousEpochAttestations s) (currentEpochAttestations s)
          (previousEpochParticipation s) (currentEpochParticipation s).

Definition set_slashings (s : BeaconState) (sl : list Gwei) : BeaconState :=
  mkState (config s) (epochCtx s) (slot s) (validators s) (balances s) sl
          (finalizedCheckpoint_epoch s)
          (previousEpochAttestations s) (currentEpochAttestations s)
          (previousEpochParticipation s) (currentEpochParticipation s).

Definition set_finalizedCheckpoint_epoch (s : BeaconState) (epoch : Epoch) : BeaconState :=
  mkState (config s) (epochCtx s) (slot s) (validators s) (balances s) (slashings s)
          epoch
          (previousEpochAttestations s) (currentEpochAttestations s)
          (previousEpochParticipation s) (currentEpochParticipation s).

Definition set_attestations (s : BeaconState) (previous current : list PendingAttestation)
  : BeaconState :=
  mkState (config s) (epochCtx s) (slot s) (validators s) (balances s) (slashings s)
          (finalizedCheckpoint_epoch s) previous current
          (previousEpochParticipation s) (currentEpochParticipation s).

Definition set_participation (s : BeaconState) (previous current : list ParticipationStatus)
  : BeaconState :=
  mkState (config s) (epochCtx s) (slot s) (validators s) (balances s) (slashings s)
          (finalizedCheckpoint_epoch s)
          (previousEpochAttestations s) (currentEpochAttestations s) previous current.

End EpochStateModel.

(** The constants of the sub-phases, and what the specification names
    without defining it: the block root of an epoch, the finality rule on
    the four justification bits, the reward and penalty of every validator,
    the root of the historical batch, the next sync committee and the churn
    limit of the rotated cache. *)
Class EpochEnv `{SszTypes} `{EpochTypes} := {
  GENESIS_EPOCH : Epoch;
  SLOTS_PER_EPOCH : Z;
  SLOTS_PER_HISTORICAL_ROOT : Z;
  EPOCHS_PER_HISTORICAL_VECTOR : Z;
  EPOCHS_PER_ETH1_VOTING_PERIOD : Z;
  EPOCHS_PER_SYNC_COMMITTEE_PERIOD : Z;
  INACTIVITY_SCORE_BIAS : Z;
  INACTIVITY_SCORE_RECOVERY_RATE : Z;
  MIN_VALIDATOR_WITHDRAWABILITY_DELAY : Z;
  block_root_at : EpochState -> Epoch -> Root;
  finality_rule : list bool -> Checkpoint -> Checkpoint -> Epoch -> option Checkpoint;
  rewards_and_penalties : ForkName -> EpochState -> IEpochProcess -> list (Gwei * Gwei);
  historical_batch_root : EpochState -> Root;
  compute_sync_committee : EpochState -> SyncCommittee;
  get_churn_limit : BeaconState -> nat;
}.

Section EpochTransition.
Context `{Params} `{AttesterFlags} `{SszTypes} `{!Util} `{EpochTypes} `{!EpochEnv}.

(** Modelled from the spec: the epoch summary of section 4.5,
    [build_epoch_summary(state)].  It is the summary of
    [beforeProcessEpoch] together with the copy of the validators that
    [processRegistryUpdates] and [processEffectiveBalanceUpdates] read as
    [epochProcess.validators]. *)
Definition build_epoch_summary (state : BeaconState) : option IEpochProcess :=
  ep ← beforeProcessEpoch state;
  Some (withSnapshot ep (validators state)).

Definition next_epoch (state : EpochState) : Epoch :=
  currentShuffling_epoch (epochCtx (beacon state)) + 1.

(** [stake * 3 >= total_active_stake * 2] *)
Definition supermajority (stake total : Gwei) : bool :=
  total * 2 <=? stake * 3.

(** Modelled from the spec: sub-phase (a), justification and finalization.
    The bits are shifted by one with bit 0 for the current epoch, the
    previous justified checkpoint becomes the current one, a supermajority
    of the previous target stake sets bit 1 and one of the current target
    stake sets bit 0, each with its checkpoint, and the finality rule
    decides on the new bits.  Nothing happens up to epoch
    [GENESIS_EPOCH + 1]. *)
Definition process_justification_and_finalization (state : EpochState)
    (summary : IEpochProcess) : EpochState :=
  if currentEpoch summary <=? GENESIS_EPOCH + 1 then state
  else
    let old_previous := previous_justified_checkpoint state in
    let old_current := current_justified_checkpoint state in
    let total := totalActiveStake summary in
    let previous_target := supermajority (prevEpochUnslashedStake_targetStake summary) total in
    let current_target := supermajority (currEpochUnslashedTargetStake summary) total in
    let bits := false :: take 3 (justification_bits state) in
    let bits := if previous_target then <[1%nat := true]> bits else bits in
    let justified :=
      if previous_target
      then (prevEpoch summary, block_root_at state (prevEpoch summary))
      else old_current in
    let bits := if current_target then <[0%nat := true]> bits else bits in
    let justified :=
      if current_target
      then (currentEpoch summary, block_root_at state (currentEpoch summary))
      else justified in
    let state := with_justification state bits old_current justified in
    match finality_rule bits old_previous old_current (currentEpoch summary) with
    | Some (epoch, root) =>
        with_finalized_root
          (with_beacon state (set_finalizedCheckpoint_epoch (beacon state) epoch)) root
    | None => state
    end.

(** Modelled from the spec: the inactivity score of one validator in
    sub-phase (b). *)
Definition inactivity_score (decay : bool) (status : IAttesterStatus) (score : Z) : Z :=
  if hasMarkers (flags status) FLAG_ELIGIBLE_ATTESTER then
    let score :=
      if hasMarkers (flags status) (Z.lor FLAG_PREV_TARGET_ATTESTER FLAG_UNSLASHED)
      then score - Z.min 1 score
      else score + INACTIVITY_SCORE_BIAS in
    if decay then score - Z.min INACTIVITY_SCORE_RECOVERY_RATE score else score
  else score.

(** Modelled from the spec: sub-phase (b), inactivity updates (Altair). *)
Definition process_inactivity_updates (state : EpochState) (summary : IEpochProcess)
  : EpochState :=
  let decay :=
    negb (prevEpochUnslashedStake_targetStake summary * 3 <? totalActiveStake summary * 2) in
  with_inactivity_scores state
    (imap (fun i score =>
             match statusesFlat summary !! i with
             | Some status => inactivity_score decay status score
             | None => score
             end)
          (inactivity_scores state)).

(** Modelled from the spec: sub-phase (c), rewards and penalties.  The
    reward and the penalty of each validator are those of
    [rewards_and_penalties]; a balance that would fall below zero becomes
    zero, and the balances are written back as a whole.  Nothing happens
    at the genesis epoch. *)
Definition process_rewards_and_penalties (fork : ForkName) (state : EpochState)
    (summary : IEpochProcess) : EpochState :=
  if currentEpoch summary =? GENESIS_EPOCH then state
  else
    let deltas := rewards_and_penalties fork state summary in
    with_beacon state
      (set_balances (beacon state)
         (imap (fun i balance =>
                  match deltas !! i with
                  | Some (reward, penalty) =>
                      if balance + reward <? penalty then 0 else balance + reward - penalty
                  | None => balance
                  end)
               (balances (beacon state)))).

(** The assignment of [exitEpoch] and [withdrawableEpoch]. *)
Definition with_exit (exit withdrawable : Epoch) (v : Validator) : Validator :=
  mkValidator (effectiveBalance v) (slashed v) (activationEligibilityEpoch v)
              (activationEpoch v) exit withdrawable.

(** Modelled from the spec: [initiateValidatorExit] of [../block] is not
    part of the sources.  A validator that has an exit epoch is left
    alone.  Otherwise the exit epoch is
    [computeActivationExitEpoch(current_epoch)] advanced past the exit
    queue, that is to the latest exit epoch of the registry and one further
    when as many validators as the churn limit leave at that epoch, and the
    withdrawable epoch follows [MIN_VALIDATOR_WITHDRAWABILITY_DELAY] epochs
    later.  The churn of the exit queue is counted on the registry. *)
Definition initiate_validator_exit (state : BeaconState) (index : ValidatorIndex)
  : option BeaconState :=
  v ← validators state !! index;
  if negb (exitEpoch v =? FAR_FUTURE_EPOCH) then Some state
  else
    let exits :=
      filter (fun epoch => epoch <> FAR_FUTURE_EPOCH) (exitEpoch <$> validators state) in
    let queue_epoch :=
      foldr Z.max (computeActivationExitEpoch (currentShuffling_epoch (epochCtx state)))
            exits in
    let queue_churn := length (filter (fun epoch => epoch = queue_epoch) exits) in
    let queue_epoch :=
      if (churnLimit (epochCtx state) <=? queue_churn)%nat then queue_epoch + 1
      else queue_epoch in
    vs ← list_update (validators state) index
           (with_exit queue_epoch (queue_epoch + MIN_VALIDATOR_WITHDRAWABILITY_DELAY));
    Some (set_validators state vs).

(** The imports of the processors, with [initiateValidatorExit] as
    modelled. *)
Definition transitionUtil : Util := {|
  isActiveValidator := isActiveValidator;
  computeActivationExitEpoch := computeActivationExitEpoch;
  computeBaseRewardPerIncrement := computeBaseRewardPerIncrement;
  statusProcessEpoch := statusProcessEpoch;
  initiateValidatorExit := initiate_validator_exit;
|}.

(** Sub-phases (d), (e) and (g): the processors of the sources, on the
    beacon state. *)
Definition process_registry_updates (state : EpochState) (summary : IEpochProcess)
  : option EpochState :=
  b ← @processRegistryUpdates _ transitionUtil (beacon state) summary;
  Some (with_beacon state b).

Definition process_slashings (fork : ForkName) (state : EpochState)
    (summary : IEpochProcess) : option EpochState :=
  '(b, _) ← processSlashingsAllForks fork (beacon state) summary;
  Some (with_beacon state b).

Definition process_effective_balance_updates (state : EpochState)
    (summary : IEpochProcess) : option EpochState :=
  b ← processEffectiveBalanceUpdates (beacon state) summary;
  Some (with_beacon state b).

(** Modelled from the spec: sub-phase (f), the reset of the eth1 votes. *)
Definition process_eth1_data_reset (state : EpochState) : EpochState :=
  if next_epoch state mod EPOCHS_PER_ETH1_VOTING_PERIOD =? 0
  then with_eth1_data_votes state []
  else state.

(** Modelled from the spec: sub-phase (h), the reset of the slot of the
    next epoch in the slashings vector. *)
Definition process_slashings_reset (state : EpochState) : EpochState :=
  with_beacon state
    (set_slashings (beacon state)
       (<[Z.to_nat (next_epoch state mod EPOCHS_PER_SLASHINGS_VECTOR) := 0]>
          (slashings (beacon state)))).

(** Modelled from the spec: sub-phase (i), the randao mix of the next
    epoch. *)
Definition process_randao_mixes_reset (state : EpochState) : EpochState :=
  let current := currentShuffling_epoch (epochCtx (beacon state)) in
  match randao_mixes state !! Z.to_nat (current mod EPOCHS_PER_HISTORICAL_VECTOR) with
  | Some mix =>
      with_randao_mixes state
        (<[Z.to_nat (next_epoch state mod EPOCHS_PER_HISTORICAL_VECTOR) := mix]>
           (randao_mixes state))
  | None => state
  end.

(** Modelled from the spec: sub-phase (j), the historical roots. *)
Definition process_historical_roots_update (state : EpochState) : EpochState :=
  if next_epoch state mod (SLOTS_PER_HISTORICAL_ROOT / SLOTS_PER_EPOCH) =? 0
  then with_historical_roots state (historical_roots state ++ [historical_batch_root state])
  else state.

(** Modelled from the spec: sub-phase (k), the participation records. *)
Definition process_participation_record_updates (fork : ForkName) (state : EpochState)
  : EpochState :=
  let b := beacon state in
  with_beacon state
    match fork with
    | phase0 => set_attestations b (currentEpochAttestations b) []
    | altair =>
        set_participation b (currentEpochParticipation b)
          (replicate (length (validators b)) (mkParticipation false false false))
    end.

(** Modelled from the spec: sub-phase (l), the sync committees (Altair). *)
Definition process_sync_committee_updates (state : EpochState) : EpochState :=
  if next_epoch state mod EPOCHS_PER_SYNC_COMMITTEE_PERIOD =? 0
  then with_sync_committees state (next_sync_committee state) (compute_sync_committee state)
  else state.

(** Modelled from the spec: the rotation of the epoch cache.  The current
    shuffling becomes the previous one and the next one the current one;
    the vector of effective balances and the churn limit are derived from
    the state again. *)
Definition cache_rotate (state : EpochState) : EpochState :=
  let b := beacon state in
  with_beacon state
    (set_epochCtx b
       (mkEpochCtx (currentShuffling_epoch (epochCtx b) + 1)
                   (currentShuffling_epoch (epochCtx b))
                   (effectiveBalance <$> validators b)
                   (get_churn_limit b))).

(** Modelled from the spec: the orchestrator of section 4.5. *)
Definition process_epoch (state : EpochState) : option EpochState :=
  let fork := getForkName (config (beacon state)) (slot (beacon state)) in
  summary ← build_epoch_summary (beacon state);
  let state := process_justification_and_finalization state summary in
  let state :=
    match fork with
    | altair => process_inactivity_updates state summary
    | phase0 => state
    end in
  let state := process_rewards_and_penalties fork state summary in
  state ← process_registry_updates state summary;
  state ← process_slashings fork state summary;
  let state := process_eth1_data_reset state in
  state ← process_effective_balance_updates state summary;
  let state := process_slashings_reset state in
  let state := process_randao_mixes_reset state in
  let state := process_historical_roots_update state in
  let state := process_participation_record_updates fork state in
  let state :=
    match fork with
    | altair => process_sync_committee_updates state
    | phase0 => state
    end in
  Some (cache_rotate state).

End EpochTransition.

(** ** A scenario of the epoch transition

    Roots, eth1 votes and sync committees are numbers; the constants are
    those of mainnet but for a randao vector of eight mixes; the finality
    rule is the rule of the four bits; an attester of the previous target
    earns 10000 Gwei and every other validator loses as much. *)

Definition scenario_epoch_types : EpochTypes := {|
  Root := Z;
  Eth1Data := Z;
  SyncCommittee := Z;
|}.

Section EpochScenario.
#[local] Existing Instance scenario_params.
#[local] Existing Instance scenario_flags.
#[local] Existing Instance scenario_types.
#[local] Existing Instance scenario_util.
#[local] Existing Instance scenario_epoch_types.

Definition scenario_finality_rule (bits : list bool) (old_previous old_current : Checkpoint)
    (current : Epoch) : option Checkpoint :=
  let bit i := default false (bits !! i) in
  if bit 0%nat && bit 1%nat && (old_current.1 + 1 =? current) then Some old_current
  else if bit 0%nat && bit 1%nat && bit 2%nat && (old_current.1 + 2 =? current)
  then Some old_current
  else if bit 1%nat && bit 2%nat && (old_previous.1 + 2 =? current) then Some old_previous
  else if bit 1%nat && bit 2%nat && bit 3%nat && (old_previous.1 + 3 =? current)
  then Some old_previous
  else None.

Definition scenario_epoch_env : EpochEnv := {|
  GENESIS_EPOCH := 0;
  SLOTS_PER_EPOCH := 32;
  SLOTS_PER_HISTORICAL_ROOT := 8192;
  EPOCHS_PER_HISTORICAL_VECTOR := 8;
  EPOCHS_PER_ETH1_VOTING_PERIOD := 64;
  EPOCHS_PER_SYNC_COMMITTEE_PERIOD := 256;
  INACTIVITY_SCORE_BIAS := 4;
  INACTIVITY_SCORE_RECOVERY_RATE := 16;
  MIN_VALIDATOR_WITHDRAWABILITY_DELAY := 256;
  block_root_at _ epoch := epoch;
  finality_rule := scenario_finality_rule;
  rewards_and_penalties _ _ summary :=
    (fun status =>
       if hasMarkers (flags status) FLAG_PREV_TARGET_ATTESTER then (10000, 0) else (0, 10000))
    <$> statusesFlat summary;
  historical_batch_root state := Z.of_nat (length (historical_roots state));
  compute_sync_committee state := next_sync_committee state + 1;
  get_churn_limit _ := 4%nat;
|}.

#[local] Existing Instance scenario_epoch_env.

(** [mixed_state] at the end of epoch 5, with epoch 3 finalized and the
    epochs 3 and 4 justified. *)
Definition mixed_epoch_state : EpochState :=
  mkEpochState mixed_state [true; true; false; false] (3, 3) (4, 4) 3
               [0; 0; 0; 0; 0; 0] [7; 7] [10; 11; 12; 13; 14; 15; 16; 17] [] 1 2.

End EpochScenario.

(** * Properties *)

(** ** Arithmetic on [bigint] *)

Lemma bigint_div_Some a b q : bigint_div a b = Some q -> b <> 0 /\ q = Z.quot a b.
Proof.
  unfold bigint_div. destruct (Z.eqb_spec b 0); [discriminate|].
  intros [= <-]. done.
Qed.

Lemma bigint_div_floor a b : 0 <= a -> 0 < b -> bigint_div a b = Some (a / b).
Proof.
  intros Ha Hb. unfold bigint_div.
  destruct (Z.eqb_spec b 0); [lia|].
  by rewrite Z.quot_div_nonneg.
Qed.

Lemma bigint_mod_floor a b : 0 <= a -> 0 < b -> bigint_mod a b = Some (a mod b).
Proof.
  intros Ha Hb. unfold bigint_mod.
  destruct (Z.eqb_spec b 0); [lia|].
  by rewrite Z.rem_mod_nonneg.
Qed.

Lemma bigIntMin_min a b : bigIntMin a b = Z.min a b.
Proof. unfold bigIntMin. destruct (Z.ltb_spec a b); lia. Qed.

Lemma fold_left_add_acc (l : list Z) (a : Z) :
  fold_left Z.add l a = a + fold_left Z.add l 0.
Proof.
  revert a. induction l as [|x l IH]; intros a; simpl; [lia|].
  rewrite (IH (a + x)), (IH (0 + x)). lia.
Qed.

Lemma list_update_Some {A} (l l' : list A) i f :
  list_update l i f = Some l' ->
  exists x, l !! i = Some x /\ l' = <[i := f x]> l.
Proof.
  unfold list_update. destruct (l !! i) as [x|] eqn:E; simpl; [|discriminate].
  intros [= <-]. eauto.
Qed.

Lemma list_update_length {A} (l l' : list A) i f :
  list_update l i f = Some l' -> length l' = length l.
Proof.
  intros (x & _ & ->)%list_update_Some. apply length_insert.
Qed.

Lemma list_update_is_Some {A} (l : list A) i f :
  (i < length l)%nat -> is_Some (list_update l i f).
Proof.
  intros Hi. unfold list_update.
  destruct (lookup_lt_is_Some_2 l i Hi) as [x ->]. simpl. eauto.
Qed.

(** ** Slashings *)

Section SlashingsFacts.
Context `{Params} `{SszTypes}.

Lemma sumSlashings_spec l : sumSlashings l = spec_total_slashings l.
Proof.
  unfold sumSlashings, spec_total_slashings.
  induction l as [|x l IH]; simpl; [done|].
  rewrite fold_left_add_acc, IH. lia.
Qed.

Lemma spec_total_slashings_nonneg l :
  Forall (Z.le 0) l -> 0 <= spec_total_slashings l.
Proof.
  unfold spec_total_slashings.
  induction 1 as [|x l Hx _ IH]; simpl; lia.
Qed.

(** [decreaseBalance] writes the balances and nothing else. *)
Lemma decreaseBalance_frame state index delta state' :
  decreaseBalance state index delta = Some state' ->
  epochCtx state' = epochCtx state /\ validators state' = validators state
  /\ slashings state' = slashings state /\ config state' = config state
  /\ length (balances state') = length (balances state).
Proof.
  unfold decreaseBalance.
  destruct (list_update _ _ _) as [bs|] eqn:E; simpl; [|discriminate].
  intros [= <-]. simpl. repeat split.
  by eapply list_update_length.
Qed.

Lemma slashLoop_trace adjusted totalBalance increment indices :
  forall state trace state' trace',
    slashLoop adjusted totalBalance increment indices state trace = Some (state', trace') ->
    epochCtx state' = epochCtx state /\ validators state' = validators state /\
    exists events,
      trace' = trace ++ events /\
      Forall2 (penaltyOf adjusted totalBalance increment (effectiveBalances (epochCtx state)))
              indices events.
Proof.
  induction indices as [|index rest IH]; intros state trace state' trace' Hrun; simpl in Hrun.
  - injection Hrun as <- <-. repeat split. exists []. rewrite app_nil_r. by split.
  - destruct (slashIndex _ _ _ _ _) as [[s1 penalty]|] eqn:Hstep; simpl in Hrun; [|discriminate].
    unfold slashIndex in Hstep.
    destruct (effectiveBalances (epochCtx state) !! index) as [eb|] eqn:Heb;
      simpl in Hstep; [|discriminate].
    destruct (bigint_div eb increment) as [q|] eqn:Hq; simpl in Hstep; [|discriminate].
    destruct (bigint_div (q * adjusted) totalBalance) as [r|] eqn:Hr;
      simpl in Hstep; [|discriminate].
    destruct (decreaseBalance state index (r * increment)) as [s2|] eqn:Hdec;
      simpl in Hstep; [|discriminate].
    injection Hstep as -> <-.
    apply decreaseBalance_frame in Hdec as (Hctx & Hvs & _).
    apply IH in Hrun as (Hctx' & Hvs' & events & -> & Hall).
    rewrite Hctx in Hctx', Hall. rewrite Hvs in Hvs'.
    repeat split; [done..|].
    exists (DecreaseBalance index (r * increment) :: events).
    split; [by rewrite <- app_assoc|].
    constructor; [|done]. by exists eb, q, r.
Qed.

(** With the index lists in range and non-zero divisors the run returns. *)
Lemma decreaseBalance_returns state index delta :
  (index < length (balances state))%nat -> is_Some (decreaseBalance state index delta).
Proof.
  intros Hi. unfold decreaseBalance.
  destruct (list_update_is_Some (balances state) index
              (fun balance => if balance <? delta then 0 else balance - delta) Hi)
    as [bs ->].
  simpl. by eexists.
Qed.

Lemma slashIndex_returns adjusted totalBalance increment state index :
  increment <> 0 -> totalBalance <> 0 ->
  (index < length (effectiveBalances (epochCtx state)))%nat ->
  (index < length (balances state))%nat ->
  is_Some (slashIndex adjusted totalBalance increment state index).
Proof.
  intros Hinc Htot Heb Hbal. unfold slashIndex, bigint_div.
  destruct (lookup_lt_is_Some_2 _ _ Heb) as [eb ->].
  destruct (Z.eqb_spec increment 0); [done|].
  destruct (Z.eqb_spec totalBalance 0); [done|]. cbn.
  destruct (decreaseBalance_returns state index
              (Z.quot (Z.quot eb increment * adjusted) totalBalance * increment) Hbal)
    as [s2 ->].
  cbn. by eexists.
Qed.

Lemma slashIndex_frame adjusted totalBalance increment state index state' penalty :
  slashIndex adjusted totalBalance increment state index = Some (state', penalty) ->
  epochCtx state' = epochCtx state /\ length (balances state') = length (balances state).
Proof.
  unfold slashIndex. intros Hstep.
  destruct (effectiveBalances (epochCtx state) !! index) as [eb|]; [|discriminate].
  cbn in Hstep.
  destruct (bigint_div eb increment) as [q|]; [|discriminate]. cbn in Hstep.
  destruct (bigint_div (q * adjusted) totalBalance) as [r|]; [|discriminate]. cbn in Hstep.
  destruct (decreaseBalance state index (r * increment)) as [s2|] eqn:Hdec; [|discriminate].
  cbn in Hstep. injection Hstep as <- _.
  apply decreaseBalance_frame in Hdec. tauto.
Qed.

Lemma slashLoop_returns adjusted totalBalance increment indices :
  increment <> 0 -> totalBalance <> 0 ->
  forall state trace,
    Forall (fun i => (i < length (effectiveBalances (epochCtx state)))%nat
                     /\ (i < length (balances state))%nat) indices ->
    is_Some (slashLoop adjusted totalBalance increment indices state trace).
Proof.
  intros Hinc Htot.
  induction indices as [|index rest IH]; intros state trace Hrange; [by eexists|].
  apply Forall_cons in Hrange as [[Heb Hbal] Hrest].
  cbn [slashLoop].
  destruct (slashIndex_returns adjusted totalBalance increment state index
              Hinc Htot Heb Hbal) as [[s2 penalty] Hstep].
  rewrite Hstep. cbn.
  apply IH. apply slashIndex_frame in Hstep as [-> ->]. done.
Qed.

Lemma processSlashings_returns fork state epochProcess :
  EFFECTIVE_BALANCE_INCREMENT <> 0 -> totalActiveStake epochProcess <> 0 ->
  Forall (fun i => (i < length (effectiveBalances (epochCtx state)))%nat
                   /\ (i < length (balances state))%nat) (indicesToSlash epochProcess) ->
  is_Some (processSlashingsAllForks fork state epochProcess).
Proof.
  intros Hinc Htot Hrange. unfold processSlashingsAllForks.
  destruct (length (indicesToSlash epochProcess) =? 0)%nat; [by eexists|].
  by apply slashLoop_returns.
Qed.

(** C1 (amended).  Every index of [indicesToSlash] is penalised, in order,
    by a call of [decreaseBalance] whose amount is
    [(effective_balance / increment) * adjusted / total_active_stake *
    increment] with floor divisions taken from left to right, where
    [adjusted = min(total_slashings * multiplier, total_active_stake)].
    For the validator of scenario 5 this amount is 0 Gwei. *)
Theorem processSlashings_penalty_formula fork state epochProcess state' trace :
  0 < EFFECTIVE_BALANCE_INCREMENT ->
  0 < totalActiveStake epochProcess ->
  0 <= slashingMultiplier fork ->
  Forall (Z.le 0) (slashings state) ->
  Forall (Z.le 0) (effectiveBalances (epochCtx state)) ->
  indicesToSlash epochProcess <> [] ->
  processSlashingsAllForks fork state epochProcess = Some (state', trace) ->
  let adjusted :=
    spec_adjusted (spec_total_slashings (slashings state)) (slashingMultiplier fork)
                  (totalActiveStake epochProcess) in
  exists penalties,
    trace = ReadSlashings :: penalties /\
    Forall2 (fun index e =>
               exists eb,
                 effectiveBalances (epochCtx state) !! index = Some eb /\
                 e = DecreaseBalance index
                       (spec_penalty EFFECTIVE_BALANCE_INCREMENT adjusted
                                     (totalActiveStake epochProcess) eb))
            (indicesToSlash epochProcess) penalties.
Proof.
  intros Hinc Htot Hmult Hsl Hebs Hne Hrun adjusted.
  unfold processSlashingsAllForks in Hrun.
  destruct (indicesToSlash epochProcess) as [|i0 rest] eqn:Hidx; [done|].
  simpl length in Hrun. simpl Nat.eqb in Hrun. cbv iota in Hrun.
  apply slashLoop_trace in Hrun as (_ & _ & events & -> & Hall).
  exists events. split; [done|].
  assert (Hadj : bigIntMin (sumSlashings (slashings state) *
                   match fork with
                   | phase0 => PROPORTIONAL_SLASHING_MULTIPLIER
                   | altair => PROPORTIONAL_SLASHING_MULTIPLIER_ALTAIR
                   end) (totalActiveStake epochProcess) = adjusted).
  { rewrite bigIntMin_min, sumSlashings_spec. unfold adjusted, spec_adjusted, slashingMultiplier.
    by destruct fork. }
  rewrite Hadj in Hall.
  assert (Hadj0 : 0 <= adjusted).
  { unfold adjusted, spec_adjusted.
    pose proof (spec_total_slashings_nonneg _ Hsl). apply Z.min_glb; [nia|lia]. }
  eapply Forall2_impl; [exact Hall|].
  intros index e (eb & q & r & Heb & Hq & Hr & ->).
  exists eb. split; [done|].
  assert (0 <= eb) as Heb0.
  { rewrite Forall_forall in Hebs. apply Hebs. by eapply list_elem_of_lookup_2. }
  rewrite bigint_div_floor in Hq by lia. injection Hq as <-.
  rewrite bigint_div_floor in Hr;
    [|apply Z.mul_nonneg_nonneg; [apply Z.div_pos; lia|lia] | lia].
  injection Hr as <-. done.
Qed.

(** C9.  With an empty [indicesToSlash] the function returns at once: the
    state that comes back is the state that went in, and the run has no
    effect at all, neither a pass over [state.slashings] nor a call of
    [decreaseBalance]. *)
Theorem processSlashings_nothing_to_slash fork state epochProcess :
  indicesToSlash epochProcess = [] ->
  processSlashingsAllForks fork state epochProcess = Some (state, []).
Proof.
  intros Hempty. unfold processSlashingsAllForks. by rewrite Hempty.
Qed.

(** The penalty of one iteration never exceeds the effective balance it
    was computed from. *)
Lemma penalty_le_effective_balance x totalBalance increment eb q r :
  0 < increment -> 0 < totalBalance -> 0 <= eb ->
  bigint_div eb increment = Some q ->
  bigint_div (q * bigIntMin x totalBalance) totalBalance = Some r ->
  r * increment <= eb.
Proof.
  intros Hinc Htot Heb Hq Hr.
  rewrite bigint_div_floor in Hq by lia. injection Hq as <-.
  apply bigint_div_Some in Hr as [_ ->].
  rewrite bigIntMin_min.
  assert (0 <= eb / increment) as Hq0 by (apply Z.div_pos; lia).
  assert (Z.quot (eb / increment * Z.min x totalBalance) totalBalance <= eb / increment) as Hle.
  { rewrite <- (Z.quot_mul (eb / increment) totalBalance) at 2 by lia.
    apply Z.quot_le_mono; [lia|]. nia. }
  pose proof (Z.mul_div_le eb increment Hinc). nia.
Qed.

(** C10.  Every amount handed to [decreaseBalance] by
    [processSlashingsAllForks] is at most the effective balance of the
    validator it is taken from. *)
Theorem processSlashings_penalty_bounded fork state epochProcess state' trace index delta :
  0 < EFFECTIVE_BALANCE_INCREMENT ->
  0 < totalActiveStake epochProcess ->
  Forall (Z.le 0) (effectiveBalances (epochCtx state)) ->
  processSlashingsAllForks fork state epochProcess = Some (state', trace) ->
  DecreaseBalance index delta ∈ trace ->
  exists eb, effectiveBalances (epochCtx state) !! index = Some eb /\ delta <= eb.
Proof.
  intros Hinc Htot Hebs Hrun Hin.
  unfold processSlashingsAllForks in Hrun.
  destruct (length (indicesToSlash epochProcess) =? 0)%nat.
  { injection Hrun as _ <-. by apply not_elem_of_nil in Hin. }
  apply slashLoop_trace in Hrun as (_ & _ & events & -> & Hall).
  apply elem_of_cons in Hin as [Hin|Hin]; [discriminate|].
  apply list_elem_of_lookup in Hin as [k Hk].
  destruct (Forall2_lookup_r _ _ _ _ _ Hall Hk) as (i & _ & (eb & q & r & Heb & Hq & Hr & He)).
  injection He as -> ->.
  exists eb. split; [done|].
  assert (0 <= eb) as Heb0.
  { rewrite Forall_forall in Hebs. apply Hebs. by eapply list_elem_of_lookup_2. }
  by eapply penalty_le_effective_balance.
Qed.

End SlashingsFacts.

(** ** Index arrays filled by a loop *)

Lemma elem_of_indicesWhere {A} (P : A -> bool) (vs : list A) :
  forall i j,
    j ∈ indicesWhere P i vs <->
    exists v, (i <= j)%nat /\ vs !! (j - i)%nat = Some v /\ P v = true.
Proof.
  induction vs as [|v rest IH]; intros i j; simpl.
  - split; [intros []%not_elem_of_nil | intros (v & _ & [=] & _)].
  - rewrite elem_of_app, IH. split.
    + intros [Hhd | (w & Hle & Hlk & HP)].
      * destruct (P v) eqn:HP; [|by apply not_elem_of_nil in Hhd].
        apply list_elem_of_singleton in Hhd as ->.
        exists v. rewrite Nat.sub_diag. by repeat split.
      * exists w. repeat split; [lia| |done].
        replace (j - i)%nat with (S (j - S i)) by lia. done.
    + intros (w & Hle & Hlk & HP).
      destruct (decide (j = i)) as [->|Hne].
      * rewrite Nat.sub_diag in Hlk. injection Hlk as ->.
        left. rewrite HP. by apply list_elem_of_singleton.
      * right. exists w. repeat split; [lia| |done].
        replace (j - i)%nat with (S (j - S i)) in Hlk by lia. done.
Qed.

Lemma elem_of_indicesWhere_0 {A} (P : A -> bool) (vs : list A) j :
  j ∈ indicesWhere P 0 vs <-> exists v, vs !! j = Some v /\ P v = true.
Proof.
  rewrite elem_of_indicesWhere. rewrite Nat.sub_0_r.
  split; [intros (v & _ & ?); eauto | intros (v & ?); exists v; split; [lia|done]].
Qed.

Lemma indicesWhere_lower {A} (P : A -> bool) (vs : list A) i j :
  j ∈ indicesWhere P i vs -> (i <= j)%nat.
Proof. rewrite elem_of_indicesWhere. by intros (_ & ? & _). Qed.

Lemma NoDup_indicesWhere {A} (P : A -> bool) (vs : list A) :
  forall i, NoDup (indicesWhere P i vs).
Proof.
  induction vs as [|v rest IH]; intros i; simpl; [constructor|].
  destruct (P v); simpl; [|apply IH].
  constructor; [|apply IH].
  intros Hin%indicesWhere_lower. lia.
Qed.

(** ** The loop over the validators *)

Section SummaryFacts.
Context `{Params} `{AttesterFlags} `{SszTypes} `{!Util}.

Section Scan.
Variable cfg : Config.
Variables prevEpoch currentEpoch nextEpoch slashingsEpoch : Z.

Let step := scanStep cfg prevEpoch currentEpoch nextEpoch slashingsEpoch.
Let loop := scanLoop cfg prevEpoch currentEpoch nextEpoch slashingsEpoch.

(** The tests under which an index reaches each array. *)
Let toSlash (v : Validator) : bool :=
  slashed v && (slashingsEpoch =? withdrawableEpoch v).
Let toQueue (v : Validator) : bool := isEligibleForActivationQueue v.
Let toActivation (v : Validator) : bool :=
  negb (isEligibleForActivationQueue v) && isEligibleForActivation currentEpoch v.
Let toEject (v : Validator) : bool :=
  negb (isEligibleForActivationQueue v)
  && negb (isEligibleForActivation currentEpoch v)
  && isToEject cfg (isActiveValidator v currentEpoch) v.

Lemma scanStep_indicesToSlash acc i v :
  sc_indicesToSlash (step acc i v) =
  sc_indicesToSlash acc ++ (if toSlash v then [i] else []).
Proof.
  subst step toSlash. unfold scanStep.
  destruct (isToEject cfg (isActiveValidator v currentEpoch) v),
    (slashed v), (slashingsEpoch =? withdrawableEpoch v),
    (isActiveValidator v currentEpoch), (isEligibleForActivationQueue v),
    (isEligibleForActivation currentEpoch v);
    simpl; by rewrite ?app_nil_r.
Qed.

Lemma scanStep_buckets acc i v :
  sc_indicesEligibleForActivationQueue (step acc i v) =
    sc_indicesEligibleForActivationQueue acc ++ (if toQueue v then [i] else [])
  /\ sc_indicesEligibleForActivation (step acc i v) =
    sc_indicesEligibleForActivation acc ++ (if toActivation v then [i] else [])
  /\ sc_indicesToEject (step acc i v) =
    sc_indicesToEject acc ++ (if toEject v then [i] else []).
Proof.
  subst step toQueue toActivation toEject. unfold scanStep.
  destruct (isToEject cfg (isActiveValidator v currentEpoch) v),
    (slashed v), (slashingsEpoch =? withdrawableEpoch v),
    (isActiveValidator v currentEpoch), (isEligibleForActivationQueue v),
    (isEligibleForActivation currentEpoch v);
    simpl; by rewrite ?app_nil_r.
Qed.

Lemma scanStep_statuses acc i v :
  sc_statuses (step acc i v) = sc_statuses acc ++ sc_statuses (step emptyScan 0%nat v).
Proof.
  subst step. unfold scanStep.
  destruct (isToEject cfg (isActiveValidator v currentEpoch) v),
    (slashed v), (slashingsEpoch =? withdrawableEpoch v),
    (isActiveValidator v currentEpoch), (isEligibleForActivationQueue v),
    (isEligibleForActivation currentEpoch v);
    simpl; done.
Qed.

Lemma scanLoop_fields vs :
  forall i acc,
    sc_indicesToSlash (loop i vs acc) = sc_indicesToSlash acc ++ indicesWhere toSlash i vs
    /\ sc_indicesEligibleForActivationQueue (loop i vs acc) =
       sc_indicesEligibleForActivationQueue acc ++ indicesWhere toQueue i vs
    /\ sc_indicesEligibleForActivation (loop i vs acc) =
       sc_indicesEligibleForActivation acc ++ indicesWhere toActivation i vs
    /\ sc_indicesToEject (loop i vs acc) =
       sc_indicesToEject acc ++ indicesWhere toEject i vs
    /\ sc_statuses (loop i vs acc) =
       sc_statuses acc ++ concat (map (fun v => sc_statuses (step emptyScan 0%nat v)) vs).
Proof.
  subst loop.
  induction vs as [|v rest IH]; intros i acc; cbn [scanLoop indicesWhere map concat].
  - by rewrite !app_nil_r.
  - fold step.
    destruct (IH (S i) (step acc i v)) as (-> & -> & -> & -> & ->).
    destruct (scanStep_buckets acc i v) as (-> & -> & ->).
    rewrite scanStep_indicesToSlash, scanStep_statuses.
    by rewrite <- !app_assoc.
Qed.

End Scan.

(** *** Flag words *)

Lemma land_lor_absorb a u : Z.land (Z.lor a u) u = u.
Proof.
  apply Z.bits_inj'. intros n _.
  rewrite Z.land_spec, Z.lor_spec. by destruct (Z.testbit a n), (Z.testbit u n).
Qed.

Lemma land_lor_disjoint a e u :
  Z.land e u = 0 -> Z.land (Z.lor a e) u = Z.land a u.
Proof.
  intros He. rewrite Z.land_lor_distr_l, He. apply Z.lor_0_r.
Qed.

Lemma hasMarkers_orFlags_disjoint st mask u :
  Z.land mask u = 0 ->
  hasMarkers (flags (orFlags st mask)) u = hasMarkers (flags st) u.
Proof.
  intros Hd. unfold hasMarkers, orFlags. simpl. by rewrite land_lor_disjoint.
Qed.

(** The status that one iteration pushes carries [FLAG_UNSLASHED] exactly
    when the validator is not slashed. *)
Lemma scanStep_status_unslashed cfg prevEpoch currentEpoch nextEpoch slashingsEpoch v :
  FLAG_UNSLASHED <> 0 ->
  Z.land FLAG_ELIGIBLE_ATTESTER FLAG_UNSLASHED = 0 ->
  exists st,
    sc_statuses (scanStep cfg prevEpoch currentEpoch nextEpoch slashingsEpoch
                          emptyScan 0%nat v) = [st]
    /\ hasMarkers (flags st) FLAG_UNSLASHED = negb (slashed v).
Proof.
  intros Hu Hdisj. unfold scanStep.
  destruct (isToEject cfg (isActiveValidator v currentEpoch) v),
    (slashed v), (slashingsEpoch =? withdrawableEpoch v),
    (isActiveValidator v currentEpoch), (isActiveValidator v prevEpoch),
    (prevEpoch + 1 <? withdrawableEpoch v),
    (isEligibleForActivationQueue v), (isEligibleForActivation currentEpoch v);
    cbn [sc_statuses emptyScan app]; eexists; (split; [reflexivity|]);
    unfold hasMarkers, orFlags, createIAttesterStatus; cbn -[Z.eqb Z.land Z.lor];
    rewrite ?land_lor_disjoint by done; rewrite ?land_lor_absorb, ?Z.land_0_l;
    first [ by apply Z.eqb_refl | by apply Z.eqb_neq; congruence ].
Qed.

(** ** Sorting *)

Lemma insertBy_Permutation {A} (cmp : A -> A -> Z) x l :
  Permutation (insertBy cmp x l) (x :: l).
Proof.
  induction l as [|y l IH]; simpl; [done|].
  destruct (cmp x y <=? 0); [done|].
  rewrite IH. apply perm_swap.
Qed.

Lemma sortBy_Permutation {A} (cmp : A -> A -> Z) l :
  Permutation (sortBy cmp l) l.
Proof.
  unfold sortBy. induction l as [|x l IH]; simpl; [done|].
  by rewrite insertBy_Permutation, IH.
Qed.

Lemma insertBy_StronglySorted {A} (cmp : A -> A -> Z) (R : A -> A -> Prop) x l :
  (forall a b c, R a b -> R b c -> R a c) ->
  (forall a b, cmp a b <= 0 -> R a b) ->
  (forall a b, 0 < cmp a b -> R b a) ->
  StronglySorted R l -> StronglySorted R (insertBy cmp x l).
Proof.
  intros Htrans Hle Hgt. induction 1 as [|y l Hsorted IH Hall]; simpl.
  - repeat constructor.
  - destruct (Z.leb_spec (cmp x y) 0) as [Hxy|Hxy].
    + constructor; [by constructor|].
      constructor; [by apply Hle|].
      eapply Forall_impl; [exact Hall|]. intros z Hyz. eauto.
    + constructor; [done|].
      rewrite Forall_forall. intros z Hz.
      rewrite insertBy_Permutation in Hz.
      apply elem_of_cons in Hz as [->|Hz]; [by apply Hgt|].
      rewrite Forall_forall in Hall. by apply Hall.
Qed.

Lemma sortBy_StronglySorted {A} (cmp : A -> A -> Z) (R : A -> A -> Prop) l :
  (forall a b c, R a b -> R b c -> R a c) ->
  (forall a b, cmp a b <= 0 -> R a b) ->
  (forall a b, 0 < cmp a b -> R b a) ->
  StronglySorted R (sortBy cmp l).
Proof.
  intros Htrans Hle Hgt. unfold sortBy.
  induction l as [|x l IH]; simpl; [constructor|].
  by apply insertBy_StronglySorted.
Qed.

Lemma activationOrder_trans validators a b c :
  activationOrder validators a b -> activationOrder validators b c ->
  activationOrder validators a c.
Proof. unfold activationOrder. lia. Qed.

Lemma compareActivation_le validators a b :
  compareActivation validators a b <= 0 -> activationOrder validators a b.
Proof.
  unfold compareActivation, activationOrder.
  destruct (Z.eqb_spec (eligibilityEpochAt validators a - eligibilityEpochAt validators b) 0); lia.
Qed.

Lemma compareActivation_gt validators a b :
  0 < compareActivation validators a b -> activationOrder validators b a.
Proof.
  unfold compareActivation, activationOrder.
  destruct (Z.eqb_spec (eligibilityEpochAt validators a - eligibilityEpochAt validators b) 0); lia.
Qed.

(** ** The summary *)

(** The fields of a summary that was returned. *)
Lemma beforeProcessEpoch_fields state ep :
  beforeProcessEpoch state = Some ep ->
  let scan := scanValidators state in
  indicesToSlash ep = sc_indicesToSlash scan
  /\ indicesEligibleForActivationQueue ep = sc_indicesEligibleForActivationQueue scan
  /\ indicesEligibleForActivation ep =
     sortBy (compareActivation (validators state)) (sc_indicesEligibleForActivation scan)
  /\ indicesToEject ep = sc_indicesToEject scan
  /\ currentEpoch ep = currentShuffling_epoch (epochCtx state)
  /\ totalActiveStake ep = floorAt EFFECTIVE_BALANCE_INCREMENT (sc_totalActiveStake scan)
  /\ exists stake,
       prevEpochUnslashedStake_sourceStake ep =
         floorAt EFFECTIVE_BALANCE_INCREMENT (prevSourceUnslStake stake)
       /\ prevEpochUnslashedStake_targetStake ep =
         floorAt EFFECTIVE_BALANCE_INCREMENT (prevTargetUnslStake stake)
       /\ prevEpochUnslashedStake_headStake ep =
         floorAt EFFECTIVE_BALANCE_INCREMENT (prevHeadUnslStake stake)
       /\ currEpochUnslashedTargetStake ep =
         floorAt EFFECTIVE_BALANCE_INCREMENT (currTargetUnslStake stake)
       /\ stakeLoop (effectiveBalances (epochCtx state)) 0%nat (statusesFlat ep)
                    (mkStake 0 0 0 0) = Some stake.
Proof.
  unfold beforeProcessEpoch. intros Hrun.
  destruct (computeBaseRewardPerIncrement _) as [reward|]; [|discriminate].
  cbn [mbind option_bind] in Hrun.
  match type of Hrun with
  | context [match ?f with phase0 => ?a | altair => ?b end] =>
      destruct (match f with phase0 => a | altair => b end) as [statuses|];
        [|discriminate]
  end.
  cbn [mbind option_bind] in Hrun.
  destruct (stakeLoop _ _ statuses _) as [stake|] eqn:Hstake; [|discriminate].
  cbn [mbind option_bind] in Hrun. injection Hrun as <-.
  cbn. repeat split. by exists stake.
Qed.

Lemma floorAt_ge increment x : increment <= floorAt increment x.
Proof. unfold floorAt. destruct (Z.ltb_spec x increment); lia. Qed.

(** C6.  A summary that [beforeProcessEpoch] returns has
    [totalActiveStake] and each of the four unslashed stakes (previous
    source, previous target, previous head, current target) at least
    [EFFECTIVE_BALANCE_INCREMENT], whatever the validators are; with a
    positive increment none of them is zero. *)
Theorem beforeProcessEpoch_stake_floor state ep :
  beforeProcessEpoch state = Some ep ->
  (EFFECTIVE_BALANCE_INCREMENT <= totalActiveStake ep
   /\ EFFECTIVE_BALANCE_INCREMENT <= prevEpochUnslashedStake_sourceStake ep
   /\ EFFECTIVE_BALANCE_INCREMENT <= prevEpochUnslashedStake_targetStake ep
   /\ EFFECTIVE_BALANCE_INCREMENT <= prevEpochUnslashedStake_headStake ep
   /\ EFFECTIVE_BALANCE_INCREMENT <= currEpochUnslashedTargetStake ep)
  /\ (0 < EFFECTIVE_BALANCE_INCREMENT ->
      totalActiveStake ep <> 0
      /\ prevEpochUnslashedStake_sourceStake ep <> 0
      /\ prevEpochUnslashedStake_targetStake ep <> 0
      /\ prevEpochUnslashedStake_headStake ep <> 0
      /\ currEpochUnslashedTargetStake ep <> 0).
Proof.
  intros Hrun.
  destruct (beforeProcessEpoch_fields _ _ Hrun)
    as (_ & _ & _ & _ & _ & -> & stake & -> & -> & -> & -> & _).
  pose proof (floorAt_ge EFFECTIVE_BALANCE_INCREMENT (sc_totalActiveStake (scanValidators state))).
  pose proof (floorAt_ge EFFECTIVE_BALANCE_INCREMENT (prevSourceUnslStake stake)).
  pose proof (floorAt_ge EFFECTIVE_BALANCE_INCREMENT (prevTargetUnslStake stake)).
  pose proof (floorAt_ge EFFECTIVE_BALANCE_INCREMENT (prevHeadUnslStake stake)).
  pose proof (floorAt_ge EFFECTIVE_BALANCE_INCREMENT (currTargetUnslStake stake)).
  split; [done|]. intros Hpos. repeat split; lia.
Qed.

(** The arrays of the scan, as positions of the validators that pass the
    test of their branch. *)
Lemma scanValidators_fields state :
  let cfg := config state in
  let currentEpoch := currentShuffling_epoch (epochCtx state) in
  let slashingsEpoch := currentEpoch + intDiv EPOCHS_PER_SLASHINGS_VECTOR 2 in
  let scan := scanValidators state in
  sc_indicesToSlash scan =
    indicesWhere (fun v => slashed v && (slashingsEpoch =? withdrawableEpoch v))
                 0 (validators state)
  /\ sc_indicesEligibleForActivationQueue scan =
    indicesWhere isEligibleForActivationQueue 0 (validators state)
  /\ sc_indicesEligibleForActivation scan =
    indicesWhere (fun v => negb (isEligibleForActivationQueue v)
                           && isEligibleForActivation currentEpoch v)
                 0 (validators state)
  /\ sc_indicesToEject scan =
    indicesWhere (fun v => negb (isEligibleForActivationQueue v)
                           && negb (isEligibleForActivation currentEpoch v)
                           && isToEject cfg (isActiveValidator v currentEpoch) v)
                 0 (validators state).
Proof.
  intros cfg currentEpoch slashingsEpoch scan. subst scan. unfold scanValidators.
  fold currentEpoch slashingsEpoch cfg.
  destruct (scanLoop_fields cfg (previousShuffling_epoch (epochCtx state)) currentEpoch
              (currentEpoch + 1) slashingsEpoch (validators state) 0%nat emptyScan)
    as (-> & -> & -> & -> & _).
  done.
Qed.

(** The statuses that the scan pushes: one for every validator, with
    [FLAG_UNSLASHED] exactly for those that are not slashed. *)
Lemma scanValidators_statuses state :
  FLAG_UNSLASHED <> 0 ->
  Z.land FLAG_ELIGIBLE_ATTESTER FLAG_UNSLASHED = 0 ->
  Forall2 (fun v st => hasMarkers (flags st) FLAG_UNSLASHED = negb (slashed v))
          (validators state) (sc_statuses (scanValidators state)).
Proof.
  intros Hu Hdisj. unfold scanValidators.
  set (cur := currentShuffling_epoch (epochCtx state)).
  set (se := cur + intDiv EPOCHS_PER_SLASHINGS_VECTOR 2).
  set (prev := previousShuffling_epoch (epochCtx state)).
  destruct (scanLoop_fields (config state) prev cur (cur + 1) se (validators state)
              0%nat emptyScan) as (_ & _ & _ & _ & ->).
  cbn [sc_statuses emptyScan app].
  induction (validators state) as [|w rest IH]; [constructor|].
  destruct (scanStep_status_unslashed (config state) prev cur (cur + 1) se w Hu Hdisj)
    as (st & Hst & Hflag).
  cbn [map concat]. rewrite Hst. cbn [app]. by constructor.
Qed.

Lemma scanValidators_statuses_length state :
  length (sc_statuses (scanValidators state)) = length (validators state).
Proof.
  unfold scanValidators.
  set (cur := currentShuffling_epoch (epochCtx state)).
  set (se := cur + intDiv EPOCHS_PER_SLASHINGS_VECTOR 2).
  set (prev := previousShuffling_epoch (epochCtx state)).
  destruct (scanLoop_fields (config state) prev cur (cur + 1) se (validators state)
              0%nat emptyScan) as (_ & _ & _ & _ & ->).
  cbn [sc_statuses emptyScan app].
  induction (validators state) as [|w rest IH]; [done|].
  cbn [map concat]. rewrite length_app, IH.
  unfold scanStep.
  destruct (isToEject (config state) (isActiveValidator w cur) w),
    (slashed w), (se =? withdrawableEpoch w),
    (isActiveValidator w cur), (isEligibleForActivationQueue w),
    (isEligibleForActivation cur w); done.
Qed.

(** *** The Altair participation flags *)

Lemma participationMask_disjoint fSource fTarget fHead u status :
  Z.land fSource u = 0 -> Z.land fTarget u = 0 -> Z.land fHead u = 0 ->
  Z.land (participationMask fSource fTarget fHead status) u = 0.
Proof.
  intros Hs Ht Hh. unfold participationMask.
  rewrite !Z.land_lor_distr_l.
  destruct (timelySource status), (timelyTarget status), (timelyHead status);
    by rewrite ?Hs, ?Ht, ?Hh, ?Z.land_0_l.
Qed.

Lemma Forall2_hasMarkers_trans u (l k m : list IAttesterStatus) :
  Forall2 (fun st st' => hasMarkers (flags st') u = hasMarkers (flags st) u) l k ->
  Forall2 (fun st st' => hasMarkers (flags st') u = hasMarkers (flags st) u) k m ->
  Forall2 (fun st st' => hasMarkers (flags st') u = hasMarkers (flags st) u) l m.
Proof.
  apply Forall2_trans. intros x y z Hxy Hyz. by rewrite Hyz.
Qed.

(** [forEachStatus] keeps the length of the statuses and every flag that
    is disjoint from the three it sets. *)
Lemma forEachStatus_keeps fSource fTarget fHead u participation :
  Z.land fSource u = 0 -> Z.land fTarget u = 0 -> Z.land fHead u = 0 ->
  forall i statuses statuses',
    forEachStatus fSource fTarget fHead i participation statuses = Some statuses' ->
    Forall2 (fun st st' => hasMarkers (flags st') u = hasMarkers (flags st) u)
            statuses statuses'.
Proof.
  intros Hs Ht Hh.
  induction participation as [|status rest IH]; intros i statuses statuses' Hrun;
    cbn [forEachStatus] in Hrun.
  - injection Hrun as <-. by apply Forall_Forall2_diag, Forall_true.
  - destruct (list_update statuses i _) as [statuses1|] eqn:Hupd; [|discriminate].
    cbn [mbind option_bind] in Hrun.
    apply IH in Hrun.
    apply list_update_Some in Hupd as (st & Hst & ->).
    eapply Forall2_hasMarkers_trans; [|exact Hrun].
    rewrite <- (list_insert_id statuses i st Hst) at 1.
    apply Forall2_insert; [by apply Forall_Forall2_diag, Forall_true|].
    apply hasMarkers_orFlags_disjoint. by apply participationMask_disjoint.
Qed.

Lemma forEachStatus_returns fSource fTarget fHead participation :
  forall i statuses,
    (i + length participation <= length statuses)%nat ->
    exists statuses',
      forEachStatus fSource fTarget fHead i participation statuses = Some statuses'
      /\ length statuses' = length statuses.
Proof.
  induction participation as [|status rest IH]; intros i statuses Hlen;
    cbn [forEachStatus]; [by eexists|].
  simpl in Hlen.
  destruct (list_update_is_Some statuses i
              (fun st => orFlags st (participationMask fSource fTarget fHead status))
              ltac:(lia)) as [statuses1 Hupd].
  rewrite Hupd. cbn [mbind option_bind].
  pose proof (list_update_length _ _ _ _ Hupd) as Hl1.
  destruct (IH (S i) statuses1 ltac:(lia)) as (statuses' & -> & Hl2).
  exists statuses'. split; [done|]. lia.
Qed.

Lemma stakeLoop_returns effectiveBalances statuses :
  forall i acc,
    (i + length statuses <= length effectiveBalances)%nat ->
    is_Some (stakeLoop effectiveBalances i statuses acc).
Proof.
  induction statuses as [|status rest IH]; intros i acc Hlen;
    cbn [stakeLoop]; [by eexists|].
  simpl in Hlen.
  destruct (lookup_lt_is_Some_2 effectiveBalances i ltac:(lia)) as [eb ->].
  unfold addStake.
  repeat (match goal with
          | |- context [if hasMarkers ?a ?b then _ else _] => destruct (hasMarkers a b)
          end; cbn [mbind option_bind]).
  all: apply IH; lia.
Qed.

(** An Altair state whose participation lists and effective balance
    vector fit its validators has a summary. *)
Lemma beforeProcessEpoch_returns_altair state :
  getForkName (config state) (slot state) = altair ->
  is_Some (computeBaseRewardPerIncrement
             (floorAt EFFECTIVE_BALANCE_INCREMENT
                      (sc_totalActiveStake (scanValidators state)))) ->
  (length (previousEpochParticipation state) <= length (validators state))%nat ->
  (length (currentEpochParticipation state) <= length (validators state))%nat ->
  (length (validators state) <= length (effectiveBalances (epochCtx state)))%nat ->
  is_Some (beforeProcessEpoch state).
Proof.
  intros Hfork [reward Hreward] Hprev Hcurr Hebs.
  unfold beforeProcessEpoch. rewrite Hreward, Hfork. cbn [mbind option_bind].
  pose proof (scanValidators_statuses_length state) as Hlen.
  destruct (forEachStatus_returns FLAG_PREV_SOURCE_ATTESTER FLAG_PREV_TARGET_ATTESTER
              FLAG_PREV_HEAD_ATTESTER (previousEpochParticipation state) 0%nat
              (sc_statuses (scanValidators state)) ltac:(simpl; lia))
    as (st1 & -> & Hl1).
  cbn [mbind option_bind].
  destruct (forEachStatus_returns FLAG_CURR_SOURCE_ATTESTER FLAG_CURR_TARGET_ATTESTER
              FLAG_CURR_HEAD_ATTESTER (currentEpochParticipation state) 0%nat
              st1 ltac:(simpl; lia))
    as (st2 & -> & Hl2).
  cbn [mbind option_bind].
  destruct (stakeLoop_returns (effectiveBalances (epochCtx state)) st2 0%nat
              (mkStake 0 0 0 0) ltac:(simpl; lia)) as [stake ->].
  cbn [mbind option_bind]. by eexists.
Qed.

(** The statuses of an Altair summary are the statuses of the scan with
    participation flags added. *)
Lemma beforeProcessEpoch_statuses_altair state ep u :
  getForkName (config state) (slot state) = altair ->
  Forall (fun f => Z.land f u = 0)
         [FLAG_PREV_SOURCE_ATTESTER; FLAG_PREV_TARGET_ATTESTER; FLAG_PREV_HEAD_ATTESTER;
          FLAG_CURR_SOURCE_ATTESTER; FLAG_CURR_TARGET_ATTESTER; FLAG_CURR_HEAD_ATTESTER] ->
  beforeProcessEpoch state = Some ep ->
  Forall2 (fun st st' => hasMarkers (flags st') u = hasMarkers (flags st) u)
          (sc_statuses (scanValidators state)) (statusesFlat ep).
Proof.
  intros Hfork Hdisj Hrun. unfold beforeProcessEpoch in Hrun.
  destruct (computeBaseRewardPerIncrement _) as [reward|]; [|discriminate].
  cbn [mbind option_bind] in Hrun. rewrite Hfork in Hrun.
  destruct (forEachStatus _ _ _ _ (previousEpochParticipation state) _)
    as [st1|] eqn:Hprev; [|discriminate].
  cbn [mbind option_bind] in Hrun.
  destruct (forEachStatus _ _ _ _ (currentEpochParticipation state) _)
    as [st2|] eqn:Hcurr; [|discriminate].
  cbn [mbind option_bind] in Hrun.
  destruct (stakeLoop _ _ _ _) as [stake|]; [|discriminate].
  cbn [mbind option_bind] in Hrun. injection Hrun as <-. cbn [statusesFlat].
  apply Forall_cons in Hdisj as [Hf1 Hdisj]. apply Forall_cons in Hdisj as [Hf2 Hdisj].
  apply Forall_cons in Hdisj as [Hf3 Hdisj]. apply Forall_cons in Hdisj as [Hf4 Hdisj].
  apply Forall_cons in Hdisj as [Hf5 Hdisj]. apply Forall_cons in Hdisj as [Hf6 _].
  eapply Forall2_hasMarkers_trans;
    [eapply forEachStatus_keeps; [| | |exact Hprev]; done
    |eapply forEachStatus_keeps; [| | |exact Hcurr]; done].
Qed.

(** C2 (amended).  For the validator at index [i]: [i] is in
    [indicesToSlash] exactly when the validator is slashed and its
    withdrawable epoch is [currentEpoch + EPOCHS_PER_SLASHINGS_VECTOR / 2];
    and the status that the scan builds for it carries [FLAG_UNSLASHED]
    exactly when the validator is not slashed.  In Altair, where the
    participation flags are added by the code at hand, the same holds of
    the status in the summary that is returned. *)
Theorem beforeProcessEpoch_slashed_or_unslashed state ep i v :
  FLAG_UNSLASHED <> 0 ->
  Z.land FLAG_ELIGIBLE_ATTESTER FLAG_UNSLASHED = 0 ->
  beforeProcessEpoch state = Some ep ->
  validators state !! i = Some v ->
  (i ∈ indicesToSlash ep <->
   slashed v = true
   /\ withdrawableEpoch v =
      currentShuffling_epoch (epochCtx state) + EPOCHS_PER_SLASHINGS_VECTOR / 2)
  /\ (exists st,
        sc_statuses (scanValidators state) !! i = Some st
        /\ hasMarkers (flags st) FLAG_UNSLASHED = negb (slashed v))
  /\ (getForkName (config state) (slot state) = altair ->
      Forall (fun f => Z.land f FLAG_UNSLASHED = 0)
             [FLAG_PREV_SOURCE_ATTESTER; FLAG_PREV_TARGET_ATTESTER;
              FLAG_PREV_HEAD_ATTESTER; FLAG_CURR_SOURCE_ATTESTER;
              FLAG_CURR_TARGET_ATTESTER; FLAG_CURR_HEAD_ATTESTER] ->
      exists st,
        statusesFlat ep !! i = Some st
        /\ hasMarkers (flags st) FLAG_UNSLASHED = negb (slashed v)).
Proof.
  intros Hu Hdisj Hrun Hv.
  destruct (Forall2_lookup_l _ _ _ _ _ (scanValidators_statuses state Hu Hdisj) Hv)
    as (st & Hst & Hflag).
  split; [|split].
  - destruct (beforeProcessEpoch_fields _ _ Hrun) as (-> & _).
    destruct (scanValidators_fields state) as (-> & _).
    rewrite elem_of_indicesWhere_0. unfold intDiv. split.
    + intros (w & Hw & Htest). rewrite Hv in Hw. injection Hw as <-.
      apply andb_true_iff in Htest as [Hs Hw]. apply Z.eqb_eq in Hw. by split.
    + intros [Hs Hw]. exists v. split; [done|].
      rewrite Hs, <- Hw. simpl. apply Z.eqb_refl.
  - by exists st.
  - intros Hfork Hflags.
    pose proof (beforeProcessEpoch_statuses_altair state ep FLAG_UNSLASHED
                  Hfork Hflags Hrun) as Hkeep.
    destruct (Forall2_lookup_l _ _ _ _ _ Hkeep Hst) as (st' & Hst' & Hflag').
    exists st'. split; [done|]. by rewrite Hflag'.
Qed.

(** The activation list of a summary is in ascending
    [(activationEligibilityEpoch, index)] order. *)
Lemma beforeProcessEpoch_activation_sorted state ep :
  beforeProcessEpoch state = Some ep ->
  StronglySorted (activationOrder (validators state)) (indicesEligibleForActivation ep).
Proof.
  intros Hrun.
  destruct (beforeProcessEpoch_fields _ _ Hrun) as (_ & _ & -> & _).
  apply sortBy_StronglySorted.
  - apply activationOrder_trans.
  - apply compareActivation_le.
  - apply compareActivation_gt.
Qed.

(** C4.  The scan puts the index of a validator into at most one of
    [indicesEligibleForActivationQueue], [indicesEligibleForActivation] and
    [indicesToEject], and no index twice; the tests are taken in this
    order, each array receiving the index only if the tests before it
    failed. *)
Theorem beforeProcessEpoch_buckets_exclusive state ep i :
  beforeProcessEpoch state = Some ep ->
  let cfg := config state in
  let currentEpoch := currentShuffling_epoch (epochCtx state) in
  (i ∈ indicesEligibleForActivationQueue ep <->
   exists v, validators state !! i = Some v
             /\ isEligibleForActivationQueue v = true)
  /\ (i ∈ indicesEligibleForActivation ep <->
      exists v, validators state !! i = Some v
                /\ isEligibleForActivationQueue v = false
                /\ isEligibleForActivation currentEpoch v = true)
  /\ (i ∈ indicesToEject ep <->
      exists v, validators state !! i = Some v
                /\ isEligibleForActivationQueue v = false
                /\ isEligibleForActivation currentEpoch v = false
                /\ isToEject cfg (isActiveValidator v currentEpoch) v = true)
  /\ NoDup (indicesEligibleForActivationQueue ep
            ++ indicesEligibleForActivation ep ++ indicesToEject ep).
Proof.
  intros Hrun cfg currentEpoch.
  destruct (beforeProcessEpoch_fields _ _ Hrun) as (_ & Hq & Ha & He & _).
  destruct (scanValidators_fields state) as (_ & Hq' & Ha' & He').
  fold currentEpoch cfg in Ha', He'.
  rewrite Hq' in Hq. rewrite Ha' in Ha. rewrite He' in He.
  assert (Hqueue : forall j, j ∈ indicesEligibleForActivationQueue ep <->
            exists v, validators state !! j = Some v
                      /\ isEligibleForActivationQueue v = true).
  { intros j. rewrite Hq. apply elem_of_indicesWhere_0. }
  assert (Hact : forall j, j ∈ indicesEligibleForActivation ep <->
            exists v, validators state !! j = Some v
                      /\ isEligibleForActivationQueue v = false
                      /\ isEligibleForActivation currentEpoch v = true).
  { intros j. rewrite Ha, sortBy_Permutation, elem_of_indicesWhere_0.
    split; intros (v & Hv & Ht); exists v; (split; [done|]).
    - apply andb_true_iff in Ht as [Hn Ht]. by apply negb_true_iff in Hn.
    - destruct Ht as [-> ->]. done. }
  assert (Hej : forall j, j ∈ indicesToEject ep <->
            exists v, validators state !! j = Some v
                      /\ isEligibleForActivationQueue v = false
                      /\ isEligibleForActivation currentEpoch v = false
                      /\ isToEject cfg (isActiveValidator v currentEpoch) v = true).
  { intros j. rewrite He, elem_of_indicesWhere_0.
    split; intros (v & Hv & Ht); exists v; (split; [done|]).
    - apply andb_true_iff in Ht as [Ht He3]. apply andb_true_iff in Ht as [Hn1 Hn2].
      apply negb_true_iff in Hn1, Hn2. done.
    - destruct Ht as (-> & -> & ->). done. }
  split; [apply Hqueue|]. split; [apply Hact|]. split; [apply Hej|].
  apply NoDup_app. split; [rewrite Hq; apply NoDup_indicesWhere|].
  split.
  - intros j (v & Hv & Hqv)%Hqueue Hin. apply elem_of_app in Hin as [Hin|Hin].
    + apply Hact in Hin as (w & Hw & Hqw & _). congruence.
    + apply Hej in Hin as (w & Hw & Hqw & _). congruence.
  - apply NoDup_app. split.
    { rewrite Ha, sortBy_Permutation. apply NoDup_indicesWhere. }
    split; [|rewrite He; apply NoDup_indicesWhere].
    intros j (v & Hv & _ & Hav)%Hact (w & Hw & _ & Haw & _)%Hej. congruence.
Qed.

End SummaryFacts.

(** ** Registry updates *)

Section RegistryFacts.
Context `{Params} `{AttesterFlags} `{SszTypes} `{!Util}.

Lemma with_activationEpoch_idem e v :
  with_activationEpoch e (with_activationEpoch e v) = with_activationEpoch e v.
Proof. done. Qed.

Lemma eligibilityEpochAt_lookup snap i v :
  snap !! i = Some v -> eligibilityEpochAt snap i = activationEligibilityEpoch v.
Proof. unfold eligibilityEpochAt. by intros ->. Qed.

(** The activation loop writes a prefix of the list it is given: the
    entries before the first one whose eligibility epoch, read from the
    snapshot, is beyond the finalized epoch. *)
Lemma activationLoop_prefix snap finalityEpoch current indices :
  forall validators validators',
    activationLoop (Some snap) finalityEpoch current indices validators = Some validators' ->
    exists k,
      (k <= length indices)%nat
      /\ (forall i, i ∈ take k indices -> eligibilityEpochAt snap i <= finalityEpoch)
      /\ (forall i, indices !! k = Some i -> finalityEpoch < eligibilityEpochAt snap i)
      /\ (forall j,
            validators' !! j =
            if decide (j ∈ take k indices)
            then with_activationEpoch (computeActivationExitEpoch current) <$> validators !! j
            else validators !! j)
      /\ (forall j, j ∈ take k indices -> is_Some (validators !! j)).
Proof.
  induction indices as [|index rest IH]; intros vs vs' Hrun; cbn [activationLoop] in Hrun.
  - injection Hrun as <-. exists 0%nat. split; [done|]. split; [|split; [|split]].
    + intros i Hi. by apply not_elem_of_nil in Hi.
    + intros i [=].
    + intros j. by rewrite decide_False by apply not_elem_of_nil.
    + intros j Hj. by apply not_elem_of_nil in Hj.
  - cbn [mbind option_bind] in Hrun.
    destruct (snap !! index) as [v|] eqn:Hsnap; [|discriminate].
    cbn [mbind option_bind] in Hrun.
    destruct (Z.gtb_spec (activationEligibilityEpoch v) finalityEpoch) as [Hgt|Hle].
    + injection Hrun as <-. exists 0%nat. split; [simpl; lia|]. split; [|split; [|split]].
      * intros i Hi. by apply not_elem_of_nil in Hi.
      * intros i [= <-]. by rewrite (eligibilityEpochAt_lookup _ _ _ Hsnap).
      * intros j. by rewrite decide_False by apply not_elem_of_nil.
      * intros j Hj. by apply not_elem_of_nil in Hj.
    + destruct (list_update vs index _) as [vs1|] eqn:Hupd; [|discriminate].
      cbn [mbind option_bind] in Hrun.
      apply list_update_Some in Hupd as (x & Hx & ->).
      apply IH in Hrun as (k & Hk & Hbefore & Hstop & Hwrite & Hthere).
      exists (S k). split; [simpl; lia|]. split; [|split; [|split]].
      * intros i Hi. cbn [take] in Hi. apply elem_of_cons in Hi as [->|Hi]; [|by apply Hbefore].
        by rewrite (eligibilityEpochAt_lookup _ _ _ Hsnap).
      * intros i Hi. by apply Hstop.
      * intros j. rewrite Hwrite. cbn [take].
        destruct (decide (j = index)) as [->|Hne].
        -- rewrite (decide_True (P := index ∈ index :: take k rest))
             by (apply elem_of_cons; by left).
           rewrite list_lookup_insert_eq by by eapply lookup_lt_Some.
           rewrite Hx. by destruct (decide (index ∈ take k rest)).
        -- rewrite list_lookup_insert_ne by done.
           destruct (decide (j ∈ take k rest)) as [Hin|Hout].
           ++ by rewrite decide_True by (apply elem_of_cons; by right).
           ++ rewrite decide_False; [done|].
              intros [?|?]%elem_of_cons; done.
      * intros j Hj. cbn [take] in Hj. apply elem_of_cons in Hj as [->|Hj]; [by eexists|].
        apply Hthere in Hj. apply lookup_lt_is_Some in Hj.
        apply lookup_lt_is_Some. by rewrite length_insert in Hj.
Qed.

(** C3.  Let the summary carry the activation list that
    [beforeProcessEpoch] built from [state0] and the validators of [state0]
    as its snapshot.  The list is in ascending
    [(activationEligibilityEpoch, index)] order.  Of its first [churnLimit]
    entries, [processRegistryUpdates] activates those before the first one
    whose eligibility epoch exceeds the finalized epoch: they get
    [activationEpoch = computeActivationExitEpoch (currentEpoch)], and this
    loop writes no other validator.  If none of the first [churnLimit] entries exceeds the
    finalized epoch, all of them are activated. *)
Theorem processRegistryUpdates_activation state0 ep0 state ep state' :
  beforeProcessEpoch state0 = Some ep0 ->
  indicesEligibleForActivation ep = indicesEligibleForActivation ep0 ->
  ep_validators ep = Some (validators state0) ->
  processRegistryUpdates state ep = Some state' ->
  let queue := indicesEligibleForActivation ep in
  let order := eligibilityEpochAt (validators state0) in
  StronglySorted (activationOrder (validators state0)) queue
  /\ exists state1 validators1 k,
       ejectLoop (indicesToEject ep) state = Some state1
       /\ eligibilityLoop (currentShuffling_epoch (epochCtx state1))
            (indicesEligibleForActivationQueue ep) (validators state1) = Some validators1
       /\ let considered := take (churnLimit (epochCtx state1)) queue in
          let activated := take k considered in
          let finalityEpoch := finalizedCheckpoint_epoch state1 in
          (forall i, i ∈ activated -> order i <= finalityEpoch)
          /\ (forall i, considered !! k = Some i -> finalityEpoch < order i)
          /\ (forall j, j ∈ activated ->
                exists v,
                  validators1 !! j = Some v
                  /\ validators state' !! j =
                     Some (with_activationEpoch
                             (computeActivationExitEpoch (currentEpoch ep)) v))
          /\ (forall j, j ∉ activated -> validators state' !! j = validators1 !! j)
          /\ ((forall i, i ∈ considered -> order i <= finalityEpoch) ->
              activated = considered).
Proof.
  intros Hsummary Hlist Hsnap Hrun queue order.
  split.
  { subst queue. rewrite Hlist. by apply beforeProcessEpoch_activation_sorted. }
  unfold processRegistryUpdates in Hrun.
  destruct (ejectLoop _ state) as [state1|] eqn:Heject; [|discriminate].
  cbn [mbind option_bind] in Hrun.
  destruct (eligibilityLoop _ _ _) as [validators1|] eqn:Helig; [|discriminate].
  cbn [mbind option_bind] in Hrun.
  destruct (activationLoop _ _ _ _ _) as [validators2|] eqn:Hact; [|discriminate].
  cbn [mbind option_bind] in Hrun. injection Hrun as <-.
  rewrite Hsnap in Hact.
  apply activationLoop_prefix in Hact as (k & Hk & Hbefore & Hstop & Hwrite & Hthere).
  exists state1, validators1, k. split; [done|]. split; [done|].
  split; [done|]. split; [done|].
  split.
  { intros j Hj. destruct (Hthere j Hj) as [v Hv]. exists v. split; [done|].
    cbn [validators set_validators]. rewrite Hwrite, decide_True by done. by rewrite Hv. }
  split.
  { intros j Hj. cbn [validators set_validators]. by rewrite Hwrite, decide_False. }
  intros Hall.
  destruct (decide (k < length (take (churnLimit (epochCtx state1)) queue))%nat) as [Hlt|Hge].
  - destruct (lookup_lt_is_Some_2 _ _ Hlt) as [i Hi].
    pose proof (Hstop i Hi) as Hbeyond.
    pose proof (Hall i (list_elem_of_lookup_2 _ _ _ Hi)) as Hwithin.
    subst order. cbv beta in Hwithin. lia.
  - apply take_ge. lia.
Qed.

(** The writes of [processRegistryUpdates] that are in the sources leave
    every effective balance as it was. *)
Lemma eligibilityLoop_effectiveBalance epoch indices :
  forall vs vs',
    eligibilityLoop epoch indices vs = Some vs' ->
    effectiveBalance <$> vs' = effectiveBalance <$> vs.
Proof.
  induction indices as [|index rest IH]; intros vs vs' Hrun; cbn [eligibilityLoop] in Hrun.
  - by injection Hrun as <-.
  - destruct (list_update vs index _) as [vs1|] eqn:Hupd; [|discriminate].
    cbn [mbind option_bind] in Hrun. apply IH in Hrun as ->.
    apply list_update_Some in Hupd as (x & Hx & ->).
    rewrite list_fmap_insert. cbn [with_activationEligibilityEpoch effectiveBalance].
    apply list_insert_id. by rewrite list_lookup_fmap, Hx.
Qed.

Lemma activationLoop_effectiveBalance snapshot finalityEpoch current indices :
  forall vs vs',
    activationLoop snapshot finalityEpoch current indices vs = Some vs' ->
    effectiveBalance <$> vs' = effectiveBalance <$> vs.
Proof.
  induction indices as [|index rest IH]; intros vs vs' Hrun; cbn [activationLoop] in Hrun.
  - by injection Hrun as <-.
  - destruct snapshot as [snap|]; [|discriminate]. cbn [mbind option_bind] in Hrun.
    destruct (snap !! index) as [v|]; [|discriminate]. cbn [mbind option_bind] in Hrun.
    destruct (activationEligibilityEpoch v >? finalityEpoch); [by injection Hrun as <-|].
    destruct (list_update vs index _) as [vs1|] eqn:Hupd; [|discriminate].
    cbn [mbind option_bind] in Hrun. apply IH in Hrun as ->.
    apply list_update_Some in Hupd as (x & Hx & ->).
    rewrite list_fmap_insert. cbn [with_activationEpoch effectiveBalance].
    apply list_insert_id. by rewrite list_lookup_fmap, Hx.
Qed.

(** With every index in range the two loops return. *)
Lemma eligibilityLoop_returns epoch indices :
  forall vs,
    Forall (fun i => (i < length vs)%nat) indices ->
    is_Some (eligibilityLoop epoch indices vs).
Proof.
  induction indices as [|index rest IH]; intros vs Hrange; cbn [eligibilityLoop];
    [by eexists|].
  apply Forall_cons in Hrange as [Hi Hrest].
  destruct (list_update_is_Some vs index (with_activationEligibilityEpoch (epoch + 1)) Hi)
    as [vs1 Hupd].
  rewrite Hupd. cbn [mbind option_bind].
  apply IH. by rewrite (list_update_length _ _ _ _ Hupd).
Qed.

Lemma activationLoop_returns snap finalityEpoch current indices :
  forall vs,
    Forall (fun i => (i < length snap)%nat /\ (i < length vs)%nat) indices ->
    is_Some (activationLoop (Some snap) finalityEpoch current indices vs).
Proof.
  induction indices as [|index rest IH]; intros vs Hrange; cbn [activationLoop];
    [by eexists|].
  apply Forall_cons in Hrange as [[Hs Hv] Hrest].
  cbn [mbind option_bind].
  destruct (lookup_lt_is_Some_2 snap index Hs) as [v ->]. cbn [mbind option_bind].
  destruct (activationEligibilityEpoch v >? finalityEpoch); [by eexists|].
  destruct (list_update_is_Some vs index
              (with_activationEpoch (computeActivationExitEpoch current)) Hv)
    as [vs1 Hupd].
  rewrite Hupd. cbn [mbind option_bind].
  apply IH. by rewrite (list_update_length _ _ _ _ Hupd).
Qed.

End RegistryFacts.

(** ** Effective balance updates *)

Section EffectiveBalanceFacts.
Context `{Params} `{SszTypes}.

(** What the callback does to the validator at the position of [balance]. *)
Lemma effectiveBalanceLoop_lookup D U snapshot balances :
  forall i0 vs vs',
    effectiveBalanceLoop D U snapshot i0 balances vs = Some vs' ->
    (forall j, (j < i0)%nat \/ (i0 + length balances <= j)%nat -> vs' !! j = vs !! j)
    /\ (forall j balance,
          (i0 <= j)%nat -> balances !! (j - i0)%nat = Some balance ->
          exists snap sv,
            snapshot = Some snap /\ snap !! j = Some sv /\
            vs' !! j =
            (if needsUpdate D U (effectiveBalance sv) balance
             then with_effectiveBalance
                    (bigIntMin (balance - Z.rem balance EFFECTIVE_BALANCE_INCREMENT)
                               MAX_EFFECTIVE_BALANCE)
             else id) <$> vs !! j).
Proof.
  induction balances as [|b rest IH]; intros i0 vs vs' Hrun;
    cbn [effectiveBalanceLoop] in Hrun.
  - injection Hrun as <-. split; [done|]. intros j balance _ Hb. done.
  - destruct snapshot as [snap|]; [|discriminate]. cbn [mbind option_bind] in Hrun.
    destruct (snap !! i0) as [sv|] eqn:Hsv; [|discriminate].
    cbn [mbind option_bind] in Hrun.
    match type of Hrun with
    | context [if ?c then ?a else ?b] =>
        destruct (if c then a else b) as [vs1|] eqn:Hstep; [|discriminate]
    end.
    cbn [mbind option_bind] in Hrun.
    apply IH in Hrun as [Hout Hin].
    assert (Hvs1 : forall j,
              vs1 !! j =
              if decide (j = i0)
              then (if needsUpdate D U (effectiveBalance sv) b
                    then with_effectiveBalance
                           (bigIntMin (b - Z.rem b EFFECTIVE_BALANCE_INCREMENT)
                                      MAX_EFFECTIVE_BALANCE)
                    else id) <$> vs !! j
              else vs !! j).
    { intros j.
      destruct (needsUpdate D U (effectiveBalance sv) b).
      - unfold bigint_mod in Hstep.
        destruct (EFFECTIVE_BALANCE_INCREMENT =? 0); [discriminate|].
        cbn [mbind option_bind] in Hstep.
        apply list_update_Some in Hstep as (x & Hx & ->).
        destruct (decide (j = i0)) as [->|Hne].
        + rewrite list_lookup_insert_eq by by eapply lookup_lt_Some. by rewrite Hx.
        + by rewrite list_lookup_insert_ne.
      - injection Hstep as <-.
        destruct (decide (j = i0)); [|done]. by destruct (vs !! j). }
    split.
    + intros j Hj. rewrite Hout by (simpl in Hj; lia).
      rewrite Hvs1. rewrite decide_False; [done|]. simpl in Hj. lia.
    + intros j balance Hle Hb.
      destruct (decide (j = i0)) as [->|Hne].
      * rewrite Nat.sub_diag in Hb. injection Hb as <-.
        exists snap, sv. split; [done|]. split; [done|].
        rewrite Hout by lia. rewrite Hvs1. by rewrite decide_True.
      * replace (j - i0)%nat with (S (j - S i0)) in Hb by lia.
        destruct (Hin j balance ltac:(lia) Hb) as (snap' & sv' & [= <-] & Hsv' & ->).
        exists snap, sv'. split; [done|]. split; [done|].
        rewrite Hvs1. by rewrite decide_False.
Qed.

Lemma effectiveBalanceLoop_length D U snapshot balances :
  forall i0 vs vs',
    effectiveBalanceLoop D U snapshot i0 balances vs = Some vs' ->
    length vs' = length vs.
Proof.
  induction balances as [|b rest IH]; intros i0 vs vs' Hrun;
    cbn [effectiveBalanceLoop] in Hrun.
  - by injection Hrun as <-.
  - destruct snapshot as [snap|]; [|discriminate]. cbn [mbind option_bind] in Hrun.
    destruct (snap !! i0) as [sv|]; [|discriminate]. cbn [mbind option_bind] in Hrun.
    match type of Hrun with
    | context [if ?c then ?a else ?b] =>
        destruct (if c then a else b) as [vs1|] eqn:Hstep; [|discriminate]
    end.
    cbn [mbind option_bind] in Hrun. apply IH in Hrun as ->.
    destruct (needsUpdate _ _ _ _); [|by injection Hstep as <-].
    destruct (bigint_mod _ _); [|discriminate]. cbn [mbind option_bind] in Hstep.
    by eapply list_update_length.
Qed.

(** With a snapshot and validators for every balance and non-zero divisors
    the function returns. *)
Lemma effectiveBalanceLoop_returns D U snap balances :
  EFFECTIVE_BALANCE_INCREMENT <> 0 ->
  forall i0 vs,
    (i0 + length balances <= length snap)%nat ->
    (i0 + length balances <= length vs)%nat ->
    is_Some (effectiveBalanceLoop D U (Some snap) i0 balances vs).
Proof.
  intros Hinc.
  induction balances as [|b rest IH]; intros i0 vs Hsnap Hvs;
    cbn [effectiveBalanceLoop]; [by eexists|].
  cbn [mbind option_bind]. simpl in Hsnap, Hvs.
  destruct (lookup_lt_is_Some_2 snap i0 ltac:(lia)) as [sv ->].
  cbn [mbind option_bind].
  destruct (needsUpdate D U (effectiveBalance sv) b).
  - unfold bigint_mod. destruct (Z.eqb_spec EFFECTIVE_BALANCE_INCREMENT 0); [done|].
    cbn [mbind option_bind].
    destruct (list_update_is_Some vs i0
                (with_effectiveBalance
                   (bigIntMin (b - Z.rem b EFFECTIVE_BALANCE_INCREMENT) MAX_EFFECTIVE_BALANCE))
                ltac:(lia)) as [vs1 Hvs1].
    rewrite Hvs1. cbn [mbind option_bind].
    apply IH; [lia|]. apply list_update_length in Hvs1. lia.
  - cbn [mbind option_bind]. apply IH; lia.
Qed.

Lemma processEffectiveBalanceUpdates_returns state ep snap :
  EFFECTIVE_BALANCE_INCREMENT <> 0 -> HYSTERESIS_QUOTIENT <> 0 ->
  ep_validators ep = Some snap ->
  (length (default (balances state) (ep_balances ep)) <= length snap)%nat ->
  (length (default (balances state) (ep_balances ep)) <= length (validators state))%nat ->
  is_Some (processEffectiveBalanceUpdates state ep).
Proof.
  intros Hinc Hq Hsnap Hl1 Hl2. unfold processEffectiveBalanceUpdates, bigint_div.
  destruct (Z.eqb_spec HYSTERESIS_QUOTIENT 0); [done|]. cbn [mbind option_bind].
  rewrite Hsnap.
  match goal with
  | |- context [effectiveBalanceLoop ?D ?U (Some snap) 0%nat ?bs ?vs] =>
      destruct (effectiveBalanceLoop_returns D U snap bs Hinc 0%nat vs
                  ltac:(simpl; lia) ltac:(simpl; lia)) as [vs' ->]
  end.
  cbn [mbind option_bind]. by eexists.
Qed.

Lemma needsUpdate_spec D U e b :
  needsUpdate D U e b = true <->
  e > b + D \/ (e < MAX_EFFECTIVE_BALANCE /\ e < b - U).
Proof.
  unfold needsUpdate.
  rewrite orb_true_iff, andb_true_iff, Z.gtb_gt, !Z.ltb_lt. lia.
Qed.

(** C5.  Let [H = increment / HYSTERESIS_QUOTIENT],
    [D = H * HYSTERESIS_DOWNWARD_MULTIPLIER] and
    [U = H * HYSTERESIS_UPWARD_MULTIPLIER].  For the validator at index [i]
    with raw balance [b] and effective balance [e] (as the summary holds
    it): if [e > b + D] or ([e < MAX_EFFECTIVE_BALANCE] and [e < b - U])
    its effective balance becomes [min(b - (b mod increment),
    MAX_EFFECTIVE_BALANCE)] and nothing else of it changes; otherwise the
    validator is left as it is.  When [D >= 0] and [U >= increment] the
    written value always differs from [e], so the effective balance
    changes if and only if the condition holds. *)
Theorem processEffectiveBalanceUpdates_hysteresis state ep snap state' i b v :
  0 < EFFECTIVE_BALANCE_INCREMENT ->
  0 < HYSTERESIS_QUOTIENT ->
  ep_validators ep = Some snap ->
  processEffectiveBalanceUpdates state ep = Some state' ->
  default (balances state) (ep_balances ep) !! i = Some b ->
  0 <= b ->
  validators state !! i = Some v ->
  let D := EFFECTIVE_BALANCE_INCREMENT / HYSTERESIS_QUOTIENT * HYSTERESIS_DOWNWARD_MULTIPLIER in
  let U := EFFECTIVE_BALANCE_INCREMENT / HYSTERESIS_QUOTIENT * HYSTERESIS_UPWARD_MULTIPLIER in
  exists sv v',
    snap !! i = Some sv /\ validators state' !! i = Some v' /\
    let e := effectiveBalance sv in
    let update := e > b + D \/ (e < MAX_EFFECTIVE_BALANCE /\ e < b - U) in
    (update ->
     v' = with_effectiveBalance
            (Z.min (b - b mod EFFECTIVE_BALANCE_INCREMENT) MAX_EFFECTIVE_BALANCE) v)
    /\ (~ update -> v' = v)
    /\ (0 <= D -> EFFECTIVE_BALANCE_INCREMENT <= U -> effectiveBalance v = e ->
        (effectiveBalance v' <> e <-> update)).
Proof.
  intros Hinc Hq Hsnap Hrun Hb Hb0 Hv D U.
  unfold processEffectiveBalanceUpdates in Hrun.
  rewrite bigint_div_floor in Hrun by lia. cbn [mbind option_bind] in Hrun.
  fold D U in Hrun.
  destruct (effectiveBalanceLoop D U _ _ _ _) as [vs'|] eqn:Hloop; [|discriminate].
  cbn [mbind option_bind] in Hrun. injection Hrun as <-. cbn [validators set_validators].
  apply effectiveBalanceLoop_lookup in Hloop as [_ Hin].
  rewrite <- (Nat.sub_0_r i) in Hb.
  destruct (Hin i b ltac:(lia) Hb) as (snap' & sv & Hsnap' & Hsv & Hres).
  rewrite Hsnap in Hsnap'. injection Hsnap' as <-.
  rewrite Hv in Hres. cbn [fmap option_fmap option_map] in Hres.
  rewrite Z.rem_mod_nonneg, bigIntMin_min in Hres by lia.
  eexists sv, _. split; [done|]. split; [exact Hres|].
  cbv zeta.
  pose proof (needsUpdate_spec D U (effectiveBalance sv) b) as Hspec.
  destruct (needsUpdate D U (effectiveBalance sv) b).
  - assert (Hupd : effectiveBalance sv > b + D
                   \/ (effectiveBalance sv < MAX_EFFECTIVE_BALANCE
                       /\ effectiveBalance sv < b - U)) by by apply Hspec.
    split; [done|]. split; [tauto|].
    intros HD HU He. split; [done|]. intros _.
    cbn [with_effectiveBalance effectiveBalance].
    pose proof (Z.mod_pos_bound b EFFECTIVE_BALANCE_INCREMENT Hinc). lia.
  - assert (Hno : ~ (effectiveBalance sv > b + D
                     \/ (effectiveBalance sv < MAX_EFFECTIVE_BALANCE
                         /\ effectiveBalance sv < b - U))).
    { intros Hc. apply Hspec in Hc. discriminate. }
    split; [tauto|]. split; [done|].
    intros _ _ He. cbn [id]. split; [intros Hne; by rewrite He in Hne | tauto].
Qed.

(** The loop keeps the invariant of the effective balances. *)
Lemma processEffectiveBalanceUpdates_invariant state ep state' :
  0 < EFFECTIVE_BALANCE_INCREMENT ->
  0 <= MAX_EFFECTIVE_BALANCE ->
  MAX_EFFECTIVE_BALANCE mod EFFECTIVE_BALANCE_INCREMENT = 0 ->
  Forall (Z.le 0) (default (balances state) (ep_balances ep)) ->
  processEffectiveBalanceUpdates state ep = Some state' ->
  Forall effectiveBalanceOk (validators state) ->
  Forall effectiveBalanceOk (validators state').
Proof.
  intros Hinc Hmax Hmult Hbs Hrun Hok.
  unfold processEffectiveBalanceUpdates in Hrun.
  destruct (bigint_div _ _) as [h|]; [|discriminate]. cbn [mbind option_bind] in Hrun.
  destruct (effectiveBalanceLoop _ _ _ _ _ _) as [vs'|] eqn:Hloop; [|discriminate].
  cbn [mbind option_bind] in Hrun. injection Hrun as <-. cbn [validators set_validators].
  pose proof (effectiveBalanceLoop_lookup _ _ _ _ _ _ _ Hloop) as [Hout Hin].
  apply Forall_lookup. intros j v' Hv'.
  set (bs := default (balances state) (ep_balances ep)) in *.
  destruct (decide (j < length bs)%nat) as [Hlt|Hge].
  - destruct (lookup_lt_is_Some_2 bs j Hlt) as [b Hb].
    assert (0 <= b) as Hb0 by (eapply (Forall_lookup_1 (Z.le 0)); eauto).
    rewrite <- (Nat.sub_0_r j) in Hb.
    destruct (Hin j b ltac:(lia) Hb) as (snap & sv & _ & _ & Hres).
    rewrite Hv' in Hres.
    destruct (validators state !! j) as [v|] eqn:Hv; [|discriminate].
    pose proof (Forall_lookup_1 _ _ _ _ Hok Hv) as Hvok.
    cbn [fmap option_fmap option_map] in Hres. injection Hres as ->.
    destruct (needsUpdate _ _ _ _); [|done].
    unfold effectiveBalanceOk. cbn [with_effectiveBalance effectiveBalance].
    rewrite bigIntMin_min, Z.rem_mod_nonneg by lia.
    pose proof (Z.mod_pos_bound b EFFECTIVE_BALANCE_INCREMENT Hinc).
    pose proof (Z.mod_le b EFFECTIVE_BALANCE_INCREMENT Hb0 Hinc).
    split; [lia|].
    destruct (Z.min_spec (b - b mod EFFECTIVE_BALANCE_INCREMENT) MAX_EFFECTIVE_BALANCE)
      as [[_ ->]|[_ ->]]; [|done].
    rewrite Zminus_mod_idemp_r, Z.sub_diag. apply Z.mod_0_l. lia.
  - rewrite Hout in Hv' by (right; simpl; lia).
    by eapply (Forall_lookup_1 effectiveBalanceOk).
Qed.

End EffectiveBalanceFacts.

(** ** The invariant of the effective balance across the processors *)

Section InvariantFacts.
Context `{Params} `{SszTypes} `{!Util}.

Lemma effectiveBalanceOk_fmap vs vs' :
  effectiveBalance <$> vs' = effectiveBalance <$> vs ->
  Forall effectiveBalanceOk vs -> Forall effectiveBalanceOk vs'.
Proof.
  intros Heq Hok. apply Forall_lookup. intros j v' Hv'.
  assert ((effectiveBalance <$> vs) !! j = Some (effectiveBalance v')) as Hj.
  { rewrite <- Heq, list_lookup_fmap, Hv'. done. }
  rewrite list_lookup_fmap in Hj.
  destruct (vs !! j) as [v|] eqn:Hv; [|discriminate]. injection Hj as Hj.
  pose proof (Forall_lookup_1 _ _ _ _ Hok Hv) as Hvok.
  unfold effectiveBalanceOk in *. by rewrite <- Hj.
Qed.

Lemma ejectLoop_effectiveBalance indices :
  (forall s index s',
     initiateValidatorExit s index = Some s' ->
     effectiveBalance <$> validators s' = effectiveBalance <$> validators s) ->
  forall state state',
    ejectLoop indices state = Some state' ->
    effectiveBalance <$> validators state' = effectiveBalance <$> validators state.
Proof.
  intros Hexit.
  induction indices as [|index rest IH]; intros state state' Hrun; cbn [ejectLoop] in Hrun.
  - by injection Hrun as <-.
  - destruct (initiateValidatorExit state index) as [s1|] eqn:Hs1; [|discriminate].
    cbn [mbind option_bind] in Hrun.
    apply IH in Hrun as ->. by eapply Hexit.
Qed.

Lemma processRegistryUpdates_effectiveBalance state ep state' :
  (forall s index s',
     initiateValidatorExit s index = Some s' ->
     effectiveBalance <$> validators s' = effectiveBalance <$> validators s) ->
  processRegistryUpdates state ep = Some state' ->
  effectiveBalance <$> validators state' = effectiveBalance <$> validators state.
Proof.
  intros Hexit Hrun. unfold processRegistryUpdates in Hrun.
  destruct (ejectLoop _ state) as [state1|] eqn:Heject; [|discriminate].
  cbn [mbind option_bind] in Hrun.
  destruct (eligibilityLoop _ _ _) as [validators1|] eqn:Helig; [|discriminate].
  cbn [mbind option_bind] in Hrun.
  destruct (activationLoop _ _ _ _ _) as [validators2|] eqn:Hact; [|discriminate].
  cbn [mbind option_bind] in Hrun. injection Hrun as <-.
  cbn [validators set_validators].
  apply activationLoop_effectiveBalance in Hact as ->.
  apply eligibilityLoop_effectiveBalance in Helig as ->.
  by eapply ejectLoop_effectiveBalance.
Qed.

Lemma processSlashings_validators fork state ep state' trace :
  processSlashingsAllForks fork state ep = Some (state', trace) ->
  validators state' = validators state.
Proof.
  unfold processSlashingsAllForks.
  destruct (length (indicesToSlash ep) =? 0)%nat; [by intros [= <- _]|].
  intros Hrun. by apply slashLoop_trace in Hrun as (_ & -> & _).
Qed.

End InvariantFacts.

(** ** The facade *)

Section FacadeFacts.
Variable Body : Type.
Variable SLOTS_PER_EPOCH : Z.
Variable process_epoch : Z -> Body -> TransitionError + Body.
Variable cache_state_root : Z -> Body -> Body.
Variable cache_randao_mix : Z -> Body -> Body.

Let round := process_slot SLOTS_PER_EPOCH process_epoch cache_state_root cache_randao_mix.
Let run := advance SLOTS_PER_EPOCH process_epoch cache_state_root cache_randao_mix.

Lemma process_slot_error s s' e :
  round s = (s', Some e) -> exists slot body, process_epoch slot body = inl e.
Proof.
  subst round. unfold process_slot.
  destruct ((ss_slot s + 1) mod SLOTS_PER_EPOCH =? 0).
  - destruct (process_epoch (ss_slot s) (ss_body s)) eqn:He; [|discriminate].
    intros [= _ <-]. eauto.
  - discriminate.
Qed.

Lemma process_slot_advances s s' :
  round s = (s', None) -> ss_slot s' = ss_slot s + 1.
Proof.
  subst round. unfold process_slot.
  destruct (if (ss_slot s + 1) mod SLOTS_PER_EPOCH =? 0
            then process_epoch (ss_slot s) (ss_body s) else inr (ss_body s));
    [discriminate|].
  by intros [= <-].
Qed.

Lemma advance_error rounds :
  forall s s' e,
    run rounds s = (s', Some e) -> exists slot body, process_epoch slot body = inl e.
Proof.
  subst run.
  induction rounds as [|n IH]; intros s s' e Hrun; cbn [advance] in Hrun; [discriminate|].
  fold round in Hrun.
  destruct (round s) as [s1 [e1|]] eqn:Hround.
  - injection Hrun as _ ->. by eapply process_slot_error.
  - by eapply IH.
Qed.

(** Without an error the loop ends at the target slot. *)
Lemma advance_reaches rounds :
  forall s s', run rounds s = (s', None) -> ss_slot s' = ss_slot s + Z.of_nat rounds.
Proof.
  subst run.
  induction rounds as [|n IH]; intros s s' Hrun; cbn [advance] in Hrun.
  - injection Hrun as <-. lia.
  - fold round in Hrun.
    destruct (round s) as [s1 [e1|]] eqn:Hround; [discriminate|].
    apply IH in Hrun. apply process_slot_advances in Hround. lia.
Qed.

Lemma process_slots_reaches s target_slot s' :
  process_slots SLOTS_PER_EPOCH process_epoch cache_state_root cache_randao_mix
                s target_slot = (s', None) ->
  ss_slot s' = target_slot.
Proof.
  unfold process_slots. destruct (Z.leb_spec target_slot (ss_slot s)); [discriminate|].
  intros Hrun. apply advance_reaches in Hrun. lia.
Qed.

(** C8.  [process_slots] fails with [SlotBehind] exactly when
    [target_slot <= state.slot] (the epoch orchestrator has no such error
    of its own), and in that case the state is the one it was given: no
    round of the loop has run. *)
Theorem process_slots_slot_behind s target_slot :
  (forall slot body, process_epoch slot body <> inl SlotBehind) ->
  let outcome :=
    process_slots SLOTS_PER_EPOCH process_epoch cache_state_root cache_randao_mix
                  s target_slot in
  (snd outcome = Some SlotBehind <-> target_slot <= ss_slot s)
  /\ (target_slot <= ss_slot s -> fst outcome = s).
Proof.
  intros Hepoch outcome. subst outcome. unfold process_slots.
  destruct (Z.leb_spec target_slot (ss_slot s)) as [Hle|Hgt]; cbn [fst snd].
  - split; [done|]. done.
  - split; [|lia]. split; [|lia].
    intros Hfail. exfalso.
    destruct (advance _ _ _ _ _ s) as [s' [e|]] eqn:Hrun; [|discriminate].
    cbn [snd] in Hfail. injection Hfail as ->.
    apply advance_error in Hrun as (slot & body & Hbad). by eapply Hepoch.
Qed.

End FacadeFacts.


(** * The scenarios of the specification *)

Section ScenarioFacts.
#[local] Existing Instance scenario_params.
#[local] Existing Instance scenario_flags.
#[local] Existing Instance scenario_types.
#[local] Existing Instance scenario_util.

(** Scenario 5, as the code runs it: the penalty is 0 Gwei. *)
Lemma processSlashings_penalty_formula_witness :
  0 < EFFECTIVE_BALANCE_INCREMENT
  /\ 0 < totalActiveStake slashing_summary
  /\ 0 <= slashingMultiplier phase0
  /\ Forall (Z.le 0) (slashings slashing_state)
  /\ Forall (Z.le 0) (effectiveBalances (epochCtx slashing_state))
  /\ indicesToSlash slashing_summary <> []
  /\ processSlashingsAllForks phase0 slashing_state slashing_summary
     = Some (slashing_state, [ReadSlashings; DecreaseBalance 0 0])
  /\ exists penalties,
       [ReadSlashings; DecreaseBalance 0 0] = ReadSlashings :: penalties
       /\ Forall2 (fun index e =>
                     exists eb,
                       effectiveBalances (epochCtx slashing_state) !! index = Some eb
                       /\ e = DecreaseBalance index
                                (spec_penalty ETH
                                   (spec_adjusted (32 * ETH) 3 (3200 * ETH))
                                   (3200 * ETH) eb))
                  [0%nat] penalties.
Proof.
  assert (H1 : 0 < EFFECTIVE_BALANCE_INCREMENT) by reflexivity.
  assert (H2 : 0 < totalActiveStake slashing_summary) by reflexivity.
  assert (H3 : 0 <= slashingMultiplier phase0) by discriminate.
  assert (H4 : Forall (Z.le 0) (slashings slashing_state))
    by (repeat constructor; discriminate).
  assert (H5 : Forall (Z.le 0) (effectiveBalances (epochCtx slashing_state)))
    by (repeat constructor; discriminate).
  assert (H6 : indicesToSlash slashing_summary <> []) by discriminate.
  assert (H7 : processSlashingsAllForks phase0 slashing_state slashing_summary
               = Some (slashing_state, [ReadSlashings; DecreaseBalance 0 0]))
    by reflexivity.
  repeat (split; [assumption|]).
  exact (processSlashings_penalty_formula phase0 slashing_state slashing_summary
           slashing_state [ReadSlashings; DecreaseBalance 0 0] H1 H2 H3 H4 H5 H6 H7).
Defined.

(** C1, the example as worded: 32 ETH slashed out of 3200 ETH with
    32 ETH of slashings and multiplier 3 is not penalised by 0.96 ETH;
    [32 * 96 ETH / 3200 ETH] is floored to 0 before the multiplication by
    the increment. *)
Lemma slashing_scenario_penalty_is_not_096_eth :
  effectiveBalances (epochCtx slashing_state) !! 0%nat = Some (32 * ETH)
  /\ sumSlashings (slashings slashing_state) = 32 * ETH
  /\ totalActiveStake slashing_summary = 3200 * ETH
  /\ PROPORTIONAL_SLASHING_MULTIPLIER = 3
  /\ exists state' penalty,
       processSlashingsAllForks phase0 slashing_state slashing_summary
       = Some (state', [ReadSlashings; DecreaseBalance 0 penalty])
       /\ penalty = 0
       /\ penalty <> 96 * ETH / 100.
Proof.
  repeat (split; [reflexivity|]).
  exists slashing_state, 0. repeat split. discriminate.
Qed.

Lemma processSlashings_nothing_to_slash_witness :
  indicesToSlash quiet_summary = []
  /\ processSlashingsAllForks phase0 slashing_state quiet_summary
     = Some (slashing_state, []).
Proof.
  split; [reflexivity|].
  exact (processSlashings_nothing_to_slash phase0 slashing_state quiet_summary eq_refl).
Defined.

Lemma processSlashings_penalty_bounded_witness :
  0 < EFFECTIVE_BALANCE_INCREMENT
  /\ 0 < totalActiveStake slashing_summary
  /\ Forall (Z.le 0) (effectiveBalances (epochCtx slashing_state))
  /\ processSlashingsAllForks phase0 slashing_state slashing_summary
     = Some (slashing_state, [ReadSlashings; DecreaseBalance 0 0])
  /\ DecreaseBalance 0 0 ∈ [ReadSlashings; DecreaseBalance 0 0]
  /\ exists eb,
       effectiveBalances (epochCtx slashing_state) !! 0%nat = Some eb /\ 0 <= eb.
Proof.
  assert (H1 : 0 < EFFECTIVE_BALANCE_INCREMENT) by reflexivity.
  assert (H2 : 0 < totalActiveStake slashing_summary) by reflexivity.
  assert (H3 : Forall (Z.le 0) (effectiveBalances (epochCtx slashing_state)))
    by (repeat constructor; discriminate).
  assert (H4 : processSlashingsAllForks phase0 slashing_state slashing_summary
               = Some (slashing_state, [ReadSlashings; DecreaseBalance 0 0]))
    by reflexivity.
  assert (H5 : DecreaseBalance 0 0 ∈ [ReadSlashings; DecreaseBalance 0 0])
    by (apply elem_of_cons; right; apply elem_of_cons; by left).
  repeat (split; [assumption|]).
  exact (processSlashings_penalty_bounded phase0 slashing_state slashing_summary
           slashing_state _ 0%nat 0 H1 H2 H3 H4 H5).
Defined.

(** C2, as worded: the validator at index 5 is slashed with another
    withdrawable epoch, so it is not in the first branch; it is not in
    [indicesToSlash] and its status has no [FLAG_UNSLASHED] either. *)
Lemma slashed_validator_without_unslashed_flag :
  exists ep v st,
    beforeProcessEpoch mixed_state = Some ep
    /\ validators mixed_state !! 5%nat = Some v
    /\ statusesFlat ep !! 5%nat = Some st
    /\ sc_statuses (scanValidators mixed_state) !! 5%nat = Some (mkStatus 128 false)
    /\ ~ (slashed v = true
          /\ withdrawableEpoch v =
             currentShuffling_epoch (epochCtx mixed_state) + EPOCHS_PER_SLASHINGS_VECTOR / 2)
    /\ (5%nat ∉ indicesToSlash ep)
    /\ hasMarkers (flags st) FLAG_UNSLASHED = false.
Proof.
  eexists _, _, _. split; [vm_compute; reflexivity|].
  split; [reflexivity|]. split; [reflexivity|]. split; [vm_compute; reflexivity|].
  split; [intros [_ Hw]; discriminate Hw|].
  split; [|reflexivity].
  intros [Hin|Hin]%elem_of_cons; [discriminate|]. by apply not_elem_of_nil in Hin.
Qed.

Lemma beforeProcessEpoch_slashed_or_unslashed_witness :
  exists ep,
    FLAG_UNSLASHED <> 0
    /\ Z.land FLAG_ELIGIBLE_ATTESTER FLAG_UNSLASHED = 0
    /\ beforeProcessEpoch mixed_state = Some ep
    /\ validators mixed_state !! 4%nat = Some (mkValidator (32 * ETH) true 0 0 10 4101)
    /\ (4%nat ∈ indicesToSlash ep <->
        true = true /\ 4101 = 5 + EPOCHS_PER_SLASHINGS_VECTOR / 2)
    /\ (exists st,
          sc_statuses (scanValidators mixed_state) !! 4%nat = Some st
          /\ hasMarkers (flags st) FLAG_UNSLASHED = false)
    /\ exists st,
         statusesFlat ep !! 4%nat = Some st
         /\ hasMarkers (flags st) FLAG_UNSLASHED = false.
Proof.
  eexists.
  assert (H1 : FLAG_UNSLASHED <> 0) by discriminate.
  assert (H2 : Z.land FLAG_ELIGIBLE_ATTESTER FLAG_UNSLASHED = 0) by reflexivity.
  split; [exact H1|]. split; [exact H2|].
  split; [vm_compute; reflexivity|]. split; [reflexivity|].
  match goal with
  | |- context [indicesToSlash ?ep] =>
      assert (Hrun : beforeProcessEpoch mixed_state = Some ep) by (vm_compute; reflexivity);
      destruct (beforeProcessEpoch_slashed_or_unslashed mixed_state ep 4%nat
                  (mkValidator (32 * ETH) true 0 0 10 4101) H1 H2 Hrun eq_refl)
        as (Hslash & Hscan & Haltair)
  end.
  split; [exact Hslash|]. split; [exact Hscan|].
  apply Haltair; [reflexivity|]. repeat constructor.
Defined.

(** Scenario 4, as the code runs it: the queue is sorted to
    [1; 3; 6; 2; 5; 8; 9; 0; 4; 7] and the validators 1, 3, 6 and 2, the
    four smallest by [(activationEligibilityEpoch, index)], are activated
    for epoch 10. *)
Lemma processRegistryUpdates_activation_witness :
  exists ep0 state',
    beforeProcessEpoch queue_state = Some ep0
    /\ indicesEligibleForActivation (withSnapshot ep0 queue_validators)
       = indicesEligibleForActivation ep0
    /\ ep_validators (withSnapshot ep0 queue_validators) = Some (validators queue_state)
    /\ processRegistryUpdates queue_state (withSnapshot ep0 queue_validators) = Some state'
    /\ indicesEligibleForActivation ep0 = [1; 3; 6; 2; 5; 8; 9; 0; 4; 7]%nat
    /\ activationEpoch <$> validators state'
       = [FAR_FUTURE_EPOCH; 10; 10; 10; FAR_FUTURE_EPOCH; FAR_FUTURE_EPOCH; 10;
          FAR_FUTURE_EPOCH; FAR_FUTURE_EPOCH; FAR_FUTURE_EPOCH]
    /\ StronglySorted (activationOrder (validators queue_state))
                      (indicesEligibleForActivation (withSnapshot ep0 queue_validators)).
Proof.
  eexists _, _.
  split; [vm_compute; reflexivity|].
  split; [reflexivity|]. split; [reflexivity|].
  split; [vm_compute; reflexivity|].
  split; [reflexivity|]. split; [reflexivity|].
  match goal with
  | |- context [withSnapshot ?ep0 _] =>
      assert (Hsummary : beforeProcessEpoch queue_state = Some ep0)
        by (vm_compute; reflexivity);
      assert (Hrun : { state' | processRegistryUpdates queue_state
                                  (withSnapshot ep0 queue_validators) = Some state' })
        by (eexists; vm_compute; reflexivity);
      exact (proj1 (processRegistryUpdates_activation queue_state ep0 queue_state
                      (withSnapshot ep0 queue_validators) (proj1_sig Hrun)
                      Hsummary eq_refl eq_refl (proj2_sig Hrun)))
  end.
Defined.

Lemma beforeProcessEpoch_buckets_exclusive_witness :
  exists ep,
    beforeProcessEpoch mixed_state = Some ep
    /\ indicesEligibleForActivationQueue ep = [1%nat]
    /\ indicesEligibleForActivation ep = [2%nat]
    /\ indicesToEject ep = [3%nat]
    /\ NoDup (indicesEligibleForActivationQueue ep
              ++ indicesEligibleForActivation ep ++ indicesToEject ep).
Proof.
  eexists.
  split; [vm_compute; reflexivity|].
  split; [reflexivity|]. split; [reflexivity|]. split; [reflexivity|].
  match goal with
  | |- context [indicesToEject ?ep] =>
      assert (Hrun : beforeProcessEpoch mixed_state = Some ep) by (vm_compute; reflexivity);
      exact (proj2 (proj2 (proj2
               (beforeProcessEpoch_buckets_exclusive mixed_state ep 0%nat Hrun))))
  end.
Defined.

(** With no validator at all every stake of the summary is one increment. *)
Lemma beforeProcessEpoch_stake_floor_witness :
  exists ep,
    beforeProcessEpoch empty_state = Some ep
    /\ totalActiveStake ep = EFFECTIVE_BALANCE_INCREMENT
    /\ EFFECTIVE_BALANCE_INCREMENT <= totalActiveStake ep
    /\ EFFECTIVE_BALANCE_INCREMENT <= prevEpochUnslashedStake_sourceStake ep
    /\ EFFECTIVE_BALANCE_INCREMENT <= prevEpochUnslashedStake_targetStake ep
    /\ EFFECTIVE_BALANCE_INCREMENT <= prevEpochUnslashedStake_headStake ep
    /\ EFFECTIVE_BALANCE_INCREMENT <= currEpochUnslashedTargetStake ep.
Proof.
  eexists.
  split; [vm_compute; reflexivity|]. split; [reflexivity|].
  match goal with
  | |- context [totalActiveStake ?ep] =>
      assert (Hrun : beforeProcessEpoch empty_state = Some ep) by (vm_compute; reflexivity);
      exact (proj1 (beforeProcessEpoch_stake_floor empty_state ep Hrun))
  end.
Defined.

(** Scenario 6, as the code runs it: 31.95 ETH leaves the effective
    balance at 32 ETH, 31.74 ETH lowers it to 31 ETH. *)
Lemma hysteresis_scenario :
  exists state',
    processEffectiveBalanceUpdates hysteresis_state hysteresis_summary = Some state'
    /\ effectiveBalance <$> validators state' = [32 * ETH; 31 * ETH].
Proof. eexists. split; [vm_compute; reflexivity|reflexivity]. Qed.

Lemma processEffectiveBalanceUpdates_hysteresis_witness :
  exists state',
    0 < EFFECTIVE_BALANCE_INCREMENT
    /\ 0 < HYSTERESIS_QUOTIENT
    /\ ep_validators hysteresis_summary = Some hysteresis_validators
    /\ processEffectiveBalanceUpdates hysteresis_state hysteresis_summary = Some state'
    /\ default (balances hysteresis_state) (ep_balances hysteresis_summary) !! 1%nat
       = Some 31740000000
    /\ 0 <= 31740000000
    /\ validators hysteresis_state !! 1%nat
       = Some (mkValidator (32 * ETH) false 0 0 FAR_FUTURE_EPOCH FAR_FUTURE_EPOCH)
    /\ exists sv v',
         hysteresis_validators !! 1%nat = Some sv
         /\ validators state' !! 1%nat = Some v'
         /\ effectiveBalance v' = 31 * ETH.
Proof.
  eexists.
  assert (H1 : 0 < EFFECTIVE_BALANCE_INCREMENT) by reflexivity.
  assert (H2 : 0 < HYSTERESIS_QUOTIENT) by reflexivity.
  assert (H6 : 0 <= 31740000000) by discriminate.
  split; [exact H1|]. split; [exact H2|]. split; [reflexivity|].
  split; [vm_compute; reflexivity|]. split; [reflexivity|]. split; [exact H6|].
  split; [reflexivity|].
  match goal with
  | |- context [validators ?state'] =>
      assert (Hrun : processEffectiveBalanceUpdates hysteresis_state hysteresis_summary
                     = Some state') by (vm_compute; reflexivity);
      destruct (processEffectiveBalanceUpdates_hysteresis hysteresis_state
                  hysteresis_summary hysteresis_validators state' 1%nat 31740000000
                  (mkValidator (32 * ETH) false 0 0 FAR_FUTURE_EPOCH FAR_FUTURE_EPOCH)
                  H1 H2 eq_refl Hrun eq_refl H6 eq_refl)
        as (sv & v' & Hsv & Hv' & _)
  end.
  exists sv, v'. split; [exact Hsv|]. split; [exact Hv'|].
  injection Hv' as <-. reflexivity.
Defined.

Lemma process_slots_slot_behind_witness :
  (forall (slot : Z) (body : unit), @inr TransitionError unit body <> inl SlotBehind)
  /\ (snd (unit_process_slots (mkSlotState 30 tt) 30) = Some SlotBehind <-> 30 <= 30)
  /\ (30 <= 30 -> fst (unit_process_slots (mkSlotState 30 tt) 30) = mkSlotState 30 tt).
Proof.
  assert (H1 : forall (slot : Z) (body : unit),
             @inr TransitionError unit body <> inl SlotBehind) by discriminate.
  split; [exact H1|].
  exact (process_slots_slot_behind unit 32 (fun _ body => inr body)
           (fun _ body => body) (fun _ body => body) (mkSlotState 30 tt) 30 H1).
Defined.

(** The facade of the scenario advances from slot 30 to slot 33, across an
    epoch boundary. *)
Lemma process_slots_scenario :
  unit_process_slots (mkSlotState 30 tt) 33 = (mkSlotState 33 tt, None).
Proof. reflexivity. Qed.

End ScenarioFacts.


(** * Further properties of the epoch processors *)

Lemma StronglySorted_indicesWhere {A} (P : A -> bool) (vs : list A) :
  forall i, StronglySorted lt (indicesWhere P i vs).
Proof.
  induction vs as [|v rest IH]; intros i; simpl; [constructor|].
  destruct (P v); simpl; [|apply IH].
  constructor; [apply IH|].
  apply Forall_forall. intros j Hj%indicesWhere_lower. lia.
Qed.

Section FurtherSummaryFacts.
Context `{Params} `{AttesterFlags} `{SszTypes} `{!Util}.

Lemma scanStep_next_total cfg prevEpoch currentEpoch nextEpoch slashingsEpoch acc i v :
  let r := scanStep cfg prevEpoch currentEpoch nextEpoch slashingsEpoch acc i v in
  sc_nextEpochActiveValidatorIndices r =
    sc_nextEpochActiveValidatorIndices acc
    ++ (if isActiveValidator v nextEpoch then [i] else [])
  /\ sc_totalActiveStake r =
     sc_totalActiveStake acc
     + (if isActiveValidator v currentEpoch then effectiveBalance v else 0).
Proof.
  unfold scanStep, pushIf.
  destruct (isToEject cfg (isActiveValidator v currentEpoch) v),
    (slashed v), (slashingsEpoch =? withdrawableEpoch v),
    (isActiveValidator v currentEpoch), (isEligibleForActivationQueue v),
    (isEligibleForActivation currentEpoch v), (isActiveValidator v nextEpoch);
    cbn [sc_nextEpochActiveValidatorIndices sc_totalActiveStake];
    rewrite ?app_nil_r; split; (done || lia).
Qed.

Lemma scanLoop_next_total cfg prevEpoch currentEpoch nextEpoch slashingsEpoch vs :
  forall i acc,
    let r := scanLoop cfg prevEpoch currentEpoch nextEpoch slashingsEpoch i vs acc in
    sc_nextEpochActiveValidatorIndices r =
      sc_nextEpochActiveValidatorIndices acc
      ++ indicesWhere (fun v => isActiveValidator v nextEpoch) i vs
    /\ sc_totalActiveStake r = sc_totalActiveStake acc + activeStake currentEpoch vs.
Proof.
  induction vs as [|v rest IH]; intros i acc; cbn [scanLoop indicesWhere].
  - unfold activeStake, sumZ. simpl. rewrite app_nil_r. split; [done|lia].
  - destruct (IH (S i)
                (scanStep cfg prevEpoch currentEpoch nextEpoch slashingsEpoch acc i v))
      as [-> ->].
    destruct (scanStep_next_total cfg prevEpoch currentEpoch nextEpoch slashingsEpoch
                acc i v) as [-> ->].
    rewrite <- app_assoc. split; [done|].
    unfold activeStake, sumZ. cbn [fmap list_fmap foldr]. lia.
Qed.

(** X1.  The total active stake of a summary is the sum of the effective
    balances of the validators that are active at the current epoch, or one
    increment if that sum is smaller. *)
Theorem beforeProcessEpoch_totalActiveStake state ep :
  beforeProcessEpoch state = Some ep ->
  totalActiveStake ep =
  Z.max EFFECTIVE_BALANCE_INCREMENT
        (activeStake (currentShuffling_epoch (epochCtx state)) (validators state)).
Proof.
  intros Hrun.
  destruct (beforeProcessEpoch_fields _ _ Hrun) as (_ & _ & _ & _ & _ & -> & _).
  unfold scanValidators.
  destruct (scanLoop_next_total (config state) (previousShuffling_epoch (epochCtx state))
              (currentShuffling_epoch (epochCtx state))
              (currentShuffling_epoch (epochCtx state) + 1)
              (currentShuffling_epoch (epochCtx state) + intDiv EPOCHS_PER_SLASHINGS_VECTOR 2)
              (validators state) 0%nat emptyScan) as [_ ->].
  cbn [sc_totalActiveStake emptyScan]. unfold floorAt.
  destruct (Z.ltb_spec (0 + activeStake (currentShuffling_epoch (epochCtx state))
                              (validators state)) EFFECTIVE_BALANCE_INCREMENT); lia.
Qed.

Lemma beforeProcessEpoch_next state ep :
  beforeProcessEpoch state = Some ep ->
  nextEpochActiveValidatorIndices ep =
  indicesWhere (fun v => isActiveValidator v (currentShuffling_epoch (epochCtx state) + 1))
               0 (validators state).
Proof.
  unfold beforeProcessEpoch. intros Hrun.
  destruct (computeBaseRewardPerIncrement _) as [reward|]; [|discriminate].
  cbn [mbind option_bind] in Hrun.
  match type of Hrun with
  | context [match ?f with phase0 => ?a | altair => ?b end] =>
      destruct (match f with phase0 => a | altair => b end) as [statuses|];
        [|discriminate]
  end.
  cbn [mbind option_bind] in Hrun.
  destruct (stakeLoop _ _ statuses _) as [stake|]; [|discriminate].
  cbn [mbind option_bind] in Hrun. injection Hrun as <-.
  cbn [nextEpochActiveValidatorIndices]. unfold scanValidators.
  destruct (scanLoop_next_total (config state) (previousShuffling_epoch (epochCtx state))
              (currentShuffling_epoch (epochCtx state))
              (currentShuffling_epoch (epochCtx state) + 1)
              (currentShuffling_epoch (epochCtx state) + intDiv EPOCHS_PER_SLASHINGS_VECTOR 2)
              (validators state) 0%nat emptyScan) as [-> _].
  done.
Qed.

(** X2.  [nextEpochActiveValidatorIndices] holds exactly the indices of
    the validators that are active at the next epoch; it and the three
    arrays that are not sorted afterwards ([indicesToSlash],
    [indicesEligibleForActivationQueue], [indicesToEject]) are strictly
    ascending. *)
Theorem beforeProcessEpoch_index_arrays_ascending state ep :
  beforeProcessEpoch state = Some ep ->
  (forall i,
     i ∈ nextEpochActiveValidatorIndices ep <->
     exists v, validators state !! i = Some v
               /\ isActiveValidator v (currentShuffling_epoch (epochCtx state) + 1) = true)
  /\ StronglySorted lt (nextEpochActiveValidatorIndices ep)
  /\ StronglySorted lt (indicesToSlash ep)
  /\ StronglySorted lt (indicesEligibleForActivationQueue ep)
  /\ StronglySorted lt (indicesToEject ep).
Proof.
  intros Hrun.
  rewrite (beforeProcessEpoch_next _ _ Hrun).
  destruct (beforeProcessEpoch_fields _ _ Hrun) as (-> & -> & _ & -> & _).
  destruct (scanValidators_fields state) as (-> & -> & _ & ->).
  split; [intros i; apply elem_of_indicesWhere_0|].
  repeat split; apply StronglySorted_indicesWhere.
Qed.

Lemma StronglySorted_Permutation_unique {A} (R : A -> A -> Prop) (l1 : list A) :
  (forall a b, R a b -> R b a -> a = b) ->
  forall l2,
    StronglySorted R l1 -> StronglySorted R l2 -> Permutation l1 l2 -> l1 = l2.
Proof.
  intros Hanti. induction l1 as [|x l1 IH]; intros l2 Hs1 Hs2 Hperm.
  - by apply Permutation_nil_l in Hperm.
  - destruct l2 as [|y l2]; [by apply Permutation_nil_r in Hperm|].
    apply StronglySorted_inv in Hs1 as [Hs1 Hx].
    apply StronglySorted_inv in Hs2 as [Hs2 Hy].
    rewrite Forall_forall in Hx, Hy.
    assert (x = y) as ->.
    { assert (x ∈ y :: l2) as Hxin by (rewrite <- Hperm; apply elem_of_cons; by left).
      assert (y ∈ x :: l1) as Hyin by (rewrite Hperm; apply elem_of_cons; by left).
      apply elem_of_cons in Hxin as [?|Hxin]; [done|].
      apply elem_of_cons in Hyin as [?|Hyin]; [done|].
      apply Hanti; [by apply Hx | by apply Hy]. }
    f_equal. apply IH; [done..|]. by eapply Permutation_cons_inv.
Qed.

Lemma activationOrder_antisym validators a b :
  activationOrder validators a b -> activationOrder validators b a -> a = b.
Proof. unfold activationOrder. lia. Qed.

(** X3.  The order of [indicesEligibleForActivation] is determined by the
    comparator alone: every arrangement of the same indices that ascends by
    [(activationEligibilityEpoch, index)] is the list of the summary, so
    the result does not depend on how the sort routine works. *)
Theorem beforeProcessEpoch_activation_order_unique state ep l :
  beforeProcessEpoch state = Some ep ->
  Permutation l (indicesEligibleForActivation ep) ->
  StronglySorted (activationOrder (validators state)) l ->
  l = indicesEligibleForActivation ep.
Proof.
  intros Hrun Hperm Hsorted.
  apply (StronglySorted_Permutation_unique (activationOrder (validators state)));
    [apply activationOrder_antisym|done| |done].
  destruct (beforeProcessEpoch_fields _ _ Hrun) as (_ & _ & -> & _).
  apply sortBy_StronglySorted.
  - apply activationOrder_trans.
  - apply compareActivation_le.
  - apply compareActivation_gt.
Qed.

Lemma forEachStatus_overflow fSource fTarget fHead participation :
  forall i statuses,
    (i <= length statuses)%nat ->
    (length statuses < i + length participation)%nat ->
    forEachStatus fSource fTarget fHead i participation statuses = None.
Proof.
  induction participation as [|status rest IH]; intros i statuses Hi Hlen;
    cbn [forEachStatus]; [simpl in Hlen; lia|].
  simpl in Hlen.
  destruct (list_update statuses i _) as [statuses1|] eqn:Hupd; [|done].
  cbn [mbind option_bind].
  pose proof (list_update_length _ _ _ _ Hupd) as Hl.
  apply list_update_Some in Hupd as (st & Hst%lookup_lt_Some & _).
  apply IH; lia.
Qed.

(** X4.  In Altair a participation list with more entries than there are
    validators makes [beforeProcessEpoch] throw: the callback reaches a
    status that does not exist. *)
Theorem beforeProcessEpoch_participation_overflow state :
  getForkName (config state) (slot state) = altair ->
  (length (validators state) < length (previousEpochParticipation state))%nat
  \/ (length (validators state) < length (currentEpochParticipation state))%nat ->
  beforeProcessEpoch state = None.
Proof.
  intros Hfork Hlong. unfold beforeProcessEpoch.
  destruct (computeBaseRewardPerIncrement _) as [reward|]; [|done].
  cbn [mbind option_bind]. rewrite Hfork.
  pose proof (scanValidators_statuses_length state) as Hlen.
  destruct (decide (length (validators state)
                    < length (previousEpochParticipation state))%nat) as [Hprev|Hprev].
  - rewrite forEachStatus_overflow by (simpl; lia). done.
  - destruct (forEachStatus_returns FLAG_PREV_SOURCE_ATTESTER FLAG_PREV_TARGET_ATTESTER
                FLAG_PREV_HEAD_ATTESTER (previousEpochParticipation state) 0%nat
                (sc_statuses (scanValidators state)) ltac:(simpl; lia))
      as (st1 & -> & Hl1).
    cbn [mbind option_bind].
    rewrite forEachStatus_overflow by (simpl; lia). done.
Qed.

(** *** The status words in closed form *)

Lemma scanStep_status_closed cfg prevEpoch currentEpoch nextEpoch slashingsEpoch v :
  sc_statuses (scanStep cfg prevEpoch currentEpoch nextEpoch slashingsEpoch
                        emptyScan 0%nat v) =
  [mkStatus (Z.lor (if slashed v then 0 else FLAG_UNSLASHED)
                   (if isEligibleAttester prevEpoch v then FLAG_ELIGIBLE_ATTESTER else 0))
            (isActiveValidator v currentEpoch)].
Proof.
  unfold scanStep, isEligibleAttester, orFlags, createIAttesterStatus.
  destruct (isToEject cfg (isActiveValidator v currentEpoch) v),
    (slashed v), (slashingsEpoch =? withdrawableEpoch v),
    (isActiveValidator v currentEpoch), (isActiveValidator v prevEpoch),
    (prevEpoch + 1 <? withdrawableEpoch v),
    (isEligibleForActivationQueue v), (isEligibleForActivation currentEpoch v);
    cbn -[Z.lor]; rewrite ?Z.lor_0_l, ?Z.lor_0_r; reflexivity.
Qed.

Lemma scanValidators_statuses_closed state :
  sc_statuses (scanValidators state) =
  (fun v =>
     mkStatus (Z.lor (if slashed v then 0 else FLAG_UNSLASHED)
                     (if isEligibleAttester (previousShuffling_epoch (epochCtx state)) v
                      then FLAG_ELIGIBLE_ATTESTER else 0))
              (isActiveValidator v (currentShuffling_epoch (epochCtx state))))
  <$> validators state.
Proof.
  unfold scanValidators.
  set (cur := currentShuffling_epoch (epochCtx state)).
  set (se := cur + intDiv EPOCHS_PER_SLASHINGS_VECTOR 2).
  set (prev := previousShuffling_epoch (epochCtx state)).
  destruct (scanLoop_fields (config state) prev cur (cur + 1) se (validators state)
              0%nat emptyScan) as (_ & _ & _ & _ & ->).
  cbn [sc_statuses emptyScan app].
  induction (validators state) as [|w rest IH]; [done|].
  cbn [map concat fmap list_fmap]. rewrite scanStep_status_closed, IH. done.
Qed.

Lemma forEachStatus_lookup fSource fTarget fHead participation :
  forall i0 statuses statuses',
    forEachStatus fSource fTarget fHead i0 participation statuses = Some statuses' ->
    forall j st,
      statuses !! j = Some st ->
      exists st',
        statuses' !! j = Some st' /\ active st' = active st
        /\ flags st' =
           Z.lor (flags st)
                 (if decide (i0 <= j)%nat
                  then from_option (participationMask fSource fTarget fHead) 0
                                   (participation !! (j - i0)%nat)
                  else 0).
Proof.
  induction participation as [|p rest IH]; intros i0 statuses statuses' Hrun j st Hst;
    cbn [forEachStatus] in Hrun.
  - injection Hrun as <-. exists st. split; [done|]. split; [done|].
    rewrite lookup_nil. cbn [from_option]. by destruct (decide _); rewrite Z.lor_0_r.
  - destruct (list_update statuses i0 _) as [statuses1|] eqn:Hupd; [|discriminate].
    cbn [mbind option_bind] in Hrun.
    apply list_update_Some in Hupd as (st0 & Hst0 & ->).
    destruct (decide (j = i0)) as [->|Hne].
    + rewrite Hst0 in Hst. injection Hst as ->.
      destruct (IH _ _ _ Hrun i0 (orFlags st (participationMask fSource fTarget fHead p)))
        as (st' & Hst' & Hact & Hfl).
      { apply list_lookup_insert_eq. by eapply lookup_lt_Some. }
      exists st'. split; [done|]. split; [done|].
      rewrite Hfl. rewrite decide_False by lia. rewrite decide_True by lia.
      rewrite Nat.sub_diag. cbn [lookup list_lookup from_option flags orFlags].
      by rewrite Z.lor_0_r.
    + destruct (IH _ _ _ Hrun j st) as (st' & Hst' & Hact & Hfl).
      { by rewrite list_lookup_insert_ne. }
      exists st'. split; [done|]. split; [done|].
      rewrite Hfl.
      destruct (decide (i0 <= j)%nat) as [Hle|Hgt].
      * rewrite decide_True by lia.
        replace (j - i0)%nat with (S (j - S i0)) by lia. done.
      * by rewrite decide_False by lia.
Qed.

(** The status of validator [i] in an Altair summary. *)
Lemma beforeProcessEpoch_status_altair state ep i v :
  getForkName (config state) (slot state) = altair ->
  beforeProcessEpoch state = Some ep ->
  validators state !! i = Some v ->
  exists st,
    statusesFlat ep !! i = Some st
    /\ active st = isActiveValidator v (currentShuffling_epoch (epochCtx state))
    /\ flags st =
       Z.lor (Z.lor (Z.lor (if slashed v then 0 else FLAG_UNSLASHED)
                           (if isEligibleAttester (previousShuffling_epoch (epochCtx state)) v
                            then FLAG_ELIGIBLE_ATTESTER else 0))
                    (from_option
                       (participationMask FLAG_PREV_SOURCE_ATTESTER FLAG_PREV_TARGET_ATTESTER
                                          FLAG_PREV_HEAD_ATTESTER)
                       0 (previousEpochParticipation state !! i)))
             (from_option
                (participationMask FLAG_CURR_SOURCE_ATTESTER FLAG_CURR_TARGET_ATTESTER
                                   FLAG_CURR_HEAD_ATTESTER)
                0 (currentEpochParticipation state !! i)).
Proof.
  intros Hfork Hrun Hv. unfold beforeProcessEpoch in Hrun.
  destruct (computeBaseRewardPerIncrement _) as [reward|]; [|discriminate].
  cbn [mbind option_bind] in Hrun. rewrite Hfork in Hrun.
  destruct (forEachStatus _ _ _ _ (previousEpochParticipation state) _)
    as [st1|] eqn:Hprev; [|discriminate].
  cbn [mbind option_bind] in Hrun.
  destruct (forEachStatus _ _ _ _ (currentEpochParticipation state) _)
    as [st2|] eqn:Hcurr; [|discriminate].
  cbn [mbind option_bind] in Hrun.
  destruct (stakeLoop _ _ _ _) as [stake|]; [|discriminate].
  cbn [mbind option_bind] in Hrun. injection Hrun as <-. cbn [statusesFlat].
  rewrite scanValidators_statuses_closed in Hprev.
  eapply forEachStatus_lookup in Hprev as (s1 & Hs1 & Ha1 & Hf1);
    [|by rewrite list_lookup_fmap, Hv].
  eapply forEachStatus_lookup in Hcurr as (s2 & Hs2 & Ha2 & Hf2); [|exact Hs1].
  exists s2. split; [done|].
  rewrite Ha2, Ha1, Hf2, Hf1. cbn [active flags].
  rewrite !decide_True by lia. rewrite !Nat.sub_0_r. done.
Qed.

(** *** Testing a flag of a status word *)

Lemma hasMarkers_lor_cases x m f (c : bool) :
  Z.land m f = (if c then f else 0) ->
  hasMarkers (Z.lor x m) f = c || hasMarkers x f.
Proof.
  intros Hm. unfold hasMarkers. rewrite Z.land_lor_distr_l, Hm.
  destruct c; cbn [orb]; [|by rewrite Z.lor_0_r].
  replace (Z.lor (Z.land x f) f) with f; [apply Z.eqb_refl|].
  apply Z.bits_inj'. intros n _.
  rewrite Z.lor_spec, Z.land_spec. by destruct (Z.testbit x n), (Z.testbit f n).
Qed.

Lemma hasMarkers_0 f : f <> 0 -> hasMarkers 0 f = false.
Proof. intros Hf. unfold hasMarkers. rewrite Z.land_0_l. apply Z.eqb_neq. congruence. Qed.

Lemma land_mask_other fSource fTarget fHead f (o : option ParticipationStatus) :
  Z.land fSource f = 0 -> Z.land fTarget f = 0 -> Z.land fHead f = 0 ->
  Z.land (from_option (participationMask fSource fTarget fHead) 0 o) f
  = (if false then f else 0).
Proof.
  intros Hs Ht Hh. destruct o as [p|]; cbn [from_option]; [|apply Z.land_0_l].
  by apply participationMask_disjoint.
Qed.

Lemma land_mask_source fSource fTarget fHead (o : option ParticipationStatus) :
  Z.land fTarget fSource = 0 -> Z.land fHead fSource = 0 ->
  Z.land (from_option (participationMask fSource fTarget fHead) 0 o) fSource
  = (if from_option timelySource false o then fSource else 0).
Proof.
  intros Ht Hh. destruct o as [p|]; cbn [from_option]; [|apply Z.land_0_l].
  unfold participationMask. rewrite !Z.land_lor_distr_l.
  destruct (timelySource p), (timelyTarget p), (timelyHead p);
    by rewrite ?Ht, ?Hh, ?Z.land_0_l, ?Z.land_diag, ?Z.lor_0_r.
Qed.

Lemma land_mask_target fSource fTarget fHead (o : option ParticipationStatus) :
  Z.land fSource fTarget = 0 -> Z.land fHead fTarget = 0 ->
  Z.land (from_option (participationMask fSource fTarget fHead) 0 o) fTarget
  = (if from_option timelyTarget false o then fTarget else 0).
Proof.
  intros Hs Hh. destruct o as [p|]; cbn [from_option]; [|apply Z.land_0_l].
  unfold participationMask. rewrite !Z.land_lor_distr_l.
  destruct (timelySource p), (timelyTarget p), (timelyHead p);
    by rewrite ?Hs, ?Hh, ?Z.land_0_l, ?Z.land_diag, ?Z.lor_0_r, ?Z.lor_0_l.
Qed.

Lemma land_mask_head fSource fTarget fHead (o : option ParticipationStatus) :
  Z.land fSource fHead = 0 -> Z.land fTarget fHead = 0 ->
  Z.land (from_option (participationMask fSource fTarget fHead) 0 o) fHead
  = (if from_option timelyHead false o then fHead else 0).
Proof.
  intros Hs Ht. destruct o as [p|]; cbn [from_option]; [|apply Z.land_0_l].
  unfold participationMask. rewrite !Z.land_lor_distr_l.
  destruct (timelySource p), (timelyTarget p), (timelyHead p);
    by rewrite ?Hs, ?Ht, ?Z.land_0_l, ?Z.land_diag, ?Z.lor_0_r, ?Z.lor_0_l.
Qed.

(** The flags that the scan sets, against a flag [f]. *)
Lemma land_scan_other (s e : bool) f :
  Z.land FLAG_UNSLASHED f = 0 -> Z.land FLAG_ELIGIBLE_ATTESTER f = 0 ->
  Z.land (Z.lor (if s then 0 else FLAG_UNSLASHED)
                (if e then FLAG_ELIGIBLE_ATTESTER else 0)) f = 0.
Proof.
  intros Hu He. rewrite Z.land_lor_distr_l.
  destruct s, e; by rewrite ?Hu, ?He, ?Z.land_0_l.
Qed.

Lemma hasMarkers_scan_unslashed (s e : bool) :
  FLAG_UNSLASHED <> 0 -> Z.land FLAG_ELIGIBLE_ATTESTER FLAG_UNSLASHED = 0 ->
  hasMarkers (Z.lor (if s then 0 else FLAG_UNSLASHED)
                    (if e then FLAG_ELIGIBLE_ATTESTER else 0)) FLAG_UNSLASHED
  = negb s.
Proof.
  intros Hu He. unfold hasMarkers. rewrite Z.land_lor_distr_l.
  destruct s, e; rewrite ?He, ?Z.land_0_l, ?Z.land_diag, ?Z.lor_0_r; cbn [negb];
    first [apply Z.eqb_refl | apply Z.eqb_neq; congruence].
Qed.

Lemma hasMarkers_scan_eligible (s e : bool) :
  FLAG_ELIGIBLE_ATTESTER <> 0 -> Z.land FLAG_UNSLASHED FLAG_ELIGIBLE_ATTESTER = 0 ->
  hasMarkers (Z.lor (if s then 0 else FLAG_UNSLASHED)
                    (if e then FLAG_ELIGIBLE_ATTESTER else 0)) FLAG_ELIGIBLE_ATTESTER
  = e.
Proof.
  intros He Hu. unfold hasMarkers. rewrite Z.land_lor_distr_l.
  destruct s, e; rewrite ?Hu, ?Z.land_0_l, ?Z.land_diag, ?Z.lor_0_l;
    first [apply Z.eqb_refl | apply Z.eqb_neq; congruence].
Qed.

Lemma hasMarkers_scan_other (s e : bool) f :
  f <> 0 -> Z.land FLAG_UNSLASHED f = 0 -> Z.land FLAG_ELIGIBLE_ATTESTER f = 0 ->
  hasMarkers (Z.lor (if s then 0 else FLAG_UNSLASHED)
                    (if e then FLAG_ELIGIBLE_ATTESTER else 0)) f
  = false.
Proof.
  intros Hf Hu He. unfold hasMarkers. rewrite land_scan_other by done.
  apply Z.eqb_neq. congruence.
Qed.

(** Every flag of the status of validator [i] in an Altair summary, when
    the flag words are independent. *)
Lemma beforeProcessEpoch_markers_altair state ep i v :
  flagsIndependent ->
  getForkName (config state) (slot state) = altair ->
  beforeProcessEpoch state = Some ep ->
  validators state !! i = Some v ->
  exists st,
    statusesFlat ep !! i = Some st
    /\ active st = isActiveValidator v (currentShuffling_epoch (epochCtx state))
    /\ hasMarkers (flags st) FLAG_UNSLASHED = negb (slashed v)
    /\ hasMarkers (flags st) FLAG_ELIGIBLE_ATTESTER
       = isEligibleAttester (previousShuffling_epoch (epochCtx state)) v
    /\ hasMarkers (flags st) FLAG_PREV_SOURCE_ATTESTER
       = from_option timelySource false (previousEpochParticipation state !! i)
    /\ hasMarkers (flags st) FLAG_PREV_TARGET_ATTESTER
       = from_option timelyTarget false (previousEpochParticipation state !! i)
    /\ hasMarkers (flags st) FLAG_PREV_HEAD_ATTESTER
       = from_option timelyHead false (previousEpochParticipation state !! i)
    /\ hasMarkers (flags st) FLAG_CURR_SOURCE_ATTESTER
       = from_option timelySource false (currentEpochParticipation state !! i)
    /\ hasMarkers (flags st) FLAG_CURR_TARGET_ATTESTER
       = from_option timelyTarget false (currentEpochParticipation state !! i)
    /\ hasMarkers (flags st) FLAG_CURR_HEAD_ATTESTER
       = from_option timelyHead false (currentEpochParticipation state !! i).
Proof.
  intros [Hnz Hdisj] Hfork Hrun Hv.
  destruct (beforeProcessEpoch_status_altair _ _ _ _ Hfork Hrun Hv)
    as (st & Hst & Hact & Hfl).
  exists st. split; [done|]. split; [done|]. rewrite Hfl. clear Hfl Hst Hact.
  pose proof (fun i j (Hij : i <> j) f g (Hf : flagList !! i = Some f)
                  (Hg : flagList !! j = Some g) => Hdisj i j f g Hf Hg Hij) as D.
  assert (Hn : forall k f, flagList !! k = Some f -> f <> 0).
  { intros k f Hk. by eapply (Forall_lookup_1 (fun f => f <> 0)). }
  pose proof (Hn 0%nat _ eq_refl) as N0. pose proof (Hn 1%nat _ eq_refl) as N1.
  pose proof (Hn 2%nat _ eq_refl) as N2. pose proof (Hn 3%nat _ eq_refl) as N3.
  pose proof (Hn 4%nat _ eq_refl) as N4. pose proof (Hn 5%nat _ eq_refl) as N5.
  pose proof (Hn 6%nat _ eq_refl) as N6. pose proof (Hn 7%nat _ eq_refl) as N7.
  repeat split.
  - rewrite (hasMarkers_lor_cases _ _ _ false)
      by (apply land_mask_other; [eapply (D 5%nat 0%nat)|eapply (D 6%nat 0%nat)
                                 |eapply (D 7%nat 0%nat)]; done).
    rewrite (hasMarkers_lor_cases _ _ _ false)
      by (apply land_mask_other; [eapply (D 2%nat 0%nat)|eapply (D 3%nat 0%nat)
                                 |eapply (D 4%nat 0%nat)]; done).
    cbn [orb]. apply hasMarkers_scan_unslashed; [done|]. by eapply (D 1%nat 0%nat).
  - rewrite (hasMarkers_lor_cases _ _ _ false)
      by (apply land_mask_other; [eapply (D 5%nat 1%nat)|eapply (D 6%nat 1%nat)
                                 |eapply (D 7%nat 1%nat)]; done).
    rewrite (hasMarkers_lor_cases _ _ _ false)
      by (apply land_mask_other; [eapply (D 2%nat 1%nat)|eapply (D 3%nat 1%nat)
                                 |eapply (D 4%nat 1%nat)]; done).
    cbn [orb]. apply hasMarkers_scan_eligible; [done|]. by eapply (D 0%nat 1%nat).
  - rewrite (hasMarkers_lor_cases _ _ _ false)
      by (apply land_mask_other; [eapply (D 5%nat 2%nat)|eapply (D 6%nat 2%nat)
                                 |eapply (D 7%nat 2%nat)]; done).
    rewrite (hasMarkers_lor_cases _ _ _ _
               (land_mask_source _ _ _ _ (D 3%nat 2%nat ltac:(done) _ _ eq_refl eq_refl)
                                 (D 4%nat 2%nat ltac:(done) _ _ eq_refl eq_refl))).
    rewrite hasMarkers_scan_other;
      [apply orb_false_r|done|by eapply (D 0%nat 2%nat)|by eapply (D 1%nat 2%nat)].
  - rewrite (hasMarkers_lor_cases _ _ _ false)
      by (apply land_mask_other; [eapply (D 5%nat 3%nat)|eapply (D 6%nat 3%nat)
                                 |eapply (D 7%nat 3%nat)]; done).
    rewrite (hasMarkers_lor_cases _ _ _ _
               (land_mask_target _ _ _ _ (D 2%nat 3%nat ltac:(done) _ _ eq_refl eq_refl)
                                 (D 4%nat 3%nat ltac:(done) _ _ eq_refl eq_refl))).
    rewrite hasMarkers_scan_other;
      [apply orb_false_r|done|by eapply (D 0%nat 3%nat)|by eapply (D 1%nat 3%nat)].
  - rewrite (hasMarkers_lor_cases _ _ _ false)
      by (apply land_mask_other; [eapply (D 5%nat 4%nat)|eapply (D 6%nat 4%nat)
                                 |eapply (D 7%nat 4%nat)]; done).
    rewrite (hasMarkers_lor_cases _ _ _ _
               (land_mask_head _ _ _ _ (D 2%nat 4%nat ltac:(done) _ _ eq_refl eq_refl)
                               (D 3%nat 4%nat ltac:(done) _ _ eq_refl eq_refl))).
    rewrite hasMarkers_scan_other;
      [apply orb_false_r|done|by eapply (D 0%nat 4%nat)|by eapply (D 1%nat 4%nat)].
  - rewrite (hasMarkers_lor_cases _ _ _ _
               (land_mask_source _ _ _ _ (D 6%nat 5%nat ltac:(done) _ _ eq_refl eq_refl)
                                 (D 7%nat 5%nat ltac:(done) _ _ eq_refl eq_refl))).
    rewrite (hasMarkers_lor_cases _ _ _ false)
      by (apply land_mask_other; [eapply (D 2%nat 5%nat)|eapply (D 3%nat 5%nat)
                                 |eapply (D 4%nat 5%nat)]; done).
    rewrite hasMarkers_scan_other;
      [apply orb_false_r|done|by eapply (D 0%nat 5%nat)|by eapply (D 1%nat 5%nat)].
  - rewrite (hasMarkers_lor_cases _ _ _ _
               (land_mask_target _ _ _ _ (D 5%nat 6%nat ltac:(done) _ _ eq_refl eq_refl)
                                 (D 7%nat 6%nat ltac:(done) _ _ eq_refl eq_refl))).
    rewrite (hasMarkers_lor_cases _ _ _ false)
      by (apply land_mask_other; [eapply (D 2%nat 6%nat)|eapply (D 3%nat 6%nat)
                                 |eapply (D 4%nat 6%nat)]; done).
    rewrite hasMarkers_scan_other;
      [apply orb_false_r|done|by eapply (D 0%nat 6%nat)|by eapply (D 1%nat 6%nat)].
  - rewrite (hasMarkers_lor_cases _ _ _ _
               (land_mask_head _ _ _ _ (D 5%nat 7%nat ltac:(done) _ _ eq_refl eq_refl)
                               (D 6%nat 7%nat ltac:(done) _ _ eq_refl eq_refl))).
    rewrite (hasMarkers_lor_cases _ _ _ false)
      by (apply land_mask_other; [eapply (D 2%nat 7%nat)|eapply (D 3%nat 7%nat)
                                 |eapply (D 4%nat 7%nat)]; done).
    rewrite hasMarkers_scan_other;
      [apply orb_false_r|done|by eapply (D 0%nat 7%nat)|by eapply (D 1%nat 7%nat)].
Qed.

(** X5.  In an Altair summary the status of every validator is [active]
    exactly when the validator is active at the current epoch, and it
    carries [FLAG_ELIGIBLE_ATTESTER] exactly when the validator is active
    at the previous epoch or is slashed and not yet withdrawable at the
    epoch after the previous one. *)
Theorem beforeProcessEpoch_eligible_attester state ep i v :
  flagsIndependent ->
  getForkName (config state) (slot state) = altair ->
  beforeProcessEpoch state = Some ep ->
  validators state !! i = Some v ->
  exists st,
    statusesFlat ep !! i = Some st
    /\ active st = isActiveValidator v (currentShuffling_epoch (epochCtx state))
    /\ hasMarkers (flags st) FLAG_ELIGIBLE_ATTESTER
       = (isActiveValidator v (previousShuffling_epoch (epochCtx state))
          || (slashed v
              && (previousShuffling_epoch (epochCtx state) + 1 <? withdrawableEpoch v))).
Proof.
  intros Hind Hfork Hrun Hv.
  destruct (beforeProcessEpoch_markers_altair _ _ _ _ Hind Hfork Hrun Hv)
    as (st & Hst & Hact & _ & He & _).
  exists st. by repeat split.
Qed.

(** X6.  In an Altair summary the six participation flags of the status
    of validator [i] are the three bits of entry [i] of
    [previousEpochParticipation] and of [currentEpochParticipation]; a
    validator beyond the end of a list has none of the flags of that
    epoch. *)
Theorem beforeProcessEpoch_participation_flags state ep i v :
  flagsIndependent ->
  getForkName (config state) (slot state) = altair ->
  beforeProcessEpoch state = Some ep ->
  validators state !! i = Some v ->
  exists st,
    statusesFlat ep !! i = Some st
    /\ hasMarkers (flags st) FLAG_PREV_SOURCE_ATTESTER
       = from_option timelySource false (previousEpochParticipation state !! i)
    /\ hasMarkers (flags st) FLAG_PREV_TARGET_ATTESTER
       = from_option timelyTarget false (previousEpochParticipation state !! i)
    /\ hasMarkers (flags st) FLAG_PREV_HEAD_ATTESTER
       = from_option timelyHead false (previousEpochParticipation state !! i)
    /\ hasMarkers (flags st) FLAG_CURR_SOURCE_ATTESTER
       = from_option timelySource false (currentEpochParticipation state !! i)
    /\ hasMarkers (flags st) FLAG_CURR_TARGET_ATTESTER
       = from_option timelyTarget false (currentEpochParticipation state !! i)
    /\ hasMarkers (flags st) FLAG_CURR_HEAD_ATTESTER
       = from_option timelyHead false (currentEpochParticipation state !! i).
Proof.
  intros Hind Hfork Hrun Hv.
  destruct (beforeProcessEpoch_markers_altair _ _ _ _ Hind Hfork Hrun Hv)
    as (st & Hst & _ & _ & _ & Hflags).
  by exists st.
Qed.

(** *** The unslashed stakes in closed form *)

Lemma hasMarkers_lor_markers x f u :
  hasMarkers x (Z.lor f u) = hasMarkers x f && hasMarkers x u.
Proof.
  unfold hasMarkers.
  destruct (Z.eqb_spec (Z.land x f) f) as [Hf|Hf];
    destruct (Z.eqb_spec (Z.land x u) u) as [Hu|Hu]; cbn [andb].
  - apply Z.eqb_eq. by rewrite Z.land_lor_distr_r, Hf, Hu.
  - apply Z.eqb_neq. intros Hfu. apply Hu.
    apply Z.bits_inj'. intros n _.
    apply (f_equal (fun z => Z.testbit z n)) in Hfu.
    rewrite Z.land_spec, Z.lor_spec in Hfu. rewrite Z.land_spec.
    by destruct (Z.testbit x n), (Z.testbit f n), (Z.testbit u n).
  - apply Z.eqb_neq. intros Hfu. apply Hf.
    apply Z.bits_inj'. intros n _.
    apply (f_equal (fun z => Z.testbit z n)) in Hfu.
    rewrite Z.land_spec, Z.lor_spec in Hfu. rewrite Z.land_spec.
    by destruct (Z.testbit x n), (Z.testbit f n), (Z.testbit u n).
  - apply Z.eqb_neq. intros Hfu. apply Hf.
    apply Z.bits_inj'. intros n _.
    apply (f_equal (fun z => Z.testbit z n)) in Hfu.
    rewrite Z.land_spec, Z.lor_spec in Hfu. rewrite Z.land_spec.
    by destruct (Z.testbit x n), (Z.testbit f n), (Z.testbit u n).
Qed.

Lemma addStake_Some statusFlags mask sum eb sum' :
  addStake statusFlags mask sum eb = Some sum' ->
  sum' = sum + (if hasMarkers statusFlags mask then default 0 eb else 0).
Proof.
  unfold addStake. destruct (hasMarkers statusFlags mask).
  - destruct eb as [e|]; [|discriminate]. cbn. by intros [= <-].
  - intros [= <-]. lia.
Qed.

Lemma stakeLoop_sums effectiveBalances statuses :
  forall i acc acc',
    stakeLoop effectiveBalances i statuses acc = Some acc' ->
    let part mask k (st : IAttesterStatus) :=
      if hasMarkers (flags st) (Z.lor mask FLAG_UNSLASHED)
      then default 0 (effectiveBalances !! k) else 0 in
    prevSourceUnslStake acc' =
      prevSourceUnslStake acc + sumAt (part FLAG_PREV_SOURCE_ATTESTER) i statuses
    /\ prevTargetUnslStake acc' =
      prevTargetUnslStake acc + sumAt (part FLAG_PREV_TARGET_ATTESTER) i statuses
    /\ prevHeadUnslStake acc' =
      prevHeadUnslStake acc + sumAt (part FLAG_PREV_HEAD_ATTESTER) i statuses
    /\ currTargetUnslStake acc' =
      currTargetUnslStake acc + sumAt (part FLAG_CURR_TARGET_ATTESTER) i statuses.
Proof.
  induction statuses as [|st rest IH]; intros i acc acc' Hrun part;
    cbn [stakeLoop] in Hrun.
  - injection Hrun as <-. cbn [sumAt]. repeat split; lia.
  - destruct (addStake _ (Z.lor FLAG_PREV_SOURCE_ATTESTER _) _ _) as [ps|] eqn:Hps;
      [|discriminate].
    cbn [mbind option_bind] in Hrun.
    destruct (addStake _ (Z.lor FLAG_PREV_TARGET_ATTESTER _) _ _) as [pt|] eqn:Hpt;
      [|discriminate].
    cbn [mbind option_bind] in Hrun.
    destruct (addStake _ (Z.lor FLAG_PREV_HEAD_ATTESTER _) _ _) as [ph|] eqn:Hph;
      [|discriminate].
    cbn [mbind option_bind] in Hrun.
    destruct (addStake _ (Z.lor FLAG_CURR_TARGET_ATTESTER _) _ _) as [ct|] eqn:Hct;
      [|discriminate].
    cbn [mbind option_bind] in Hrun.
    apply addStake_Some in Hps, Hpt, Hph, Hct.
    destruct (IH _ _ _ Hrun) as (-> & -> & -> & ->).
    cbn [prevSourceUnslStake prevTargetUnslStake prevHeadUnslStake currTargetUnslStake
         sumAt].
    subst part ps pt ph ct. cbv beta. repeat split; lia.
Qed.

Lemma sumAt_pointwise {A B} (w : nat -> A -> Z) (w' : nat -> B -> Z) (l : list A) :
  forall (l' : list B) i,
    length l = length l' ->
    (forall k x y, l !! k = Some x -> l' !! k = Some y -> w (i + k)%nat x = w' (i + k)%nat y) ->
    sumAt w i l = sumAt w' i l'.
Proof.
  induction l as [|x l IH]; intros [|y l'] i Hlen Hpt; try discriminate; [done|].
  cbn [sumAt]. f_equal.
  - specialize (Hpt 0%nat x y eq_refl eq_refl). by rewrite Nat.add_0_r in Hpt.
  - apply IH; [by injection Hlen|].
    intros k a b Ha Hb. specialize (Hpt (S k) a b Ha Hb).
    by replace (S i + k)%nat with (i + S k)%nat by lia.
Qed.

(** X7.  In an Altair summary each unslashed stake is the sum of the
    cached effective balances of the validators that are not slashed and
    have the participation bit in question, or one increment if that sum is
    smaller: source, target and head of the previous epoch and target of
    the current epoch. *)
Theorem beforeProcessEpoch_unslashed_stakes_altair state ep :
  flagsIndependent ->
  getForkName (config state) (slot state) = altair ->
  beforeProcessEpoch state = Some ep ->
  let stake (bit : ParticipationStatus -> bool) (participation : list ParticipationStatus) :=
    Z.max EFFECTIVE_BALANCE_INCREMENT
      (sumAt (fun i v =>
                if negb (slashed v) && from_option bit false (participation !! i)
                then default 0 (effectiveBalances (epochCtx state) !! i) else 0)
             0 (validators state)) in
  prevEpochUnslashedStake_sourceStake ep
    = stake timelySource (previousEpochParticipation state)
  /\ prevEpochUnslashedStake_targetStake ep
    = stake timelyTarget (previousEpochParticipation state)
  /\ prevEpochUnslashedStake_headStake ep
    = stake timelyHead (previousEpochParticipation state)
  /\ currEpochUnslashedTargetStake ep
    = stake timelyTarget (currentEpochParticipation state).
Proof.
  intros Hind Hfork Hrun stake.
  destruct (beforeProcessEpoch_fields _ _ Hrun)
    as (_ & _ & _ & _ & _ & _ & sums & -> & -> & -> & -> & Hloop).
  destruct (stakeLoop_sums _ _ _ _ _ Hloop) as (-> & -> & -> & ->).
  cbn [prevSourceUnslStake prevTargetUnslStake prevHeadUnslStake currTargetUnslStake].
  assert (Hlen : length (statusesFlat ep) = length (validators state)).
  { rewrite <- (scanValidators_statuses_length state). symmetry.
    eapply Forall2_length.
    apply (beforeProcessEpoch_statuses_altair state ep FLAG_UNSLASHED Hfork); [|done].
    destruct Hind as [_ Hdisj].
    repeat constructor.
    - by eapply (Hdisj 2%nat 0%nat).
    - by eapply (Hdisj 3%nat 0%nat).
    - by eapply (Hdisj 4%nat 0%nat).
    - by eapply (Hdisj 5%nat 0%nat).
    - by eapply (Hdisj 6%nat 0%nat).
    - by eapply (Hdisj 7%nat 0%nat). }
  assert (Hmax : forall x, floorAt EFFECTIVE_BALANCE_INCREMENT (0 + x)
                           = Z.max EFFECTIVE_BALANCE_INCREMENT x).
  { intros x. unfold floorAt. destruct (Z.ltb_spec (0 + x) EFFECTIVE_BALANCE_INCREMENT); lia. }
  subst stake. cbv beta. rewrite !Hmax.
  repeat split; f_equal; (apply sumAt_pointwise; [done|]);
    intros k st v Hst Hv; cbn [Nat.add];
    destruct (beforeProcessEpoch_markers_altair _ _ _ _ Hind Hfork Hrun Hv)
      as (st' & Hst' & _ & Hu & _ & Hps & Hpt & Hph & _ & Hct & _);
    rewrite Hst in Hst'; injection Hst' as <-;
    rewrite hasMarkers_lor_markers, Hu, ?Hps, ?Hpt, ?Hph, ?Hct;
    by rewrite andb_comm.
Qed.

End FurtherSummaryFacts.

(** ** Further properties of the slashing penalties *)

Section FurtherSlashingsFacts.
Context `{Params} `{SszTypes}.

(** The calls of [decreaseBalance], one for every entry of
    [indicesToSlash]. *)
Lemma processSlashings_events fork state ep state' trace index delta :
  processSlashingsAllForks fork state ep = Some (state', trace) ->
  DecreaseBalance index delta ∈ trace ->
  index ∈ indicesToSlash ep
  /\ penaltyOf (bigIntMin (sumSlashings (slashings state) * slashingMultiplier fork)
                          (totalActiveStake ep))
               (totalActiveStake ep) EFFECTIVE_BALANCE_INCREMENT
               (effectiveBalances (epochCtx state)) index (DecreaseBalance index delta).
Proof.
  intros Hrun Hin. unfold processSlashingsAllForks in Hrun.
  destruct (length (indicesToSlash ep) =? 0)%nat.
  { injection Hrun as _ <-. by apply not_elem_of_nil in Hin. }
  apply slashLoop_trace in Hrun as (_ & _ & events & -> & Hall).
  apply elem_of_cons in Hin as [Hin|Hin]; [discriminate|].
  apply list_elem_of_lookup in Hin as [k Hk].
  destruct (Forall2_lookup_r _ _ _ _ _ Hall Hk) as (i & Hi & Hpen).
  pose proof Hpen as (eb & q & r & _ & _ & _ & He). injection He as -> ->.
  split; [by eapply list_elem_of_lookup_2|].
  unfold slashingMultiplier. by destruct fork.
Qed.

Lemma adjusted_nonneg fork state ep :
  0 < totalActiveStake ep ->
  0 <= slashingMultiplier fork ->
  Forall (Z.le 0) (slashings state) ->
  0 <= bigIntMin (sumSlashings (slashings state) * slashingMultiplier fork)
                 (totalActiveStake ep).
Proof.
  intros Htot Hmult Hsl. rewrite bigIntMin_min, sumSlashings_spec.
  pose proof (spec_total_slashings_nonneg _ Hsl). apply Z.min_glb; [nia|lia].
Qed.

(** X8.  Every amount that [processSlashingsAllForks] takes from a balance
    is a whole number of increments and is not negative. *)
Theorem processSlashings_penalty_whole_increments
    fork state ep state' trace index delta :
  0 < EFFECTIVE_BALANCE_INCREMENT ->
  0 < totalActiveStake ep ->
  0 <= slashingMultiplier fork ->
  Forall (Z.le 0) (slashings state) ->
  Forall (Z.le 0) (effectiveBalances (epochCtx state)) ->
  processSlashingsAllForks fork state ep = Some (state', trace) ->
  DecreaseBalance index delta ∈ trace ->
  0 <= delta /\ delta mod EFFECTIVE_BALANCE_INCREMENT = 0.
Proof.
  intros Hinc Htot Hmult Hsl Hebs Hrun Hin.
  destruct (processSlashings_events _ _ _ _ _ _ _ Hrun Hin)
    as (_ & eb & q & r & Heb & Hq & Hr & He).
  injection He as ->.
  pose proof (adjusted_nonneg fork state ep Htot Hmult Hsl) as Hadj.
  assert (0 <= eb) as Heb0 by (eapply (Forall_lookup_1 (Z.le 0)); eauto).
  rewrite bigint_div_floor in Hq by lia. injection Hq as <-.
  assert (0 <= eb / EFFECTIVE_BALANCE_INCREMENT) by (apply Z.div_pos; lia).
  rewrite bigint_div_floor in Hr by nia. injection Hr as <-.
  split; [|apply Z.mod_mul; lia].
  apply Z.mul_nonneg_nonneg; [|lia]. apply Z.div_pos; [nia|lia].
Qed.

(** X9.  When the slashings of the vector, times the multiplier, reach
    the total active stake, a slashed validator loses its whole effective
    balance (down to the last full increment). *)
Theorem processSlashings_full_penalty fork state ep state' trace index delta :
  0 < EFFECTIVE_BALANCE_INCREMENT ->
  0 < totalActiveStake ep ->
  Forall (Z.le 0) (effectiveBalances (epochCtx state)) ->
  totalActiveStake ep
    <= spec_total_slashings (slashings state) * slashingMultiplier fork ->
  processSlashingsAllForks fork state ep = Some (state', trace) ->
  DecreaseBalance index delta ∈ trace ->
  exists eb,
    effectiveBalances (epochCtx state) !! index = Some eb
    /\ delta = eb - eb mod EFFECTIVE_BALANCE_INCREMENT.
Proof.
  intros Hinc Htot Hebs Hfull Hrun Hin.
  destruct (processSlashings_events _ _ _ _ _ _ _ Hrun Hin)
    as (_ & eb & q & r & Heb & Hq & Hr & He).
  injection He as ->. exists eb. split; [done|].
  assert (0 <= eb) as Heb0 by (eapply (Forall_lookup_1 (Z.le 0)); eauto).
  rewrite bigint_div_floor in Hq by lia. injection Hq as <-.
  rewrite bigIntMin_min, sumSlashings_spec, Z.min_r in Hr by lia.
  apply bigint_div_Some in Hr as [_ ->].
  rewrite Z.quot_mul by lia.
  rewrite Z.mod_eq by lia. ring.
Qed.

(** X10.  On the same state and summary, with a multiplier for Altair
    that is at least the one of phase 0, every validator is penalised in
    Altair by at least the amount of phase 0. *)
Theorem processSlashings_altair_at_least_phase0 state ep state0 trace0 state1 trace1 :
  0 < EFFECTIVE_BALANCE_INCREMENT ->
  0 < totalActiveStake ep ->
  Forall (Z.le 0) (slashings state) ->
  Forall (Z.le 0) (effectiveBalances (epochCtx state)) ->
  PROPORTIONAL_SLASHING_MULTIPLIER <= PROPORTIONAL_SLASHING_MULTIPLIER_ALTAIR ->
  processSlashingsAllForks phase0 state ep = Some (state0, trace0) ->
  processSlashingsAllForks altair state ep = Some (state1, trace1) ->
  Forall2 (fun e0 e1 =>
             match e0, e1 with
             | ReadSlashings, ReadSlashings => True
             | DecreaseBalance i0 d0, DecreaseBalance i1 d1 => i0 = i1 /\ d0 <= d1
             | _, _ => False
             end) trace0 trace1.
Proof.
  intros Hinc Htot Hsl Hebs Hmult Hrun0 Hrun1.
  unfold processSlashingsAllForks in Hrun0, Hrun1.
  destruct (length (indicesToSlash ep) =? 0)%nat.
  { injection Hrun0 as _ <-. injection Hrun1 as _ <-. constructor. }
  apply slashLoop_trace in Hrun0 as (_ & _ & events0 & -> & Hall0).
  apply slashLoop_trace in Hrun1 as (_ & _ & events1 & -> & Hall1).
  constructor; [done|].
  eapply Forall2_trans; [|apply Forall2_flip; exact Hall0|exact Hall1].
  intros e0 i e1 (eb & q & r & Heb & Hq & Hr & ->) (eb' & q' & r' & Heb' & Hq' & Hr' & ->).
  cbv [flip] in *. rewrite Heb in Heb'. injection Heb' as <-.
  rewrite Hq in Hq'. injection Hq' as <-.
  split; [done|].
  assert (0 <= eb) as Heb0 by (eapply (Forall_lookup_1 (Z.le 0)); eauto).
  rewrite bigint_div_floor in Hq by lia. injection Hq as <-.
  apply bigint_div_Some in Hr as [_ ->]. apply bigint_div_Some in Hr' as [_ ->].
  assert (0 <= eb / EFFECTIVE_BALANCE_INCREMENT) by (apply Z.div_pos; lia).
  pose proof (spec_total_slashings_nonneg _ Hsl) as Hsum.
  rewrite <- sumSlashings_spec in Hsum.
  apply Z.mul_le_mono_nonneg_r; [lia|].
  apply Z.quot_le_mono; [lia|].
  apply Z.mul_le_mono_nonneg_l; [done|].
  rewrite !bigIntMin_min. apply Z.min_le_compat_r. nia.
Qed.

Lemma slashLoop_missing adjusted totalBalance increment indices :
  forall state trace index,
    index ∈ indices ->
    effectiveBalances (epochCtx state) !! index = None ->
    slashLoop adjusted totalBalance increment indices state trace = None.
Proof.
  induction indices as [|i rest IH]; intros state trace index Hin Hnone.
  - by apply not_elem_of_nil in Hin.
  - cbn [slashLoop].
    destruct (slashIndex adjusted totalBalance increment state i)
      as [[s1 penalty]|] eqn:Hstep; [|done].
    cbn [mbind option_bind].
    apply elem_of_cons in Hin as [->|Hin].
    + unfold slashIndex in Hstep. rewrite Hnone in Hstep. discriminate.
    + apply (IH _ _ index Hin).
      apply slashIndex_frame in Hstep as [-> _]. done.
Qed.

(** X11.  With somebody to slash, [processSlashingsAllForks] throws if
    the total active stake or the increment is zero (a division by zero),
    or if an index to slash has no cached effective balance. *)
Theorem processSlashings_throws fork state ep :
  indicesToSlash ep <> [] ->
  totalActiveStake ep = 0
  \/ EFFECTIVE_BALANCE_INCREMENT = 0
  \/ (exists index, index ∈ indicesToSlash ep
                    /\ effectiveBalances (epochCtx state) !! index = None) ->
  processSlashingsAllForks fork state ep = None.
Proof.
  intros Hne Hbad. unfold processSlashingsAllForks.
  destruct (indicesToSlash ep) as [|i rest] eqn:Hidx; [done|].
  cbn [length Nat.eqb].
  destruct Hbad as [Htot|[Hinc|(index & Hin & Hnone)]].
  - cbn [slashLoop]. unfold slashIndex.
    destruct (effectiveBalances (epochCtx state) !! i) as [eb|]; [|done].
    cbn [mbind option_bind].
    destruct (bigint_div eb EFFECTIVE_BALANCE_INCREMENT) as [q|]; [|done].
    cbn [mbind option_bind]. unfold bigint_div at 1. by rewrite Htot.
  - cbn [slashLoop]. unfold slashIndex.
    destruct (effectiveBalances (epochCtx state) !! i) as [eb|]; [|done].
    cbn [mbind option_bind]. unfold bigint_div at 1. by rewrite Hinc.
  - by eapply slashLoop_missing.
Qed.

End FurtherSlashingsFacts.

(** ** The processors on the summary of their own state *)

Section FurtherCompositionFacts.
Context `{Params} `{AttesterFlags} `{SszTypes} `{!Util}.

(** X12.  The sequence of the epoch slashings test, [beforeProcessEpoch]
    and then [processSlashingsAllForks] on the same state: when the cached
    effective balances and the balances cover the validators, the second
    call does not throw, and it penalises only validators that are slashed
    and become withdrawable [EPOCHS_PER_SLASHINGS_VECTOR / 2] epochs after
    the current one. *)
Theorem processSlashings_after_beforeProcessEpoch fork state ep :
  0 < EFFECTIVE_BALANCE_INCREMENT ->
  (length (validators state) <= length (effectiveBalances (epochCtx state)))%nat ->
  (length (validators state) <= length (balances state))%nat ->
  beforeProcessEpoch state = Some ep ->
  exists state' trace,
    processSlashingsAllForks fork state ep = Some (state', trace)
    /\ forall index delta,
         DecreaseBalance index delta ∈ trace ->
         exists v,
           validators state !! index = Some v
           /\ slashed v = true
           /\ withdrawableEpoch v =
              currentShuffling_epoch (epochCtx state) + EPOCHS_PER_SLASHINGS_VECTOR / 2.
Proof.
  intros Hinc Hebs Hbal Hrun.
  pose proof (beforeProcessEpoch_fields _ _ Hrun) as (Hslash & _ & _ & _ & _ & Htot & _).
  destruct (scanValidators_fields state) as (Hidx & _).
  rewrite Hidx in Hslash.
  assert (Hmember : forall i, i ∈ indicesToSlash ep ->
            exists v, validators state !! i = Some v /\ slashed v = true
                      /\ withdrawableEpoch v =
                         currentShuffling_epoch (epochCtx state)
                         + EPOCHS_PER_SLASHINGS_VECTOR / 2).
  { intros i. rewrite Hslash, elem_of_indicesWhere_0.
    intros (v & Hv & [Hs Hw%Z.eqb_eq]%andb_true_iff). exists v. by repeat split. }
  destruct (processSlashings_returns fork state ep) as [[state' trace] Hres].
  - lia.
  - rewrite Htot.
    pose proof (floorAt_ge EFFECTIVE_BALANCE_INCREMENT
                  (sc_totalActiveStake (scanValidators state))). lia.
  - apply Forall_forall. intros i (v & Hv%lookup_lt_Some & _)%Hmember. lia.
  - exists state', trace. split; [done|].
    intros index delta Hin. apply Hmember.
    by destruct (processSlashings_events _ _ _ _ _ _ _ Hres Hin).
Qed.

End FurtherCompositionFacts.

(** ** Further properties of the registry updates *)

Section FurtherRegistryFacts.
Context `{Params} `{AttesterFlags} `{SszTypes} `{!Util}.

Lemma eligibilityLoop_lookup epoch indices :
  forall vs vs',
    eligibilityLoop epoch indices vs = Some vs' ->
    (forall j, j ∈ indices -> is_Some (vs !! j))
    /\ forall j,
         vs' !! j =
         if decide (j ∈ indices)
         then with_activationEligibilityEpoch (epoch + 1) <$> vs !! j
         else vs !! j.
Proof.
  induction indices as [|index rest IH]; intros vs vs' Hrun; cbn [eligibilityLoop] in Hrun.
  - injection Hrun as <-. split.
    + intros j Hj. by apply not_elem_of_nil in Hj.
    + intros j. by rewrite decide_False by apply not_elem_of_nil.
  - destruct (list_update vs index _) as [vs1|] eqn:Hupd; [|discriminate].
    cbn [mbind option_bind] in Hrun.
    apply list_update_Some in Hupd as (x & Hx & ->).
    apply IH in Hrun as [Hthere Hwrite]. split.
    + intros j [->|Hj]%elem_of_cons; [by eexists|].
      apply Hthere in Hj. apply lookup_lt_is_Some in Hj.
      apply lookup_lt_is_Some. by rewrite length_insert in Hj.
    + intros j. rewrite Hwrite.
      destruct (decide (j = index)) as [->|Hne].
      * rewrite (decide_True (P := index ∈ index :: rest))
          by (apply elem_of_cons; by left).
        rewrite list_lookup_insert_eq by by eapply lookup_lt_Some.
        rewrite Hx. by destruct (decide (index ∈ rest)).
      * rewrite list_lookup_insert_ne by done.
        destruct (decide (j ∈ rest)) as [Hin|Hout].
        -- by rewrite decide_True by (apply elem_of_cons; by right).
        -- rewrite decide_False; [done|]. intros [?|?]%elem_of_cons; done.
Qed.

(** A field that a loop does not assign is the same after the loop. *)
Lemma eligibilityLoop_keeps {A} (f : Validator -> A) epoch indices :
  (forall e v, f (with_activationEligibilityEpoch e v) = f v) ->
  forall vs vs',
    eligibilityLoop epoch indices vs = Some vs' -> f <$> vs' = f <$> vs.
Proof.
  intros Hf.
  induction indices as [|index rest IH]; intros vs vs' Hrun; cbn [eligibilityLoop] in Hrun.
  - by injection Hrun as <-.
  - destruct (list_update vs index _) as [vs1|] eqn:Hupd; [|discriminate].
    cbn [mbind option_bind] in Hrun. apply IH in Hrun as ->.
    apply list_update_Some in Hupd as (x & Hx & ->).
    rewrite list_fmap_insert, Hf.
    apply list_insert_id. by rewrite list_lookup_fmap, Hx.
Qed.

Lemma activationLoop_keeps {A} (f : Validator -> A) snapshot finalityEpoch current indices :
  (forall e v, f (with_activationEpoch e v) = f v) ->
  forall vs vs',
    activationLoop snapshot finalityEpoch current indices vs = Some vs' ->
    f <$> vs' = f <$> vs.
Proof.
  intros Hf.
  induction indices as [|index rest IH]; intros vs vs' Hrun; cbn [activationLoop] in Hrun.
  - by injection Hrun as <-.
  - destruct snapshot as [snap|]; [|discriminate]. cbn [mbind option_bind] in Hrun.
    destruct (snap !! index) as [v|]; [|discriminate]. cbn [mbind option_bind] in Hrun.
    destruct (activationEligibilityEpoch v >? finalityEpoch); [by injection Hrun as <-|].
    destruct (list_update vs index _) as [vs1|] eqn:Hupd; [|discriminate].
    cbn [mbind option_bind] in Hrun. apply IH in Hrun as ->.
    apply list_update_Some in Hupd as (x & Hx & ->).
    rewrite list_fmap_insert, Hf.
    apply list_insert_id. by rewrite list_lookup_fmap, Hx.
Qed.

(** The state after the three loops, in terms of the state after the
    ejections. *)
Lemma processRegistryUpdates_stages state ep state' :
  processRegistryUpdates state ep = Some state' ->
  exists state1 validators1,
    ejectLoop (indicesToEject ep) state = Some state1
    /\ eligibilityLoop (currentShuffling_epoch (epochCtx state1))
         (indicesEligibleForActivationQueue ep) (validators state1) = Some validators1
    /\ activationLoop (ep_validators ep) (finalizedCheckpoint_epoch state1) (currentEpoch ep)
         (take (churnLimit (epochCtx state1)) (indicesEligibleForActivation ep))
         validators1 = Some (validators state')
    /\ state' = set_validators state1 (validators state').
Proof.
  intros Hrun. unfold processRegistryUpdates in Hrun.
  destruct (ejectLoop _ state) as [state1|] eqn:Heject; [|discriminate].
  cbn [mbind option_bind] in Hrun.
  destruct (eligibilityLoop _ _ _) as [validators1|] eqn:Helig; [|discriminate].
  cbn [mbind option_bind] in Hrun.
  destruct (activationLoop _ _ _ _ _) as [validators2|] eqn:Hact; [|discriminate].
  cbn [mbind option_bind] in Hrun. injection Hrun as <-.
  exists state1, validators1. by repeat split.
Qed.

(** X13.  After [processRegistryUpdates] every validator of
    [indicesEligibleForActivationQueue] has [activationEligibilityEpoch]
    equal to the current shuffling epoch plus one, and the eligibility
    epoch of every other validator is the one it had after the ejections:
    the activation loop that follows does not touch the field. *)
Theorem processRegistryUpdates_eligibility state ep state' :
  processRegistryUpdates state ep = Some state' ->
  exists state1,
    ejectLoop (indicesToEject ep) state = Some state1
    /\ (forall j,
          j ∈ indicesEligibleForActivationQueue ep ->
          exists v',
            validators state' !! j = Some v'
            /\ activationEligibilityEpoch v'
               = currentShuffling_epoch (epochCtx state1) + 1)
    /\ (forall j,
          j ∉ indicesEligibleForActivationQueue ep ->
          activationEligibilityEpoch <$> validators state' !! j
          = activationEligibilityEpoch <$> validators state1 !! j).
Proof.
  intros Hrun.
  destruct (processRegistryUpdates_stages _ _ _ Hrun)
    as (state1 & validators1 & Heject & Helig & Hact & _).
  exists state1. split; [done|].
  apply (activationLoop_keeps activationEligibilityEpoch) in Hact; [|done].
  apply eligibilityLoop_lookup in Helig as [Hthere Hwrite].
  assert (Hae : forall j, activationEligibilityEpoch <$> validators state' !! j
                          = activationEligibilityEpoch <$> validators1 !! j).
  { intros j. by rewrite <- !list_lookup_fmap, Hact. }
  split.
  - intros j Hj. destruct (Hthere j Hj) as [v Hv].
    specialize (Hae j). rewrite Hwrite, decide_True, Hv in Hae by done.
    destruct (validators state' !! j) as [v'|]; [|discriminate].
    exists v'. split; [done|]. by injection Hae.
  - intros j Hj. by rewrite Hae, Hwrite, decide_False.
Qed.

(** X14.  The two loops of [processRegistryUpdates] after the ejections
    assign nothing but [activationEligibilityEpoch] and [activationEpoch]:
    effective balance, [slashed], exit epoch and withdrawable epoch of
    every validator, the number of validators and everything of the state
    but its validators are as the ejections left them. *)
Theorem processRegistryUpdates_frame state ep state' :
  processRegistryUpdates state ep = Some state' ->
  exists state1,
    ejectLoop (indicesToEject ep) state = Some state1
    /\ state' = set_validators state1 (validators state')
    /\ length (validators state') = length (validators state1)
    /\ (fun v => (effectiveBalance v, slashed v, exitEpoch v, withdrawableEpoch v))
         <$> validators state'
       = (fun v => (effectiveBalance v, slashed v, exitEpoch v, withdrawableEpoch v))
         <$> validators state1.
Proof.
  intros Hrun.
  destruct (processRegistryUpdates_stages _ _ _ Hrun)
    as (state1 & validators1 & Heject & Helig & Hact & Hstate).
  exists state1. split; [done|]. split; [done|].
  pose proof (activationLoop_keeps
                (fun v => (effectiveBalance v, slashed v, exitEpoch v, withdrawableEpoch v))
                _ _ _ _ ltac:(done) _ _ Hact) as Hk2.
  pose proof (eligibilityLoop_keeps
                (fun v => (effectiveBalance v, slashed v, exitEpoch v, withdrawableEpoch v))
                _ _ ltac:(done) _ _ Helig) as Hk1.
  split; [|by rewrite Hk2, Hk1].
  apply (f_equal length) in Hk1, Hk2. rewrite !length_fmap in Hk1, Hk2. lia.
Qed.

Lemma activationLoop_no_snapshot finalityEpoch current indices vs vs' :
  activationLoop None finalityEpoch current indices vs = Some vs' -> vs' = vs.
Proof. destruct indices; cbn [activationLoop]; [by intros [= <-]|discriminate]. Qed.

(** X15.  [processRegistryUpdates] on the state a summary was built from
    never gives a new activation epoch to a validator that has one: if
    [activationEpoch] is not [FAR_FUTURE_EPOCH] before, it is the same
    after (provided [initiateValidatorExit] leaves activation epochs
    alone). *)
Theorem processRegistryUpdates_no_second_activation state ep0 ep state' j v :
  beforeProcessEpoch state = Some ep0 ->
  indicesEligibleForActivation ep = indicesEligibleForActivation ep0 ->
  (forall s index s',
     initiateValidatorExit s index = Some s' ->
     activationEpoch <$> validators s' = activationEpoch <$> validators s) ->
  processRegistryUpdates state ep = Some state' ->
  validators state !! j = Some v ->
  activationEpoch v <> FAR_FUTURE_EPOCH ->
  exists v', validators state' !! j = Some v' /\ activationEpoch v' = activationEpoch v.
Proof.
  intros Hsummary Hlist Hexit Hrun Hv Hactive.
  assert (Hout : j ∉ indicesEligibleForActivation ep).
  { rewrite Hlist.
    destruct (beforeProcessEpoch_fields _ _ Hsummary) as (_ & _ & -> & _).
    destruct (scanValidators_fields state) as (_ & _ & -> & _).
    rewrite sortBy_Permutation, elem_of_indicesWhere_0.
    intros (w & Hw & Htest). rewrite Hv in Hw. injection Hw as <-.
    apply andb_true_iff in Htest as [_ Htest].
    unfold isEligibleForActivation in Htest.
    apply andb_true_iff in Htest as [Hfar%Z.eqb_eq _]. done. }
  destruct (processRegistryUpdates_stages _ _ _ Hrun)
    as (state1 & validators1 & Heject & Helig & Hact & _).
  assert (Hsame1 : activationEpoch <$> validators state1 = activationEpoch <$> validators state).
  { clear -Hexit Heject. revert state Heject.
    induction (indicesToEject ep) as [|index rest IH]; intros state Heject;
      cbn [ejectLoop] in Heject; [by injection Heject as <-|].
    destruct (initiateValidatorExit state index) as [s1|] eqn:Hs1; [|discriminate].
    cbn [mbind option_bind] in Heject. rewrite (IH _ Heject). by eapply Hexit. }
  apply (eligibilityLoop_keeps activationEpoch) in Helig; [|done].
  assert (Hv1 : activationEpoch <$> validators1 !! j = Some (activationEpoch v)).
  { by rewrite <- list_lookup_fmap, Helig, Hsame1, list_lookup_fmap, Hv. }
  assert (Hfinal : validators state' !! j = validators1 !! j).
  { destruct (ep_validators ep) as [snap|].
    - apply activationLoop_prefix in Hact as (k & _ & _ & _ & Hwrite & _).
      rewrite Hwrite, decide_False; [done|].
      intros Hin. apply Hout.
      apply elem_of_take in Hin as (n & Hn & _).
      apply list_elem_of_lookup_2, elem_of_take in Hn as (m & Hm & _).
      by eapply list_elem_of_lookup_2.
    - by rewrite (activationLoop_no_snapshot _ _ _ _ _ Hact). }
  rewrite Hfinal.
  destruct (validators1 !! j) as [v1|]; [|discriminate].
  exists v1. split; [done|]. by injection Hv1.
Qed.

End FurtherRegistryFacts.

(** ** Further properties of the effective balance updates *)

Section FurtherEffectiveBalanceFacts.
Context `{Params} `{SszTypes}.

Lemma processEffectiveBalanceUpdates_stages state ep state' :
  processEffectiveBalanceUpdates state ep = Some state' ->
  exists h,
    bigint_div EFFECTIVE_BALANCE_INCREMENT HYSTERESIS_QUOTIENT = Some h
    /\ effectiveBalanceLoop (h * HYSTERESIS_DOWNWARD_MULTIPLIER)
         (h * HYSTERESIS_UPWARD_MULTIPLIER) (ep_validators ep) 0%nat
         (default (balances state) (ep_balances ep)) (validators state)
       = Some (validators state')
    /\ state' = set_validators state (validators state').
Proof.
  unfold processEffectiveBalanceUpdates. intros Hrun.
  destruct (bigint_div _ _) as [h|]; [|discriminate]. cbn [mbind option_bind] in Hrun.
  destruct (effectiveBalanceLoop _ _ _ _ _ _) as [vs'|] eqn:Hloop; [|discriminate].
  cbn [mbind option_bind] in Hrun. injection Hrun as <-.
  exists h. by repeat split.
Qed.

(** X16.  [processEffectiveBalanceUpdates] assigns nothing but effective
    balances: the other fields of every validator, the number of
    validators and everything of the state but its validators are
    unchanged. *)
Theorem processEffectiveBalanceUpdates_frame state ep state' :
  processEffectiveBalanceUpdates state ep = Some state' ->
  state' = set_validators state (validators state')
  /\ length (validators state') = length (validators state)
  /\ (fun v => (slashed v, activationEligibilityEpoch v, activationEpoch v,
                exitEpoch v, withdrawableEpoch v)) <$> validators state'
     = (fun v => (slashed v, activationEligibilityEpoch v, activationEpoch v,
                  exitEpoch v, withdrawableEpoch v)) <$> validators state.
Proof.
  intros Hrun.
  destruct (processEffectiveBalanceUpdates_stages _ _ _ Hrun) as (h & _ & Hloop & Hstate).
  split; [done|].
  split; [by eapply effectiveBalanceLoop_length|].
  apply effectiveBalanceLoop_lookup in Hloop as [Hout Hin].
  apply list_eq. intros j. rewrite !list_lookup_fmap.
  destruct (default (balances state) (ep_balances ep) !! j) as [b|] eqn:Hb.
  - rewrite <- (Nat.sub_0_r j) in Hb.
    destruct (Hin j b ltac:(lia) Hb) as (snap & sv & _ & _ & ->).
    destruct (validators state !! j) as [v|]; [|done].
    cbn [fmap option_fmap option_map]. by destruct (needsUpdate _ _ _ _).
  - apply lookup_ge_None in Hb. rewrite Hout by (right; simpl; lia). done.
Qed.

Lemma effectiveBalanceLoop_noop D U snap balances :
  forall i0 vs,
    (forall k b, balances !! k = Some b ->
                 exists sv, snap !! (i0 + k)%nat = Some sv
                            /\ needsUpdate D U (effectiveBalance sv) b = false) ->
    effectiveBalanceLoop D U (Some snap) i0 balances vs = Some vs.
Proof.
  induction balances as [|b rest IH]; intros i0 vs Hband; cbn [effectiveBalanceLoop];
    [done|].
  cbn [mbind option_bind].
  destruct (Hband 0%nat b eq_refl) as (sv & Hsv & Hno).
  rewrite Nat.add_0_r in Hsv. rewrite Hsv. cbn [mbind option_bind].
  rewrite Hno. cbn [mbind option_bind].
  apply IH. intros k b' Hk.
  destruct (Hband (S k) b' Hk) as (sv' & Hsv' & Hno').
  exists sv'. split; [|done]. by replace (S i0 + k)%nat with (i0 + S k)%nat by lia.
Qed.

(** After a pass whose snapshot is the validators of the state, no
    validator needs an update any more. *)
Lemma processEffectiveBalanceUpdates_settled state ep state' i b :
  0 < EFFECTIVE_BALANCE_INCREMENT ->
  0 < HYSTERESIS_QUOTIENT ->
  0 <= EFFECTIVE_BALANCE_INCREMENT / HYSTERESIS_QUOTIENT * HYSTERESIS_DOWNWARD_MULTIPLIER ->
  EFFECTIVE_BALANCE_INCREMENT
    <= EFFECTIVE_BALANCE_INCREMENT / HYSTERESIS_QUOTIENT * HYSTERESIS_UPWARD_MULTIPLIER ->
  ep_validators ep = Some (validators state) ->
  processEffectiveBalanceUpdates state ep = Some state' ->
  default (balances state) (ep_balances ep) !! i = Some b ->
  0 <= b ->
  exists v',
    validators state' !! i = Some v'
    /\ needsUpdate
         (EFFECTIVE_BALANCE_INCREMENT / HYSTERESIS_QUOTIENT * HYSTERESIS_DOWNWARD_MULTIPLIER)
         (EFFECTIVE_BALANCE_INCREMENT / HYSTERESIS_QUOTIENT * HYSTERESIS_UPWARD_MULTIPLIER)
         (effectiveBalance v') b = false.
Proof.
  intros Hinc Hq HD HU Hsnap Hrun Hb Hb0.
  destruct (processEffectiveBalanceUpdates_stages _ _ _ Hrun) as (h & Hh & Hloop & _).
  rewrite bigint_div_floor in Hh by lia. injection Hh as <-.
  apply effectiveBalanceLoop_lookup in Hloop as [_ Hin].
  rewrite <- (Nat.sub_0_r i) in Hb.
  destruct (Hin i b ltac:(lia) Hb) as (snap & sv & Hsnap' & Hsv & Hres).
  rewrite Hsnap in Hsnap'. injection Hsnap' as <-.
  rewrite Hsv in Hres. cbn [fmap option_fmap option_map] in Hres.
  eexists. split; [exact Hres|].
  destruct (needsUpdate _ _ (effectiveBalance sv) b) eqn:Hneeds; [|done].
  cbn [with_effectiveBalance effectiveBalance].
  rewrite bigIntMin_min, Z.rem_mod_nonneg by lia.
  pose proof (Z.mod_pos_bound b EFFECTIVE_BALANCE_INCREMENT Hinc).
  apply not_true_is_false. rewrite needsUpdate_spec. lia.
Qed.

(** X17.  After a pass of [processEffectiveBalanceUpdates] whose snapshot
    is the validators of the state, every effective balance [e] lies in
    the hysteresis band of its balance [b]: [e <= b + D], and [e >= b - U]
    unless [e] is at [MAX_EFFECTIVE_BALANCE] or above (for [D >= 0] and
    [U >= increment]). *)
Theorem processEffectiveBalanceUpdates_within_band state ep state' i b v' :
  0 < EFFECTIVE_BALANCE_INCREMENT ->
  0 < HYSTERESIS_QUOTIENT ->
  let D := EFFECTIVE_BALANCE_INCREMENT / HYSTERESIS_QUOTIENT * HYSTERESIS_DOWNWARD_MULTIPLIER in
  let U := EFFECTIVE_BALANCE_INCREMENT / HYSTERESIS_QUOTIENT * HYSTERESIS_UPWARD_MULTIPLIER in
  0 <= D ->
  EFFECTIVE_BALANCE_INCREMENT <= U ->
  ep_validators ep = Some (validators state) ->
  processEffectiveBalanceUpdates state ep = Some state' ->
  default (balances state) (ep_balances ep) !! i = Some b ->
  0 <= b ->
  validators state' !! i = Some v' ->
  effectiveBalance v' <= b + D
  /\ (MAX_EFFECTIVE_BALANCE <= effectiveBalance v' \/ b - U <= effectiveBalance v').
Proof.
  intros Hinc Hq D U HD HU Hsnap Hrun Hb Hb0 Hv'.
  destruct (processEffectiveBalanceUpdates_settled state ep state' i b
              Hinc Hq HD HU Hsnap Hrun Hb Hb0) as (w & Hw & Hno).
  rewrite Hv' in Hw. injection Hw as <-.
  apply not_true_iff_false in Hno. rewrite needsUpdate_spec in Hno.
  fold D U in Hno. lia.
Qed.

(** X18.  A second pass right after the first, with the snapshot taken
    from the updated validators, changes nothing: the pass is idempotent
    (for non-negative balances, [D >= 0] and [U >= increment]). *)
Theorem processEffectiveBalanceUpdates_idempotent state ep state' :
  0 < EFFECTIVE_BALANCE_INCREMENT ->
  0 < HYSTERESIS_QUOTIENT ->
  0 <= EFFECTIVE_BALANCE_INCREMENT / HYSTERESIS_QUOTIENT * HYSTERESIS_DOWNWARD_MULTIPLIER ->
  EFFECTIVE_BALANCE_INCREMENT
    <= EFFECTIVE_BALANCE_INCREMENT / HYSTERESIS_QUOTIENT * HYSTERESIS_UPWARD_MULTIPLIER ->
  Forall (Z.le 0) (default (balances state) (ep_balances ep)) ->
  ep_validators ep = Some (validators state) ->
  processEffectiveBalanceUpdates state ep = Some state' ->
  processEffectiveBalanceUpdates state' (withSnapshot ep (validators state')) = Some state'.
Proof.
  intros Hinc Hq HD HU Hbs Hsnap Hrun.
  destruct (processEffectiveBalanceUpdates_stages _ _ _ Hrun) as (h & Hh & _ & Hstate).
  unfold processEffectiveBalanceUpdates at 1. rewrite Hh. cbn [mbind option_bind].
  rewrite bigint_div_floor in Hh by lia. injection Hh as <-.
  cbn [ep_validators ep_balances withSnapshot].
  assert (Hbal : balances state' = balances state) by (by rewrite Hstate).
  rewrite Hbal, effectiveBalanceLoop_noop.
  - cbn [mbind option_bind]. f_equal. rewrite Hstate at 1. by destruct state.
  - intros k b Hk. rewrite Nat.add_0_l.
    assert (0 <= b) as Hb0 by (eapply (Forall_lookup_1 (Z.le 0)); eauto).
    destruct (processEffectiveBalanceUpdates_settled state ep state' k b
                Hinc Hq HD HU Hsnap Hrun Hk Hb0) as (v' & Hv' & Hno).
    by exists v'.
Qed.

End FurtherEffectiveBalanceFacts.

(** ** The JSON RPC client *)

(** X19.  [parseJsonRpcErrorCode] never answers ["Server error"]: no code
    is both at least -32000 and at most -32099, so the codes of the server
    error range, -32099 to -32000, are reported as unknown. *)
Theorem parseJsonRpcErrorCode_never_server_error code :
  parseJsonRpcErrorCode code <> "Server error"
  /\ (-32099 <= code <= -32000 ->
      parseJsonRpcErrorCode code = "Unknown error code " +:+ pretty code).
Proof.
  unfold parseJsonRpcErrorCode.
  destruct (Z.eqb_spec code (-32700)); [split; [done|lia]|].
  destruct (Z.eqb_spec code (-32600)); [split; [done|lia]|].
  destruct (Z.eqb_spec code (-32601)); [split; [done|lia]|].
  destruct (Z.eqb_spec code (-32602)); [split; [done|lia]|].
  destruct (Z.eqb_spec code (-32603)); [split; [done|lia]|].
  destruct (Z.geb_spec code (-32000)); destruct (Z.leb_spec code (-32099));
    cbn [andb]; try lia; split; done.
Qed.

Lemma checkUrls_None i us :
  checkUrls i us = None <-> Forall (fun u => urlMissing u = false) us.
Proof.
  revert i. induction us as [|u us IH]; intros i; cbn [checkUrls].
  - split; [constructor|done].
  - destruct (urlMissing u) eqn:Hu.
    + split; [done|]. intros H. apply Forall_cons in H as [H _]. congruence.
    + rewrite IH. split; [by constructor|]. intros H. by apply Forall_cons in H as [_ H].
Qed.

Lemma checkUrls_first k i us u :
  us !! i = Some u -> urlMissing u = true ->
  (forall j u', (j < i)%nat -> us !! j = Some u' -> urlMissing u' = false) ->
  checkUrls k us
  = Some (Error ("JsonRpcHttpClient.urls[" +:+ pretty (k + i)%nat
                 +:+ "] is empty or undefined: " +:+ showUrl u)).
Proof.
  revert k i. induction us as [|u0 us IH]; intros k i Hi Hu Hlt; [done|].
  cbn [checkUrls]. destruct i as [|i].
  - cbn in Hi. injection Hi as ->. rewrite Hu, Nat.add_0_r. done.
  - rewrite (Hlt 0%nat u0) by (done || lia).
    rewrite (IH (S k) i); [|done|done|].
    + by replace (S k + i)%nat with (k + S i)%nat by lia.
    + intros j u' Hj Hju'. apply (Hlt (S j)); [lia|done].
Qed.

(** X20.  The constructor accepts exactly the non-empty lists of URLs none
    of which is undefined or the empty string, and the client it returns
    holds that very list. *)
Theorem newJsonRpcHttpClient_accepts us f client :
  newJsonRpcHttpClient us f = inr client
  <-> us <> [] /\ Forall (fun u => urlMissing u = false) us /\ client = mkClient us f.
Proof.
  unfold newJsonRpcHttpClient. destruct us as [|u us]; [cbn; split; [done|by intros [? _]]|].
  cbn [length Nat.eqb]. destruct (checkUrls 0 (u :: us)) as [e|] eqn:Hc.
  - split; [done|]. intros (_ & H & _). apply checkUrls_None with (i := 0%nat) in H. congruence.
  - apply checkUrls_None in Hc. split.
    + intros [= <-]. done.
    + intros (_ & _ & ->). done.
Qed.

(** X21.  When a URL is missing, the constructor throws the error that
    names the position of the first missing one. *)
Theorem newJsonRpcHttpClient_rejects us f i u :
  us !! i = Some u -> urlMissing u = true ->
  (forall j u', (j < i)%nat -> us !! j = Some u' -> urlMissing u' = false) ->
  newJsonRpcHttpClient us f
  = inl (Error ("JsonRpcHttpClient.urls[" +:+ pretty i
                +:+ "] is empty or undefined: " +:+ showUrl u)).
Proof.
  intros Hi Hu Hlt. unfold newJsonRpcHttpClient.
  destruct us as [|u0 us]; [done|]. cbn [length Nat.eqb].
  by rewrite (checkUrls_first 0 i _ u Hi Hu Hlt).
Qed.

Section JsonRpcFacts.
Context {Req Resp : Type}.
Variable request : string -> Req -> RpcError + Resp.

Lemma fetchJsonLoop_fallsBack client json before rest lastError tried :
  Forall (fallsBack request client json) before ->
  exists lastError',
    fetchJsonLoop request client json (before ++ rest) lastError tried
    = fetchJsonLoop request client json rest lastError' (tried ++ before)
    /\ (before <> [] -> lastError' <> None)
    /\ (before = [] -> lastError' = lastError).
Proof.
  revert lastError tried. induction before as [|b before IH]; intros lastError tried Hall.
  - exists lastError. by rewrite app_nil_r.
  - apply Forall_cons in Hall as [(e & He & Hf) Hall].
    destruct (IH (Some e) (tried ++ [b]) Hall) as (l' & Hrun & Hne & Hnil).
    exists l'. cbn [app fetchJsonLoop]. rewrite He, Hf, Hrun, <- app_assoc.
    split; [done|]. split; [|done]. intros _.
    destruct before as [|b' before]; [by rewrite Hnil|by apply Hne].
Qed.

(** X22.  [fetchJson] returns the response of the first URL whose request
    succeeds, provided the URLs before it failed with errors that allow a
    fallback; the URLs after it are not tried. *)
Theorem fetchJson_first_success client json before u after res :
  urls client = before ++ u :: after ->
  Forall (fallsBack request client json) before ->
  fetchJsonOneUrl request u json = inr res ->
  fetchJson request client json = (before ++ [u], inr res).
Proof.
  intros Hurls Hall Hu. unfold fetchJson. rewrite Hurls.
  destruct (fetchJsonLoop_fallsBack client json before (u :: after) None [] Hall)
    as (l' & -> & _). cbn [fetchJsonLoop]. by rewrite Hu.
Qed.

(** X23.  An error for which [shouldNotFallback] answers true ends
    [fetchJson] at once: it is thrown as it is, and no later URL is tried. *)
Theorem fetchJson_no_fallback client json before u after e f :
  urls client = before ++ u :: after ->
  Forall (fallsBack request client json) before ->
  fetchJsonOneUrl request u json = inl e ->
  shouldNotFallback client = Some f -> f e = true ->
  fetchJson request client json = (before ++ [u], inl e).
Proof.
  intros Hurls Hall Hu Hf Hfe. unfold fetchJson. rewrite Hurls.
  destruct (fetchJsonLoop_fallsBack client json before (u :: after) None [] Hall)
    as (l' & -> & _). cbn [fetchJsonLoop]. by rewrite Hu, Hf; cbn; rewrite Hfe.
Qed.

(** X24.  When the request fails for every URL, [fetchJson] has tried them
    all, in order, and throws the error of the last one. *)
Theorem fetchJson_last_error client json before u e :
  urls client = before ++ [u] ->
  Forall (fallsBack request client json) before ->
  fetchJsonOneUrl request u json = inl e ->
  fetchJson request client json = (urls client, inl e).
Proof.
  intros Hurls Hall Hu. unfold fetchJson. rewrite Hurls.
  destruct (fetchJsonLoop_fallsBack client json before [u] None [] Hall)
    as (l' & -> & _). cbn [fetchJsonLoop]. rewrite Hu.
  by destruct (from_option _ _ _).
Qed.

Lemma fetchJsonLoop_error client json remaining lastError tried tried' exit :
  fetchJsonLoop request client json remaining lastError tried = (tried', exit) ->
  forall e,
    match exit with
    | Returned _ => False
    | Threw e' => e' = e
    | Finished l => l = Some e
    end ->
    (exists u, u ∈ remaining /\ fetchJsonOneUrl request u json = inl e)
    \/ (exit = Finished lastError /\ lastError = Some e).
Proof.
  revert lastError tried. induction remaining as [|u rest IH]; intros lastError tried Hrun e He.
  - cbn in Hrun. injection Hrun as <- <-. right. done.
  - cbn [fetchJsonLoop] in Hrun. destruct (fetchJsonOneUrl request u json) as [e0|r] eqn:Hu.
    + destruct (from_option _ _ _).
      * injection Hrun as <- <-. subst e0. left. exists u. split; [apply elem_of_cons; by left|done].
      * destruct (IH _ _ Hrun e He) as [(u' & Hin & Hu')|[-> [= ->]]].
        -- left. exists u'. split; [apply elem_of_cons; by right|done].
        -- left. exists u. split; [apply elem_of_cons; by left|done].
    + injection Hrun as <- <-. done.
Qed.

Lemma fetchJsonLoop_finished_none client json remaining lastError tried tried' :
  fetchJsonLoop request client json remaining lastError tried = (tried', Finished None) ->
  remaining = [] /\ lastError = None.
Proof.
  revert lastError tried. induction remaining as [|u rest IH]; intros lastError tried Hrun.
  - cbn in Hrun. by injection Hrun as _ ->.
  - cbn [fetchJsonLoop] in Hrun. destruct (fetchJsonOneUrl request u json) as [e0|r]; [|done].
    destruct (from_option _ _ _); [done|]. by apply IH in Hrun as [_ ?].
Qed.

(** X25.  Whatever [fetchJson] throws on a client that the constructor
    accepted was thrown by the request to one of the client's URLs: neither
    the check of the URL in [fetchJsonOneUrl] nor the errors ["No url
    provided"] and ["Unknown error"] can be the cause. *)
Theorem fetchJson_error_origin us f client json tried e :
  newJsonRpcHttpClient us f = inr client ->
  fetchJson request client json = (tried, inl e) ->
  exists s, Some s ∈ us /\ s <> "" /\ request s json = inl e.
Proof.
  intros Hnew Hrun.
  assert (Hus : us <> [] /\ Forall (fun u => urlMissing u = false) us /\ client = mkClient us f).
  { unfold newJsonRpcHttpClient in Hnew. destruct us as [|u0 us]; [done|].
    cbn [length Nat.eqb] in Hnew. destruct (checkUrls 0 (u0 :: us)) eqn:Hc; [done|].
    apply checkUrls_None in Hc. by injection Hnew as <-. }
  destruct Hus as (Hne & Hall & ->). unfold fetchJson in Hrun. cbn [urls] in Hrun.
  destruct (fetchJsonLoop request _ json us None []) as [tried' exit] eqn:Hloop.
  injection Hrun as <- Hexit.
  assert (Horigin : exists u, u ∈ us /\ fetchJsonOneUrl request u json = inl e).
  { destruct exit as [r|e'|[l|]].
    - done.
    - injection Hexit as ->.
      destruct (fetchJsonLoop_error _ _ _ _ _ _ _ Hloop e eq_refl) as [H|[? ?]]; done.
    - injection Hexit as ->.
      destruct (fetchJsonLoop_error _ _ _ _ _ _ _ Hloop e eq_refl) as [H|[? ?]]; done.
    - apply fetchJsonLoop_finished_none in Hloop as [-> _]. done. }
  destruct Horigin as (u & Hin & Hu).
  rewrite Forall_forall in Hall. specialize (Hall u Hin).
  destruct u as [s|]; [|done]. cbn in Hall, Hu. rewrite Hall in Hu.
  exists s. split; [done|]. split; [|done]. by apply bool_decide_eq_false in Hall.
Qed.

End JsonRpcFacts.

(** * The further scenarios *)

Lemma list_update_fmap {A B : Type} (g : A -> B) (f : A -> A) (l l' : list A) i :
  (forall x, g (f x) = g x) ->
  list_update l i f = Some l' -> g <$> l' = g <$> l.
Proof.
  intros Hg (x & Hx & ->)%list_update_Some.
  rewrite list_fmap_insert, Hg. apply list_insert_id. by rewrite list_lookup_fmap, Hx.
Qed.

Section FurtherScenarioFacts.
#[local] Existing Instance scenario_params.
#[local] Existing Instance scenario_flags.
#[local] Existing Instance scenario_types.
#[local] Existing Instance scenario_util.

Lemma scenario_flags_independent : flagsIndependent.
Proof.
  split; [repeat constructor; discriminate|].
  intros i j f g Hi Hj Hne.
  do 8 (destruct i as [|i];
        [do 8 (destruct j as [|j];
               [first [done | injection Hi as <-; injection Hj as <-; reflexivity]|]);
         discriminate Hj|]).
  discriminate Hi.
Qed.

Lemma scenario_initiateValidatorExit_activationEpoch
    (s : BeaconState) (index : ValidatorIndex) (s' : BeaconState) :
  initiateValidatorExit s index = Some s' ->
  activationEpoch <$> validators s' = activationEpoch <$> validators s.
Proof.
  cbn [initiateValidatorExit scenario_util]. intros Hrun.
  destruct (list_update (validators s) index _) as [vs|] eqn:Hvs; [|done].
  cbn in Hrun. injection Hrun as <-. cbn [validators set_validators].
  apply (list_update_fmap activationEpoch) in Hvs; [done|].
  intros v. by destruct (exitEpoch v =? FAR_FUTURE_EPOCH).
Qed.

(** In [mixed_state] the validators 0, 3 and 4 are active at epoch 5, with
    32 + 16 + 32 ETH. *)
Lemma beforeProcessEpoch_totalActiveStake_witness :
  exists ep,
    beforeProcessEpoch mixed_state = Some ep
    /\ totalActiveStake ep = 80 * ETH
    /\ totalActiveStake ep =
       Z.max EFFECTIVE_BALANCE_INCREMENT
             (activeStake (currentShuffling_epoch (epochCtx mixed_state))
                          (validators mixed_state)).
Proof.
  eexists. split; [vm_compute; reflexivity|]. split; [reflexivity|].
  match goal with
  | |- context [totalActiveStake ?ep] =>
      assert (Hrun : beforeProcessEpoch mixed_state = Some ep) by (vm_compute; reflexivity);
      exact (beforeProcessEpoch_totalActiveStake mixed_state ep Hrun)
  end.
Defined.

Lemma beforeProcessEpoch_index_arrays_ascending_witness :
  exists ep,
    beforeProcessEpoch mixed_state = Some ep
    /\ nextEpochActiveValidatorIndices ep = [0; 3; 4]%nat
    /\ StronglySorted lt (nextEpochActiveValidatorIndices ep)
    /\ StronglySorted lt (indicesToSlash ep)
    /\ StronglySorted lt (indicesEligibleForActivationQueue ep)
    /\ StronglySorted lt (indicesToEject ep).
Proof.
  eexists. split; [vm_compute; reflexivity|]. split; [reflexivity|].
  match goal with
  | |- context [indicesToEject ?ep] =>
      assert (Hrun : beforeProcessEpoch mixed_state = Some ep) by (vm_compute; reflexivity);
      exact (proj2 (beforeProcessEpoch_index_arrays_ascending mixed_state ep Hrun))
  end.
Defined.

(** The queue of [queue_state]: the only ascending arrangement. *)
Lemma beforeProcessEpoch_activation_order_unique_witness :
  exists ep,
    beforeProcessEpoch queue_state = Some ep
    /\ Permutation [1; 3; 6; 2; 5; 8; 9; 0; 4; 7]%nat (indicesEligibleForActivation ep)
    /\ StronglySorted (activationOrder (validators queue_state))
                      [1; 3; 6; 2; 5; 8; 9; 0; 4; 7]%nat
    /\ [1; 3; 6; 2; 5; 8; 9; 0; 4; 7]%nat = indicesEligibleForActivation ep.
Proof.
  eexists. split; [vm_compute; reflexivity|].
  assert (Hsorted : StronglySorted (activationOrder (validators queue_state))
                                   [1; 3; 6; 2; 5; 8; 9; 0; 4; 7]%nat).
  { repeat (apply SSorted_cons;
            [|repeat (apply List.Forall_cons; [|]); try apply List.Forall_nil]);
      try apply SSorted_nil; unfold activationOrder;
      first [left; vm_compute; reflexivity | right; split; [vm_compute; reflexivity|lia]]. }
  match goal with
  | |- context [indicesEligibleForActivation ?ep] =>
      assert (Hrun : beforeProcessEpoch queue_state = Some ep) by (vm_compute; reflexivity);
      assert (Hperm : Permutation [1; 3; 6; 2; 5; 8; 9; 0; 4; 7]%nat
                                  (indicesEligibleForActivation ep)) by reflexivity;
      split; [exact Hperm|]; split; [exact Hsorted|];
      exact (beforeProcessEpoch_activation_order_unique queue_state ep _ Hrun Hperm Hsorted)
  end.
Defined.

Lemma beforeProcessEpoch_participation_overflow_witness :
  getForkName (config overflow_state) (slot overflow_state) = altair
  /\ (length (validators overflow_state)
      < length (previousEpochParticipation overflow_state))%nat
  /\ beforeProcessEpoch overflow_state = None.
Proof.
  assert (H1 : getForkName (config overflow_state) (slot overflow_state) = altair)
    by reflexivity.
  assert (H2 : (length (validators overflow_state)
                < length (previousEpochParticipation overflow_state))%nat)
    by (cbn; lia).
  split; [exact H1|]. split; [exact H2|].
  exact (beforeProcessEpoch_participation_overflow overflow_state H1 (or_introl H2)).
Defined.

(** Validator 5 of [mixed_state] has left at epoch 3 and is slashed with
    the withdrawable epoch 5000: not active, but an eligible attester. *)
Lemma beforeProcessEpoch_eligible_attester_witness :
  exists ep,
    flagsIndependent
    /\ getForkName (config mixed_state) (slot mixed_state) = altair
    /\ beforeProcessEpoch mixed_state = Some ep
    /\ validators mixed_state !! 5%nat = Some (mkValidator (32 * ETH) true 0 0 3 5000)
    /\ exists st,
         statusesFlat ep !! 5%nat = Some st
         /\ active st = false
         /\ hasMarkers (flags st) FLAG_ELIGIBLE_ATTESTER = true.
Proof.
  eexists. split; [exact scenario_flags_independent|]. split; [reflexivity|].
  split; [vm_compute; reflexivity|]. split; [reflexivity|].
  match goal with
  | |- context [statusesFlat ?ep] =>
      assert (Hrun : beforeProcessEpoch mixed_state = Some ep) by (vm_compute; reflexivity);
      exact (beforeProcessEpoch_eligible_attester mixed_state ep 5%nat
               (mkValidator (32 * ETH) true 0 0 3 5000)
               scenario_flags_independent eq_refl Hrun eq_refl)
  end.
Defined.

(** Validator 3 of [mixed_state]: source and target of the previous epoch,
    source of the current one. *)
Lemma beforeProcessEpoch_participation_flags_witness :
  exists ep,
    flagsIndependent
    /\ getForkName (config mixed_state) (slot mixed_state) = altair
    /\ beforeProcessEpoch mixed_state = Some ep
    /\ validators mixed_state !! 3%nat
       = Some (mkValidator (16 * ETH) false 0 0 FAR_FUTURE_EPOCH FAR_FUTURE_EPOCH)
    /\ exists st,
         statusesFlat ep !! 3%nat = Some st
         /\ hasMarkers (flags st) FLAG_PREV_SOURCE_ATTESTER = true
         /\ hasMarkers (flags st) FLAG_PREV_TARGET_ATTESTER = true
         /\ hasMarkers (flags st) FLAG_PREV_HEAD_ATTESTER = false
         /\ hasMarkers (flags st) FLAG_CURR_SOURCE_ATTESTER = true
         /\ hasMarkers (flags st) FLAG_CURR_TARGET_ATTESTER = false
         /\ hasMarkers (flags st) FLAG_CURR_HEAD_ATTESTER = false.
Proof.
  eexists. split; [exact scenario_flags_independent|]. split; [reflexivity|].
  split; [vm_compute; reflexivity|]. split; [reflexivity|].
  match goal with
  | |- context [statusesFlat ?ep] =>
      assert (Hrun : beforeProcessEpoch mixed_state = Some ep) by (vm_compute; reflexivity);
      exact (beforeProcessEpoch_participation_flags mixed_state ep 3%nat
               (mkValidator (16 * ETH) false 0 0 FAR_FUTURE_EPOCH FAR_FUTURE_EPOCH)
               scenario_flags_independent eq_refl Hrun eq_refl)
  end.
Defined.

(** The unslashed stakes of [mixed_state]: validators 0 and 3 attested to
    the source and the target of the previous epoch, validator 0 to its
    head and to the target of the current epoch. *)
Lemma beforeProcessEpoch_unslashed_stakes_altair_witness :
  exists ep,
    flagsIndependent
    /\ getForkName (config mixed_state) (slot mixed_state) = altair
    /\ beforeProcessEpoch mixed_state = Some ep
    /\ prevEpochUnslashedStake_sourceStake ep = 48 * ETH
    /\ prevEpochUnslashedStake_targetStake ep = 48 * ETH
    /\ prevEpochUnslashedStake_headStake ep = 32 * ETH
    /\ currEpochUnslashedTargetStake ep = 32 * ETH.
Proof.
  eexists. split; [exact scenario_flags_independent|]. split; [reflexivity|].
  split; [vm_compute; reflexivity|].
  match goal with
  | |- context [currEpochUnslashedTargetStake ?ep] =>
      assert (Hrun : beforeProcessEpoch mixed_state = Some ep) by (vm_compute; reflexivity);
      exact (beforeProcessEpoch_unslashed_stakes_altair mixed_state ep
               scenario_flags_independent eq_refl Hrun)
  end.
Defined.

(** 32 ETH slashed out of 128 ETH of active stake, with 32 ETH of
    slashings and the multiplier 3: the penalty is 24 ETH. *)
Lemma processSlashings_penalty_whole_increments_witness :
  exists state',
    0 < EFFECTIVE_BALANCE_INCREMENT
    /\ 0 < totalActiveStake (slashing_summary_of (128 * ETH))
    /\ 0 <= slashingMultiplier phase0
    /\ Forall (Z.le 0) (slashings slashing_state)
    /\ Forall (Z.le 0) (effectiveBalances (epochCtx slashing_state))
    /\ processSlashingsAllForks phase0 slashing_state (slashing_summary_of (128 * ETH))
       = Some (state', [ReadSlashings; DecreaseBalance 0 (24 * ETH)])
    /\ DecreaseBalance 0 (24 * ETH) ∈ [ReadSlashings; DecreaseBalance 0 (24 * ETH)]
    /\ 0 <= 24 * ETH
    /\ (24 * ETH) mod EFFECTIVE_BALANCE_INCREMENT = 0.
Proof.
  eexists.
  assert (H1 : 0 < EFFECTIVE_BALANCE_INCREMENT) by reflexivity.
  assert (H2 : 0 < totalActiveStake (slashing_summary_of (128 * ETH))) by reflexivity.
  assert (H3 : 0 <= slashingMultiplier phase0) by discriminate.
  assert (H4 : Forall (Z.le 0) (slashings slashing_state))
    by (repeat constructor; discriminate).
  assert (H5 : Forall (Z.le 0) (effectiveBalances (epochCtx slashing_state)))
    by (repeat constructor; discriminate).
  assert (H7 : DecreaseBalance 0 (24 * ETH) ∈ [ReadSlashings; DecreaseBalance 0 (24 * ETH)])
    by (apply elem_of_cons; right; apply elem_of_cons; by left).
  do 5 (split; [assumption|]).
  split; [vm_compute; reflexivity|]. split; [exact H7|].
  assert (Hrun : { state' | processSlashingsAllForks phase0 slashing_state
                              (slashing_summary_of (128 * ETH))
                            = Some (state', [ReadSlashings; DecreaseBalance 0 (24 * ETH)]) })
    by (eexists; vm_compute; reflexivity).
  exact (processSlashings_penalty_whole_increments phase0 slashing_state
           (slashing_summary_of (128 * ETH)) (proj1_sig Hrun) _ 0%nat (24 * ETH)
           H1 H2 H3 H4 H5 (proj2_sig Hrun) H7).
Defined.

(** With 64 ETH of active stake the 96 ETH of adjusted slashings are capped
    at the stake, and the validator loses its 32 ETH. *)
Lemma processSlashings_full_penalty_witness :
  exists state',
    0 < EFFECTIVE_BALANCE_INCREMENT
    /\ 0 < totalActiveStake (slashing_summary_of (64 * ETH))
    /\ Forall (Z.le 0) (effectiveBalances (epochCtx slashing_state))
    /\ totalActiveStake (slashing_summary_of (64 * ETH))
       <= spec_total_slashings (slashings slashing_state) * slashingMultiplier phase0
    /\ processSlashingsAllForks phase0 slashing_state (slashing_summary_of (64 * ETH))
       = Some (state', [ReadSlashings; DecreaseBalance 0 (32 * ETH)])
    /\ DecreaseBalance 0 (32 * ETH) ∈ [ReadSlashings; DecreaseBalance 0 (32 * ETH)]
    /\ exists eb,
         effectiveBalances (epochCtx slashing_state) !! 0%nat = Some eb
         /\ 32 * ETH = eb - eb mod EFFECTIVE_BALANCE_INCREMENT.
Proof.
  eexists.
  assert (H1 : 0 < EFFECTIVE_BALANCE_INCREMENT) by reflexivity.
  assert (H2 : 0 < totalActiveStake (slashing_summary_of (64 * ETH))) by reflexivity.
  assert (H3 : Forall (Z.le 0) (effectiveBalances (epochCtx slashing_state)))
    by (repeat constructor; discriminate).
  assert (H4 : totalActiveStake (slashing_summary_of (64 * ETH))
               <= spec_total_slashings (slashings slashing_state) * slashingMultiplier phase0)
    by discriminate.
  assert (H6 : DecreaseBalance 0 (32 * ETH) ∈ [ReadSlashings; DecreaseBalance 0 (32 * ETH)])
    by (apply elem_of_cons; right; apply elem_of_cons; by left).
  do 4 (split; [assumption|]).
  split; [vm_compute; reflexivity|]. split; [exact H6|].
  assert (Hrun : { state' | processSlashingsAllForks phase0 slashing_state
                              (slashing_summary_of (64 * ETH))
                            = Some (state', [ReadSlashings; DecreaseBalance 0 (32 * ETH)]) })
    by (eexists; vm_compute; reflexivity).
  exact (processSlashings_full_penalty phase0 slashing_state
           (slashing_summary_of (64 * ETH)) (proj1_sig Hrun) _ 0%nat (32 * ETH)
           H1 H2 H3 H4 (proj2_sig Hrun) H6).
Defined.

(** A total active stake of zero makes the division throw. *)
Lemma processSlashings_throws_witness :
  indicesToSlash (slashing_summary_of 0) <> []
  /\ totalActiveStake (slashing_summary_of 0) = 0
  /\ processSlashingsAllForks phase0 slashing_state (slashing_summary_of 0) = None.
Proof.
  assert (H1 : indicesToSlash (slashing_summary_of 0) <> []) by discriminate.
  assert (H2 : totalActiveStake (slashing_summary_of 0) = 0) by reflexivity.
  split; [exact H1|]. split; [exact H2|].
  exact (processSlashings_throws phase0 slashing_state (slashing_summary_of 0)
           H1 (or_introl H2)).
Defined.

(** [mixed_state]: validator 4 is the one to slash, and the only one that
    is penalised. *)
Lemma processSlashings_after_beforeProcessEpoch_witness :
  exists ep,
    0 < EFFECTIVE_BALANCE_INCREMENT
    /\ (length (validators mixed_state)
        <= length (effectiveBalances (epochCtx mixed_state)))%nat
    /\ (length (validators mixed_state) <= length (balances mixed_state))%nat
    /\ beforeProcessEpoch mixed_state = Some ep
    /\ indicesToSlash ep = [4%nat]
    /\ exists state' trace,
         processSlashingsAllForks altair mixed_state ep = Some (state', trace)
         /\ forall index delta,
              DecreaseBalance index delta ∈ trace ->
              exists v,
                validators mixed_state !! index = Some v
                /\ slashed v = true
                /\ withdrawableEpoch v =
                   currentShuffling_epoch (epochCtx mixed_state)
                   + EPOCHS_PER_SLASHINGS_VECTOR / 2.
Proof.
  eexists.
  assert (H1 : 0 < EFFECTIVE_BALANCE_INCREMENT) by reflexivity.
  assert (H2 : (length (validators mixed_state)
                <= length (effectiveBalances (epochCtx mixed_state)))%nat) by (cbn; lia).
  assert (H3 : (length (validators mixed_state) <= length (balances mixed_state))%nat)
    by (cbn; lia).
  split; [exact H1|]. split; [exact H2|]. split; [exact H3|].
  split; [vm_compute; reflexivity|]. split; [reflexivity|].
  match goal with
  | |- context [processSlashingsAllForks _ _ ?ep] =>
      assert (Hrun : beforeProcessEpoch mixed_state = Some ep) by (vm_compute; reflexivity);
      exact (processSlashings_after_beforeProcessEpoch altair mixed_state ep H1 H2 H3 Hrun)
  end.
Defined.

(** [mixed_state]: validator 3 is ejected, validator 1 enters the queue
    with the eligibility epoch 6, and validator 2 is activated. *)
Lemma processRegistryUpdates_eligibility_witness :
  exists ep0 state',
    beforeProcessEpoch mixed_state = Some ep0
    /\ processRegistryUpdates mixed_state (withSnapshot ep0 mixed_validators) = Some state'
    /\ indicesEligibleForActivationQueue (withSnapshot ep0 mixed_validators) = [1%nat]
    /\ activationEligibilityEpoch <$> validators state' = [0; 6; 2; 0; 0; 0]
    /\ exists state1,
         ejectLoop (indicesToEject (withSnapshot ep0 mixed_validators)) mixed_state
         = Some state1
         /\ (forall j,
               j ∈ indicesEligibleForActivationQueue (withSnapshot ep0 mixed_validators) ->
               exists v',
                 validators state' !! j = Some v'
                 /\ activationEligibilityEpoch v'
                    = currentShuffling_epoch (epochCtx state1) + 1)
         /\ (forall j,
               j ∉ indicesEligibleForActivationQueue (withSnapshot ep0 mixed_validators) ->
               activationEligibilityEpoch <$> validators state' !! j
               = activationEligibilityEpoch <$> validators state1 !! j).
Proof.
  eexists _, _.
  match goal with |- ?R /\ _ => assert (Hsummary : R) by (vm_compute; reflexivity) end.
  split; [exact Hsummary|].
  match goal with |- ?R /\ _ => assert (Hrun : R) by (vm_compute; reflexivity) end.
  split; [exact Hrun|]. split; [reflexivity|]. split; [reflexivity|].
  exact (processRegistryUpdates_eligibility mixed_state _ _ Hrun).
Defined.

Lemma processRegistryUpdates_frame_witness :
  exists ep0 state',
    beforeProcessEpoch mixed_state = Some ep0
    /\ processRegistryUpdates mixed_state (withSnapshot ep0 mixed_validators) = Some state'
    /\ exists state1,
         ejectLoop (indicesToEject (withSnapshot ep0 mixed_validators)) mixed_state
         = Some state1
         /\ state' = set_validators state1 (validators state')
         /\ length (validators state') = length (validators state1)
         /\ (fun v => (effectiveBalance v, slashed v, exitEpoch v, withdrawableEpoch v))
              <$> validators state'
            = (fun v => (effectiveBalance v, slashed v, exitEpoch v, withdrawableEpoch v))
              <$> validators state1.
Proof.
  eexists _, _.
  match goal with |- ?R /\ _ => assert (Hsummary : R) by (vm_compute; reflexivity) end.
  split; [exact Hsummary|].
  match goal with |- ?R /\ _ => assert (Hrun : R) by (vm_compute; reflexivity) end.
  split; [exact Hrun|].
  exact (processRegistryUpdates_frame mixed_state _ _ Hrun).
Defined.

(** Validator 0 of [mixed_state] was activated at epoch 0 and stays so. *)
Lemma processRegistryUpdates_no_second_activation_witness :
  exists ep0 state',
    beforeProcessEpoch mixed_state = Some ep0
    /\ indicesEligibleForActivation (withSnapshot ep0 mixed_validators)
       = indicesEligibleForActivation ep0
    /\ (forall s index s',
          initiateValidatorExit s index = Some s' ->
          activationEpoch <$> validators s' = activationEpoch <$> validators s)
    /\ processRegistryUpdates mixed_state (withSnapshot ep0 mixed_validators) = Some state'
    /\ validators mixed_state !! 0%nat
       = Some (mkValidator (32 * ETH) false 0 0 FAR_FUTURE_EPOCH FAR_FUTURE_EPOCH)
    /\ 0 <> FAR_FUTURE_EPOCH
    /\ exists v', validators state' !! 0%nat = Some v' /\ activationEpoch v' = 0.
Proof.
  eexists _, _.
  match goal with |- ?R /\ _ => assert (Hsummary : R) by (vm_compute; reflexivity) end.
  split; [exact Hsummary|]. split; [reflexivity|].
  split; [exact scenario_initiateValidatorExit_activationEpoch|].
  match goal with |- ?R /\ _ => assert (Hrun : R) by (vm_compute; reflexivity) end.
  split; [exact Hrun|]. split; [reflexivity|].
  assert (Hact : 0 <> FAR_FUTURE_EPOCH) by discriminate.
  split; [exact Hact|].
  match type of Hsummary with
  | _ = Some ?ep0 =>
      exact (processRegistryUpdates_no_second_activation mixed_state ep0
               (withSnapshot ep0 mixed_validators) _ 0%nat
               (mkValidator (32 * ETH) false 0 0 FAR_FUTURE_EPOCH FAR_FUTURE_EPOCH)
               Hsummary eq_refl scenario_initiateValidatorExit_activationEpoch
               Hrun eq_refl Hact)
  end.
Defined.

Lemma processEffectiveBalanceUpdates_frame_witness :
  exists state',
    processEffectiveBalanceUpdates hysteresis_state hysteresis_summary = Some state'
    /\ effectiveBalance <$> validators state' = [32 * ETH; 31 * ETH]
    /\ state' = set_validators hysteresis_state (validators state')
    /\ length (validators state') = length (validators hysteresis_state)
    /\ (fun v => (slashed v, activationEligibilityEpoch v, activationEpoch v,
                  exitEpoch v, withdrawableEpoch v)) <$> validators state'
       = (fun v => (slashed v, activationEligibilityEpoch v, activationEpoch v,
                    exitEpoch v, withdrawableEpoch v)) <$> validators hysteresis_state.
Proof.
  eexists.
  match goal with |- ?R /\ _ => assert (Hrun : R) by (vm_compute; reflexivity) end.
  split; [exact Hrun|]. split; [reflexivity|].
  exact (processEffectiveBalanceUpdates_frame hysteresis_state hysteresis_summary _ Hrun).
Defined.

(** Scenario 6 again: 31 ETH for a balance of 31.74 ETH, with the band
    from 31.74 - 1.25 ETH to 31.74 + 0.25 ETH. *)
Lemma processEffectiveBalanceUpdates_within_band_witness :
  exists state',
    0 < EFFECTIVE_BALANCE_INCREMENT
    /\ 0 < HYSTERESIS_QUOTIENT
    /\ 0 <= EFFECTIVE_BALANCE_INCREMENT / HYSTERESIS_QUOTIENT * HYSTERESIS_DOWNWARD_MULTIPLIER
    /\ EFFECTIVE_BALANCE_INCREMENT
       <= EFFECTIVE_BALANCE_INCREMENT / HYSTERESIS_QUOTIENT * HYSTERESIS_UPWARD_MULTIPLIER
    /\ ep_validators hysteresis_summary = Some (validators hysteresis_state)
    /\ processEffectiveBalanceUpdates hysteresis_state hysteresis_summary = Some state'
    /\ default (balances hysteresis_state) (ep_balances hysteresis_summary) !! 1%nat
       = Some 31740000000
    /\ 0 <= 31740000000
    /\ validators state' !! 1%nat
       = Some (mkValidator (31 * ETH) false 0 0 FAR_FUTURE_EPOCH FAR_FUTURE_EPOCH)
    /\ 31 * ETH <= 31740000000 + 250000000
    /\ (MAX_EFFECTIVE_BALANCE <= 31 * ETH \/ 31740000000 - 1250000000 <= 31 * ETH).
Proof.
  eexists.
  assert (H1 : 0 < EFFECTIVE_BALANCE_INCREMENT) by reflexivity.
  assert (H2 : 0 < HYSTERESIS_QUOTIENT) by reflexivity.
  assert (H3 : 0 <= EFFECTIVE_BALANCE_INCREMENT / HYSTERESIS_QUOTIENT
                    * HYSTERESIS_DOWNWARD_MULTIPLIER) by discriminate.
  assert (H4 : EFFECTIVE_BALANCE_INCREMENT
               <= EFFECTIVE_BALANCE_INCREMENT / HYSTERESIS_QUOTIENT
                  * HYSTERESIS_UPWARD_MULTIPLIER) by discriminate.
  assert (H8 : 0 <= 31740000000) by discriminate.
  do 4 (split; [assumption|]). split; [reflexivity|].
  match goal with |- ?R /\ _ => assert (Hrun : R) by (vm_compute; reflexivity) end.
  split; [exact Hrun|]. split; [reflexivity|]. split; [exact H8|]. split; [reflexivity|].
  exact (processEffectiveBalanceUpdates_within_band hysteresis_state hysteresis_summary _
           1%nat 31740000000
           (mkValidator (31 * ETH) false 0 0 FAR_FUTURE_EPOCH FAR_FUTURE_EPOCH)
           H1 H2 H3 H4 eq_refl Hrun eq_refl H8 eq_refl).
Defined.

Lemma processEffectiveBalanceUpdates_idempotent_witness :
  exists state',
    0 < EFFECTIVE_BALANCE_INCREMENT
    /\ 0 < HYSTERESIS_QUOTIENT
    /\ 0 <= EFFECTIVE_BALANCE_INCREMENT / HYSTERESIS_QUOTIENT * HYSTERESIS_DOWNWARD_MULTIPLIER
    /\ EFFECTIVE_BALANCE_INCREMENT
       <= EFFECTIVE_BALANCE_INCREMENT / HYSTERESIS_QUOTIENT * HYSTERESIS_UPWARD_MULTIPLIER
    /\ Forall (Z.le 0)
         (default (balances hysteresis_state) (ep_balances hysteresis_summary))
    /\ ep_validators hysteresis_summary = Some (validators hysteresis_state)
    /\ processEffectiveBalanceUpdates hysteresis_state hysteresis_summary = Some state'
    /\ processEffectiveBalanceUpdates state'
         (withSnapshot hysteresis_summary (validators state')) = Some state'.
Proof.
  eexists.
  assert (H1 : 0 < EFFECTIVE_BALANCE_INCREMENT) by reflexivity.
  assert (H2 : 0 < HYSTERESIS_QUOTIENT) by reflexivity.
  assert (H3 : 0 <= EFFECTIVE_BALANCE_INCREMENT / HYSTERESIS_QUOTIENT
                    * HYSTERESIS_DOWNWARD_MULTIPLIER) by discriminate.
  assert (H4 : EFFECTIVE_BALANCE_INCREMENT
               <= EFFECTIVE_BALANCE_INCREMENT / HYSTERESIS_QUOTIENT
                  * HYSTERESIS_UPWARD_MULTIPLIER) by discriminate.
  assert (H5 : Forall (Z.le 0)
                 (default (balances hysteresis_state) (ep_balances hysteresis_summary)))
    by (repeat constructor; discriminate).
  do 5 (split; [assumption|]). split; [reflexivity|].
  match goal with |- ?R /\ _ => assert (Hrun : R) by (vm_compute; reflexivity) end.
  split; [exact Hrun|].
  exact (processEffectiveBalanceUpdates_idempotent hysteresis_state hysteresis_summary _
           H1 H2 H3 H4 H5 eq_refl Hrun).
Defined.

End FurtherScenarioFacts.

Section MainnetScenarioFacts.
#[local] Existing Instance mainnet_params.
#[local] Existing Instance scenario_types.

(** With the multipliers of mainnet, 1 and 2, and 128 ETH of active stake
    the validator of [slashing_state] loses 8 ETH in phase 0 and 16 ETH in
    Altair. *)
Lemma processSlashings_altair_at_least_phase0_witness :
  exists state0 state1,
    0 < EFFECTIVE_BALANCE_INCREMENT
    /\ 0 < totalActiveStake (slashing_summary_of (128 * ETH))
    /\ Forall (Z.le 0) (slashings slashing_state)
    /\ Forall (Z.le 0) (effectiveBalances (epochCtx slashing_state))
    /\ PROPORTIONAL_SLASHING_MULTIPLIER <= PROPORTIONAL_SLASHING_MULTIPLIER_ALTAIR
    /\ processSlashingsAllForks phase0 slashing_state (slashing_summary_of (128 * ETH))
       = Some (state0, [ReadSlashings; DecreaseBalance 0 (8 * ETH)])
    /\ processSlashingsAllForks altair slashing_state (slashing_summary_of (128 * ETH))
       = Some (state1, [ReadSlashings; DecreaseBalance 0 (16 * ETH)])
    /\ Forall2 (fun e0 e1 =>
                  match e0, e1 with
                  | ReadSlashings, ReadSlashings => True
                  | DecreaseBalance i0 d0, DecreaseBalance i1 d1 => i0 = i1 /\ d0 <= d1
                  | _, _ => False
                  end)
               [ReadSlashings; DecreaseBalance 0 (8 * ETH)]
               [ReadSlashings; DecreaseBalance 0 (16 * ETH)].
Proof.
  eexists _, _.
  assert (H1 : 0 < EFFECTIVE_BALANCE_INCREMENT) by reflexivity.
  assert (H2 : 0 < totalActiveStake (slashing_summary_of (128 * ETH))) by reflexivity.
  assert (H3 : Forall (Z.le 0) (slashings slashing_state))
    by (repeat constructor; discriminate).
  assert (H4 : Forall (Z.le 0) (effectiveBalances (epochCtx slashing_state)))
    by (repeat constructor; discriminate).
  assert (H5 : PROPORTIONAL_SLASHING_MULTIPLIER <= PROPORTIONAL_SLASHING_MULTIPLIER_ALTAIR)
    by discriminate.
  do 5 (split; [assumption|]).
  match goal with |- ?R /\ _ => assert (Hrun0 : R) by (vm_compute; reflexivity) end.
  split; [exact Hrun0|].
  match goal with |- ?R /\ _ => assert (Hrun1 : R) by (vm_compute; reflexivity) end.
  split; [exact Hrun1|].
  exact (processSlashings_altair_at_least_phase0 slashing_state
           (slashing_summary_of (128 * ETH)) _ _ _ _ H1 H2 H3 H4 H5 Hrun0 Hrun1).
Defined.

End MainnetScenarioFacts.

(** ** The JSON RPC client *)

(** The code -32050 of the server error range. *)
Lemma parseJsonRpcErrorCode_never_server_error_witness :
  -32099 <= -32050 <= -32000
  /\ parseJsonRpcErrorCode (-32050) <> "Server error"
  /\ parseJsonRpcErrorCode (-32050) = "Unknown error code " +:+ pretty (-32050).
Proof.
  assert (H1 : -32099 <= -32050 <= -32000) by lia.
  split; [exact H1|].
  split; [exact (proj1 (parseJsonRpcErrorCode_never_server_error (-32050)))|].
  exact (proj2 (parseJsonRpcErrorCode_never_server_error (-32050)) H1).
Defined.

Lemma newJsonRpcHttpClient_accepts_witness :
  urls failing_client <> []
  /\ Forall (fun u => urlMissing u = false) (urls failing_client)
  /\ newJsonRpcHttpClient (urls failing_client) None = inr failing_client.
Proof.
  assert (H1 : urls failing_client <> []) by discriminate.
  assert (H2 : Forall (fun u => urlMissing u = false) (urls failing_client))
    by (repeat constructor).
  split; [exact H1|]. split; [exact H2|].
  exact (proj2 (newJsonRpcHttpClient_accepts (urls failing_client) None failing_client)
           (conj H1 (conj H2 eq_refl))).
Defined.

(** The second of three URLs is undefined, the third is empty. *)
Lemma newJsonRpcHttpClient_rejects_witness :
  [Some "http://up.example"; None; Some ""] !! 1%nat = Some None
  /\ urlMissing None = true
  /\ (forall j u', (j < 1)%nat ->
        [Some "http://up.example"; None; Some ""] !! j = Some u' -> urlMissing u' = false)
  /\ newJsonRpcHttpClient [Some "http://up.example"; None; Some ""] None
     = inl (Error ("JsonRpcHttpClient.urls[" +:+ pretty 1%nat
                   +:+ "] is empty or undefined: " +:+ showUrl None)).
Proof.
  assert (H3 : forall j u', (j < 1)%nat ->
                 [Some "http://up.example"; None; Some ""] !! j = Some u' ->
                 urlMissing u' = false).
  { intros j u' Hj. destruct j as [|j]; [|lia]. intros [= <-]. reflexivity. }
  split; [reflexivity|]. split; [reflexivity|]. split; [exact H3|].
  exact (newJsonRpcHttpClient_rejects [Some "http://up.example"; None; Some ""] None
           1%nat None eq_refl eq_refl H3).
Defined.

(** The first node is down, the second answers. *)
Lemma fetchJson_first_success_witness :
  urls fallback_client
  = [Some "http://down.example"] ++ Some "http://up.example" :: [Some "http://spare.example"]
  /\ Forall (fallsBack scenario_request fallback_client 41) [Some "http://down.example"]
  /\ fetchJsonOneUrl scenario_request (Some "http://up.example") 41 = inr 42
  /\ fetchJson scenario_request fallback_client 41
     = ([Some "http://down.example"] ++ [Some "http://up.example"], inr 42).
Proof.
  assert (H2 : Forall (fallsBack scenario_request fallback_client 41)
                      [Some "http://down.example"]).
  { constructor; [|constructor]. eexists. split; reflexivity. }
  split; [reflexivity|]. split; [exact H2|]. split; [reflexivity|].
  exact (fetchJson_first_success scenario_request fallback_client 41
           [Some "http://down.example"] (Some "http://up.example")
           [Some "http://spare.example"] 42 eq_refl H2 eq_refl).
Defined.

(** The second node limits the rate, which the client does not fall back
    from: the third node is not asked. *)
Lemma fetchJson_no_fallback_witness :
  urls strict_client
  = [Some "http://down.example"] ++ Some "http://limited.example" :: [Some "http://up.example"]
  /\ Forall (fallsBack scenario_request strict_client 41) [Some "http://down.example"]
  /\ fetchJsonOneUrl scenario_request (Some "http://limited.example") 41
     = inl (HttpRpcError 429 "Too Many Requests: ")
  /\ shouldNotFallback strict_client = Some isRateLimit
  /\ isRateLimit (HttpRpcError 429 "Too Many Requests: ") = true
  /\ fetchJson scenario_request strict_client 41
     = ([Some "http://down.example"] ++ [Some "http://limited.example"],
        inl (HttpRpcError 429 "Too Many Requests: ")).
Proof.
  assert (H2 : Forall (fallsBack scenario_request strict_client 41)
                      [Some "http://down.example"]).
  { constructor; [|constructor]. eexists. split; reflexivity. }
  split; [reflexivity|]. split; [exact H2|]. do 3 (split; [reflexivity|]).
  exact (fetchJson_no_fallback scenario_request strict_client 41
           [Some "http://down.example"] (Some "http://limited.example")
           [Some "http://up.example"] (HttpRpcError 429 "Too Many Requests: ") isRateLimit
           eq_refl H2 eq_refl eq_refl eq_refl).
Defined.

(** Both nodes fail: the error is the one of the second. *)
Lemma fetchJson_last_error_witness :
  urls failing_client = [Some "http://down.example"] ++ [Some "http://limited.example"]
  /\ Forall (fallsBack scenario_request failing_client 41) [Some "http://down.example"]
  /\ fetchJsonOneUrl scenario_request (Some "http://limited.example") 41
     = inl (HttpRpcError 429 "Too Many Requests: ")
  /\ fetchJson scenario_request failing_client 41
     = (urls failing_client, inl (HttpRpcError 429 "Too Many Requests: ")).
Proof.
  assert (H2 : Forall (fallsBack scenario_request failing_client 41)
                      [Some "http://down.example"]).
  { constructor; [|constructor]. eexists. split; reflexivity. }
  split; [reflexivity|]. split; [exact H2|]. split; [reflexivity|].
  exact (fetchJson_last_error scenario_request failing_client 41
           [Some "http://down.example"] (Some "http://limited.example")
           (HttpRpcError 429 "Too Many Requests: ") eq_refl H2 eq_refl).
Defined.

Lemma fetchJson_error_origin_witness :
  newJsonRpcHttpClient (urls failing_client) None = inr failing_client
  /\ fetchJson scenario_request failing_client 41
     = (urls failing_client, inl (HttpRpcError 429 "Too Many Requests: "))
  /\ exists s,
       Some s ∈ urls failing_client /\ s <> ""
       /\ scenario_request s 41 = inl (HttpRpcError 429 "Too Many Requests: ").
Proof.
  assert (H1 : newJsonRpcHttpClient (urls failing_client) None = inr failing_client)
    by reflexivity.
  assert (H2 : fetchJson scenario_request failing_client 41
               = (urls failing_client, inl (HttpRpcError 429 "Too Many Requests: ")))
    by reflexivity.
  split; [exact H1|]. split; [exact H2|].
  exact (fetchJson_error_origin scenario_request (urls failing_client) None failing_client
           41 (urls failing_client) (HttpRpcError 429 "Too Many Requests: ") H1 H2).
Defined.

(** * The epoch transition *)

Section EpochTransitionFacts.
Context `{Params} `{AttesterFlags} `{SszTypes} `{!Util} `{EpochTypes} `{!EpochEnv}.

(** ** Who writes effective balances

    Every sub-phase but [process_effective_balance_updates] leaves the
    effective balances of the registry as they are. *)

Lemma initiate_validator_exit_frame state index state' :
  initiate_validator_exit state index = Some state' ->
  effectiveBalance <$> validators state' = effectiveBalance <$> validators state
  /\ balances state' = balances state.
Proof.
  unfold initiate_validator_exit. intros Hrun.
  destruct (validators state !! index) as [v|]; [|discriminate].
  cbn [mbind option_bind] in Hrun.
  destruct (negb (exitEpoch v =? FAR_FUTURE_EPOCH)); [by injection Hrun as <-|].
  match type of Hrun with
  | context [list_update ?l ?i ?f] => destruct (list_update l i f) as [vs|] eqn:Hvs
  end; [|discriminate].
  cbn [mbind option_bind] in Hrun. injection Hrun as <-.
  cbn [validators balances set_validators]. split; [|done].
  by apply (list_update_fmap effectiveBalance) in Hvs.
Qed.

Lemma ejectLoop_balances indices :
  forall state state',
    @ejectLoop _ transitionUtil indices state = Some state' ->
    balances state' = balances state.
Proof.
  induction indices as [|index rest IH]; intros state state' Hrun; cbn [ejectLoop] in Hrun.
  - by injection Hrun as <-.
  - destruct (initiateValidatorExit state index) as [s1|] eqn:Hs1; [|discriminate].
    cbn [mbind option_bind] in Hrun. apply IH in Hrun as ->.
    cbn [initiateValidatorExit transitionUtil] in Hs1.
    by apply initiate_validator_exit_frame in Hs1 as [_ ->].
Qed.

Lemma process_registry_updates_frame state summary state' :
  process_registry_updates state summary = Some state' ->
  effectiveBalance <$> validators (beacon state')
  = effectiveBalance <$> validators (beacon state)
  /\ balances (beacon state') = balances (beacon state).
Proof.
  unfold process_registry_updates. intros Hrun.
  destruct (processRegistryUpdates _ _) as [b|] eqn:Hb; [|discriminate].
  cbn [mbind option_bind] in Hrun. injection Hrun as <-. cbn [beacon with_beacon].
  split.
  - apply (@processRegistryUpdates_effectiveBalance _ transitionUtil) in Hb;
      [done|].
    intros s index s' Hs. cbn [initiateValidatorExit transitionUtil] in Hs.
    by apply initiate_validator_exit_frame in Hs as [-> _].
  - apply (@processRegistryUpdates_stages _ transitionUtil) in Hb
      as (state1 & vs1 & Heject & _ & _ & ->).
    cbn [balances set_validators]. by apply ejectLoop_balances in Heject.
Qed.

Lemma decreaseBalance_nonneg state index delta state' :
  decreaseBalance state index delta = Some state' ->
  Forall (Z.le 0) (balances state) -> Forall (Z.le 0) (balances state').
Proof.
  unfold decreaseBalance. intros Hrun Hbs.
  destruct (list_update _ _ _) as [bs|] eqn:E; [|discriminate].
  cbn [mbind option_bind] in Hrun. injection Hrun as <-. cbn [balances set_balances].
  apply list_update_Some in E as (b & Hb & ->).
  apply Forall_insert; [done|]. destruct (Z.ltb_spec b delta); lia.
Qed.

Lemma slashLoop_nonneg adjusted totalBalance increment indices :
  forall state trace state' trace',
    slashLoop adjusted totalBalance increment indices state trace = Some (state', trace') ->
    Forall (Z.le 0) (balances state) -> Forall (Z.le 0) (balances state').
Proof.
  induction indices as [|index rest IH]; intros state trace state' trace' Hrun Hbs;
    cbn [slashLoop] in Hrun.
  - by injection Hrun as <- _.
  - destruct (slashIndex _ _ _ _ _) as [[s1 penalty]|] eqn:Hstep; [|discriminate].
    cbn [mbind option_bind] in Hrun. eapply IH; [exact Hrun|].
    unfold slashIndex in Hstep.
    destruct (effectiveBalances (epochCtx state) !! index) as [eb|]; [|discriminate].
    cbn [mbind option_bind] in Hstep.
    destruct (bigint_div eb increment) as [q|]; [|discriminate].
    cbn [mbind option_bind] in Hstep.
    destruct (bigint_div (q * adjusted) totalBalance) as [r|]; [|discriminate].
    cbn [mbind option_bind] in Hstep.
    destruct (decreaseBalance state index (r * increment)) as [s2|] eqn:Hdec; [|discriminate].
    cbn [mbind option_bind] in Hstep. injection Hstep as <- _.
    by eapply decreaseBalance_nonneg.
Qed.

Lemma process_slashings_frame fork state summary state' :
  process_slashings fork state summary = Some state' ->
  validators (beacon state') = validators (beacon state)
  /\ (Forall (Z.le 0) (balances (beacon state)) ->
      Forall (Z.le 0) (balances (beacon state'))).
Proof.
  unfold process_slashings. intros Hrun.
  destruct (processSlashingsAllForks _ _ _) as [[b trace]|] eqn:Hb; [|discriminate].
  cbn [mbind option_bind] in Hrun. injection Hrun as <-. cbn [beacon with_beacon].
  split; [by eapply processSlashings_validators|].
  unfold processSlashingsAllForks in Hb.
  destruct (length (indicesToSlash summary) =? 0)%nat; [by injection Hb as <- _|].
  by eapply slashLoop_nonneg.
Qed.

Lemma process_justification_and_finalization_frame state summary :
  validators (beacon (process_justification_and_finalization state summary))
  = validators (beacon state)
  /\ balances (beacon (process_justification_and_finalization state summary))
     = balances (beacon state).
Proof.
  unfold process_justification_and_finalization.
  destruct (currentEpoch summary <=? GENESIS_EPOCH + 1); [done|].
  cbv zeta. by destruct (finality_rule _ _ _ _) as [[epoch root]|].
Qed.

Lemma process_rewards_and_penalties_frame fork state summary :
  validators (beacon (process_rewards_and_penalties fork state summary))
  = validators (beacon state)
  /\ (Forall (Z.le 0) (balances (beacon state)) ->
      Forall (Z.le 0) (balances (beacon (process_rewards_and_penalties fork state summary)))).
Proof.
  unfold process_rewards_and_penalties.
  destruct (currentEpoch summary =? GENESIS_EPOCH); [done|].
  cbn [beacon with_beacon validators balances set_balances]. split; [done|].
  intros Hbs. apply Forall_lookup. intros i b' Hb'.
  rewrite list_lookup_imap in Hb'.
  destruct (balances (beacon state) !! i) as [b|] eqn:Hb; [|discriminate].
  cbn in Hb'. injection Hb' as <-.
  pose proof (Forall_lookup_1 _ _ _ _ Hbs Hb) as Hb0. cbn beta in Hb0.
  destruct (rewards_and_penalties fork state summary !! i) as [[reward penalty]|]; [|done].
  destruct (Z.ltb_spec (b + reward) penalty); lia.
Qed.

(** The sub-phases after the effective balance updates, and the rotation of
    the cache, write neither validators nor balances. *)
Lemma after_effective_balance_updates_frame fork state :
  let state1 := process_slashings_reset state in
  let state2 := process_randao_mixes_reset state1 in
  let state3 := process_historical_roots_update state2 in
  let state4 := process_participation_record_updates fork state3 in
  let state5 :=
    match fork with
    | altair => process_sync_committee_updates state4
    | phase0 => state4
    end in
  validators (beacon (cache_rotate state5)) = validators (beacon state)
  /\ balances (beacon (cache_rotate state5)) = balances (beacon state).
Proof.
  cbv zeta.
  unfold cache_rotate, process_sync_committee_updates, process_participation_record_updates,
    process_historical_roots_update, process_randao_mixes_reset, process_slashings_reset.
  repeat match goal with
         | |- context [if ?c then _ else _] => destruct c
         | |- context [match ?x with Some _ => _ | None => _ end] => destruct x
         | |- context [match ?f with phase0 => _ | altair => _ end] => destruct f
         end; done.
Qed.

Lemma process_inactivity_updates_frame state summary :
  beacon (process_inactivity_updates state summary) = beacon state.
Proof. done. Qed.

Lemma process_eth1_data_reset_frame state :
  beacon (process_eth1_data_reset state) = beacon state.
Proof. unfold process_eth1_data_reset. by destruct (_ =? 0). Qed.

Lemma build_epoch_summary_balances state summary :
  build_epoch_summary state = Some summary -> ep_balances summary = None.
Proof.
  unfold build_epoch_summary, beforeProcessEpoch. intros Hrun.
  destruct (computeBaseRewardPerIncrement _) as [reward|]; [|discriminate].
  cbn [mbind option_bind] in Hrun.
  match type of Hrun with
  | context [match ?f with phase0 => ?a | altair => ?b end] =>
      destruct (match f with phase0 => a | altair => b end) as [statuses|];
        [|discriminate]
  end.
  cbn [mbind option_bind] in Hrun.
  destruct (stakeLoop _ _ statuses _) as [stake|]; [|discriminate].
  cbn [mbind option_bind] in Hrun. by injection Hrun as <-.
Qed.

Lemma fmap_eq_lookup {A B : Type} (g : A -> B) (l l' : list A) i x' :
  g <$> l' = g <$> l -> l' !! i = Some x' -> exists x, l !! i = Some x /\ g x' = g x.
Proof.
  intros Heq Hx'.
  assert ((g <$> l) !! i = Some (g x')) as Hi by (by rewrite <- Heq, list_lookup_fmap, Hx').
  rewrite list_lookup_fmap in Hi. destruct (l !! i) as [x|]; [|discriminate].
  injection Hi as Hi. by exists x.
Qed.

(** What [processEffectiveBalanceUpdates] writes, when it reads the
    balances of the state: every effective balance is the one before or
    [min(b - b mod increment, MAX_EFFECTIVE_BALANCE)] for the balance [b]
    of the validator. *)
Lemma processEffectiveBalanceUpdates_values state ep state' :
  0 < EFFECTIVE_BALANCE_INCREMENT ->
  ep_balances ep = None ->
  Forall (Z.le 0) (balances state) ->
  processEffectiveBalanceUpdates state ep = Some state' ->
  balances state' = balances state
  /\ forall i v',
       validators state' !! i = Some v' ->
       (exists v, validators state !! i = Some v /\ effectiveBalance v' = effectiveBalance v)
       \/ (exists b,
             balances state !! i = Some b
             /\ effectiveBalance v'
                = Z.min (b - b mod EFFECTIVE_BALANCE_INCREMENT) MAX_EFFECTIVE_BALANCE).
Proof.
  intros Hinc Hflat Hbs Hrun.
  apply processEffectiveBalanceUpdates_stages in Hrun as (h & _ & Hloop & ->).
  rewrite Hflat in Hloop. cbn [default from_option] in Hloop.
  cbn [balances validators set_validators]. split; [done|].
  pose proof (effectiveBalanceLoop_lookup _ _ _ _ _ _ _ Hloop) as [Hout Hin].
  intros i v' Hv'.
  destruct (balances state !! i) as [b|] eqn:Hb.
  - assert (0 <= b) as Hb0 by (eapply (Forall_lookup_1 (Z.le 0)); eauto).
    destruct (Hin i b ltac:(lia)) as (snap & sv & _ & _ & Hres);
      [by rewrite Nat.sub_0_r|].
    rewrite Hv' in Hres.
    destruct (validators state !! i) as [v|]; [|discriminate].
    cbn [fmap option_fmap option_map] in Hres. injection Hres as ->.
    destruct (needsUpdate _ _ _ _).
    + right. exists b. split; [done|]. cbn [with_effectiveBalance effectiveBalance].
      by rewrite bigIntMin_min, Z.rem_mod_nonneg by lia.
    + left. by exists v.
  - apply lookup_ge_None in Hb. rewrite Hout in Hv' by (right; simpl; lia).
    left. by exists v'.
Qed.

(** C7.  Let the effective balance of every validator of the pre-state
    lie between 0 and [MAX_EFFECTIVE_BALANCE] and be a multiple of
    [EFFECTIVE_BALANCE_INCREMENT].  Then the same holds in every post-state
    of the epoch transition [process_epoch].  Moreover the effective
    balance of a validator of the post-state is either the one it had in
    the pre-state or [min(b - (b mod increment), MAX_EFFECTIVE_BALANCE)]
    for its balance [b] in the post-state, the value that
    [processEffectiveBalanceUpdates] writes: no other sub-phase writes
    effective balances.  (The balances of the pre-state are unsigned.) *)
Theorem effective_balance_invariant_preserved state state' :
  0 < EFFECTIVE_BALANCE_INCREMENT ->
  0 <= MAX_EFFECTIVE_BALANCE ->
  MAX_EFFECTIVE_BALANCE mod EFFECTIVE_BALANCE_INCREMENT = 0 ->
  Forall (Z.le 0) (balances (beacon state)) ->
  Forall effectiveBalanceOk (validators (beacon state)) ->
  process_epoch state = Some state' ->
  Forall effectiveBalanceOk (validators (beacon state'))
  /\ forall i v',
       validators (beacon state') !! i = Some v' ->
       (exists v,
          validators (beacon state) !! i = Some v
          /\ effectiveBalance v' = effectiveBalance v)
       \/ (exists b,
             balances (beacon state') !! i = Some b
             /\ effectiveBalance v'
                = Z.min (b - b mod EFFECTIVE_BALANCE_INCREMENT) MAX_EFFECTIVE_BALANCE).
Proof.
  intros Hinc Hmax Hmult Hbs Hok Hrun.
  unfold process_epoch in Hrun. cbv zeta in Hrun.
  destruct (build_epoch_summary (beacon state)) as [summary|] eqn:Hsummary; [|discriminate].
  cbn [mbind option_bind] in Hrun.
  set (fork := getForkName (config (beacon state)) (slot (beacon state))) in *.
  set (s1 := process_justification_and_finalization state summary) in *.
  set (s2 := match fork with
             | phase0 => s1
             | altair => process_inactivity_updates s1 summary
             end) in *.
  set (s3 := process_rewards_and_penalties fork s2 summary) in *.
  destruct (process_registry_updates s3 summary) as [s4|] eqn:Hs4; [|discriminate].
  cbn [mbind option_bind] in Hrun.
  destruct (process_slashings fork s4 summary) as [s5|] eqn:Hs5; [|discriminate].
  cbn [mbind option_bind] in Hrun.
  set (s6 := process_eth1_data_reset s5) in *.
  destruct (process_effective_balance_updates s6 summary) as [s7|] eqn:Hs7; [|discriminate].
  cbn [mbind option_bind] in Hrun. injection Hrun as <-.
  (* the sub-phases before the effective balance updates *)
  destruct (process_justification_and_finalization_frame state summary) as [Hv1 Hb1].
  fold s1 in Hv1, Hb1.
  assert (beacon s2 = beacon s1) as Hs2 by (subst s2; by destruct fork).
  destruct (process_rewards_and_penalties_frame fork s2 summary) as [Hv3 Hb3].
  fold s3 in Hv3, Hb3.
  destruct (process_registry_updates_frame _ _ _ Hs4) as [Hv4 Hb4].
  destruct (process_slashings_frame _ _ _ _ Hs5) as [Hv5 Hb5].
  pose proof (process_eth1_data_reset_frame s5) as Hs6. fold s6 in Hs6.
  assert (Hebs : effectiveBalance <$> validators (beacon s6)
                 = effectiveBalance <$> validators (beacon state)).
  { by rewrite Hs6, Hv5, Hv4, Hv3, Hs2, Hv1. }
  assert (Hbs6 : Forall (Z.le 0) (balances (beacon s6))).
  { rewrite Hs6. apply Hb5. rewrite Hb4. apply Hb3. by rewrite Hs2, Hb1. }
  (* the effective balance updates *)
  unfold process_effective_balance_updates in Hs7.
  destruct (processEffectiveBalanceUpdates (beacon s6) summary) as [b7|] eqn:Hb7;
    [|discriminate].
  cbn [mbind option_bind] in Hs7. injection Hs7 as <-.
  pose proof (build_epoch_summary_balances _ _ Hsummary) as Hflat.
  (* the sub-phases after them *)
  destruct (after_effective_balance_updates_frame fork (with_beacon s6 b7)) as [Hv8 Hb8].
  cbv zeta in Hv8, Hb8. rewrite Hv8, Hb8. cbn [beacon with_beacon].
  split.
  - eapply processEffectiveBalanceUpdates_invariant; try eassumption.
    + by rewrite Hflat.
    + by eapply effectiveBalanceOk_fmap.
  - destruct (processEffectiveBalanceUpdates_values _ _ _ Hinc Hflat Hbs6 Hb7)
      as [Hbalances Hvalues].
    intros i v' Hv'. destruct (Hvalues i v' Hv') as [(v6 & Hv6 & Heq)|(b & Hb & Heq)].
    + left. destruct (fmap_eq_lookup effectiveBalance _ _ _ _ Hebs Hv6) as (v & Hv & Heq').
      exists v. split; [done|]. congruence.
    + right. exists b. split; [by rewrite Hbalances|done].
Qed.

End EpochTransitionFacts.

Section EpochScenarioFacts.
#[local] Existing Instance scenario_params.
#[local] Existing Instance scenario_flags.
#[local] Existing Instance scenario_types.
#[local] Existing Instance scenario_util.
#[local] Existing Instance scenario_epoch_types.
#[local] Existing Instance scenario_epoch_env.

(** The transition of [mixed_epoch_state]: validator 4 is penalised for its
    slashing and falls from 32 ETH to 5 ETH, validator 5 from 32 ETH to
    30 ETH; validator 3 is ejected, validator 2 activated. *)
Lemma effective_balance_invariant_preserved_witness :
  exists state',
    0 < EFFECTIVE_BALANCE_INCREMENT
    /\ 0 <= MAX_EFFECTIVE_BALANCE
    /\ MAX_EFFECTIVE_BALANCE mod EFFECTIVE_BALANCE_INCREMENT = 0
    /\ Forall (Z.le 0) (balances (beacon mixed_epoch_state))
    /\ Forall effectiveBalanceOk (validators (beacon mixed_epoch_state))
    /\ process_epoch mixed_epoch_state = Some state'
    /\ effectiveBalance <$> validators (beacon state')
       = [32 * ETH; 32 * ETH; 32 * ETH; 16 * ETH; 5 * ETH; 30 * ETH]
    /\ balances (beacon state')
       = [32000010000; 31999990000; 31999990000; 16000010000; 5999990000; 30000010000]
    /\ Forall effectiveBalanceOk (validators (beacon state')).
Proof.
  eexists.
  assert (H1 : 0 < EFFECTIVE_BALANCE_INCREMENT) by reflexivity.
  assert (H2 : 0 <= MAX_EFFECTIVE_BALANCE) by discriminate.
  assert (H3 : MAX_EFFECTIVE_BALANCE mod EFFECTIVE_BALANCE_INCREMENT = 0) by reflexivity.
  assert (H4 : Forall (Z.le 0) (balances (beacon mixed_epoch_state)))
    by (repeat constructor; discriminate).
  assert (H5 : Forall effectiveBalanceOk (validators (beacon mixed_epoch_state))).
  { repeat constructor; try discriminate; reflexivity. }
  do 5 (split; [assumption|]).
  match goal with |- ?R /\ _ => assert (Hrun : R) by (vm_compute; reflexivity) end.
  split; [exact Hrun|]. split; [reflexivity|]. split; [reflexivity|].
  exact (proj1 (effective_balance_invariant_preserved mixed_epoch_state _
                  H1 H2 H3 H4 H5 Hrun)).
Defined.

End EpochScenarioFacts.
